(** * pdf_parser.py: a shallow embedding of the statement parser

    The development follows [server/pdf_parser.py]: account detection from
    the file name and the user's hint, the BMO line parser, the two TD
    layouts (checking and credit card), and the orchestration in [main].

    Modelling choices, all of them local to this file:

    - Text is a list of 7-bit ASCII characters ([str]).  Case mapping, white
      space and the classes of the regular expressions are the ASCII ones;
      characters above 127 are symbols without case.
    - The regular expressions of the source are values of [Re.re], run by a
      backtracking matcher with the priorities of Python's [re] (ordered
      alternation, greedy and lazy repetition, capture groups).
    - Amounts and word coordinates are Python floats read from decimal
      numerals; they are modelled by the exact rationals ([Q]) the numerals
      denote.  A numeral with two fraction digits is zero, positive or
      negative as a float exactly when it is so as a rational.
    - The document layer (pdfplumber) is a value of type [pdf]: each page
      gives its text and its words, and each call may raise. *)

From Stdlib Require Import Ascii String.
From Stdlib Require Import List Bool Arith ZArith QArith Qabs Qround Lia Lqa.
From Stdlib Require Import Permutation Sorted.
Import ListNotations.

Set Implicit Arguments.

Local Open Scope nat_scope.
Local Open Scope bool_scope.
Local Open Scope list_scope.

(** ** Text *)

Definition str := list ascii.

(** [L "abc"] is the text of a literal. *)
Definition L (x : string) : str := list_ascii_of_string x.

Module Text.

Definition code (c : ascii) : N := N_of_ascii c.

Definition between (lo hi : N) (c : ascii) : bool :=
  (N.leb lo (code c)) && (N.leb (code c) hi).

Definition is_digit (c : ascii) : bool := between 48 57 c.
Definition is_upper (c : ascii) : bool := between 65 90 c.
Definition is_lower (c : ascii) : bool := between 97 122 c.
Definition is_alpha (c : ascii) : bool := is_upper c || is_lower c.

(** [str.isspace] on ASCII: TAB, LF, VT, FF, CR, FS, GS, RS, US, SPACE. *)
Definition is_space (c : ascii) : bool :=
  between 9 13 c || between 28 32 c.

(** [\w] on ASCII. *)
Definition is_word (c : ascii) : bool :=
  is_alpha c || is_digit c || Ascii.eqb c "_"%char.

Definition lower_c (c : ascii) : ascii :=
  if is_upper c then ascii_of_N (code c + 32) else c.
Definition upper_c (c : ascii) : ascii :=
  if is_lower c then ascii_of_N (code c - 32) else c.

Definition lower (s : str) : str := map lower_c s.
Definition upper (s : str) : str := map upper_c s.

Fixpoint eqb (a b : str) : bool :=
  match a, b with
  | [], [] => true
  | x :: a', y :: b' => Ascii.eqb x y && eqb a' b'
  | _, _ => false
  end.

Fixpoint startswith (s p : str) {struct p} : bool :=
  match p, s with
  | [], _ => true
  | y :: p', x :: s' => Ascii.eqb x y && startswith s' p'
  | _ :: _, [] => false
  end.

(** [k in s] for texts. *)
Fixpoint contains (k s : str) : bool :=
  startswith s k ||
  match s with
  | [] => false
  | _ :: s' => contains k s'
  end.

Fixpoint lstrip_by (p : ascii -> bool) (s : str) : str :=
  match s with
  | x :: s' => if p x then lstrip_by p s' else s
  | [] => []
  end.
Definition rstrip_by (p : ascii -> bool) (s : str) : str :=
  rev (lstrip_by p (rev s)).

(** [s.strip()] *)
Definition strip (s : str) : str := rstrip_by is_space (lstrip_by is_space s).

(** [s.rstrip(chars)] *)
Definition rstrip_chars (chars s : str) : str :=
  rstrip_by (fun c => existsb (Ascii.eqb c) chars) s.

(** [s.replace(old, new)], for a non-empty [old]: after an occurrence is
    replaced, the scan goes on behind it ([skip] characters are still part
    of the occurrence). *)
Fixpoint replace_go (old new : str) (skip : nat) (s : str) : str :=
  match s with
  | [] => []
  | x :: s' =>
    match skip with
    | S skip' => replace_go old new skip' s'
    | O =>
      if startswith s old
      then new ++ replace_go old new (length old - 1) s'
      else x :: replace_go old new 0 s'
    end
  end.
Definition replace (old new s : str) : str := replace_go old new 0 s.

(** The longest prefix of characters in a class, and what follows it. *)
Fixpoint span_by (p : ascii -> bool) (s : str) : str * str :=
  match s with
  | x :: s' =>
    if p x then let (a, b) := span_by p s' in (x :: a, b) else ([], s)
  | [] => ([], [])
  end.

(** [sep.join(parts)] *)
Fixpoint join (sep : str) (parts : list str) : str :=
  match parts with
  | [] => []
  | [p] => p
  | p :: ps => p ++ sep ++ join sep ps
  end.

(** [s.split()]: the maximal runs of non-space characters. *)
Fixpoint split_go (cur : str) (s : str) : list str :=
  match s with
  | [] => match cur with [] => [] | _ => [rev cur] end
  | x :: s' =>
    if is_space x
    then match cur with [] => split_go [] s' | _ => rev cur :: split_go [] s' end
    else split_go (x :: cur) s'
  end.
Definition split (s : str) : list str := split_go [] s.

(** Line boundaries of [str.splitlines] on ASCII: LF, VT, FF, CR, FS, GS, RS,
    with CR LF counting once. *)
Definition is_linebreak (c : ascii) : bool :=
  between 10 13 c || between 28 30 c.

Fixpoint splitlines_go (cur : str) (s : str) : list str :=
  match s with
  | [] => match cur with [] => [] | _ => [rev cur] end
  | x :: s' =>
    if is_linebreak x then
      rev cur ::
      match s' with
      | y :: s'' =>
        if Ascii.eqb x "013"%char && Ascii.eqb y "010"%char
        then splitlines_go [] s''
        else splitlines_go [] s'
      | [] => []
      end
    else splitlines_go (x :: cur) s'
  end.
Definition splitlines (s : str) : list str := splitlines_go [] s.

(** [s.zfill(n)] for a text without sign. *)
Definition zfill (n : nat) (s : str) : str :=
  repeat "0"%char (n - length s) ++ s.

Definition digit_val (c : ascii) : Z := Z.of_N (code c) - 48.

(** The value of a run of decimal digits, most significant first. *)
Definition digits_val (s : str) : Z :=
  fold_left (fun acc c => 10 * acc + digit_val c)%Z s 0%Z.

(** [int(s)] for a text of decimal digits, blanks around them allowed;
    [None] stands for [ValueError]. *)
Definition int_of (s : str) : option Z :=
  match strip s with
  | [] => None
  | t => if forallb is_digit t then Some (digits_val t) else None
  end.

Definition digit_char (d : Z) : ascii := ascii_of_N (48 + Z.to_N d).

Fixpoint Z_digits (fuel : nat) (z : Z) (acc : str) : str :=
  match fuel with
  | O => acc
  | S fuel' =>
    let acc' := digit_char (z mod 10) :: acc in
    if (z <? 10)%Z then acc' else Z_digits fuel' (z / 10) acc'
  end.

(** [str(z)] for an integer. *)
Definition of_Z (z : Z) : str :=
  if (z <? 0)%Z
  then "-"%char :: Z_digits (S (Z.to_nat (Z.log2 (- z)))) (- z) []
  else Z_digits (S (Z.to_nat (Z.log2 z))) z [].

(** [f"{z:02d}"] for a non-negative integer. *)
Definition pad2 (z : Z) : str := zfill 2 (of_Z z).

(** A text that neither starts nor ends with a blank. *)
Definition solid (s : str) : Prop :=
  exists x t y, is_space x = false /\ is_space y = false /\
                (s = [x] \/ s = x :: t ++ [y]).

(** The characters of a numeral without its suffix: digits, the point and
    the sign. *)
Definition plain (c : ascii) : bool :=
  is_digit c || Ascii.eqb c "." || Ascii.eqb c "-".

End Text.

(** ** Regular expressions

    The fragment of Python's [re] that the parser uses.  A character class
    is a predicate; [re.I] is applied to a class with [icase].  The matcher
    is a backtracking one in continuation-passing style: alternatives are
    tried left to right, a greedy repetition tries one more iteration before
    it tries to stop, a lazy one the other way round. *)

Module Re.

Inductive re : Type :=
| Eps
| Chr (p : ascii -> bool)
| Seq (r1 r2 : re)
| Alt (r1 r2 : re)
| Rep (greedy : bool) (lo : nat) (hi : option nat) (r : re)
| Grp (n : nat) (r : re)
| Bol
| Eol
| WordB.

(** A position in the subject: the number of characters consumed, the
    character just before the position, and the characters still ahead. *)
Record cursor : Type := Cur { pos : nat; prev : option ascii; rest : str }.

(** Capture groups: the most recent span of each group comes first. *)
Definition caps := list (nat * (nat * nat)).

Definition K := cursor -> caps -> option (cursor * caps).

Definition orelse {A} (a : option A) (b : unit -> option A) : option A :=
  match a with
  | Some x => Some x
  | None => b tt
  end.

Definition hi_open (hi : option nat) : bool :=
  match hi with
  | Some O => false
  | _ => true
  end.

Definition hi_pred (hi : option nat) : option nat := option_map Nat.pred hi.

(** One repetition loop.  [fuel] starts above the number of characters left
    and every iteration must consume one, so it never runs out. *)
Fixpoint rep (body : K -> K) (greedy : bool) (lo : nat) (hi : option nat)
    (fuel : nat) (k : K) (c : cursor) (g : caps) : option (cursor * caps) :=
  match fuel with
  | O => None
  | S fuel' =>
    let stop := fun _ : unit => if Nat.eqb lo 0 then k c g else None in
    let more := fun _ : unit =>
      if hi_open hi then
        body (fun c' g' =>
                if length (rest c') <? length (rest c)
                then rep body greedy (Nat.pred lo) (hi_pred hi) fuel' k c' g'
                else None) c g
      else None in
    if greedy then orelse (more tt) stop else orelse (stop tt) more
  end.

Definition at_word (o : option ascii) : bool :=
  match o with
  | Some c => Text.is_word c
  | None => false
  end.

Fixpoint run (r : re) (k : K) (c : cursor) (g : caps) : option (cursor * caps) :=
  match r with
  | Eps => k c g
  | Chr p =>
    match rest c with
    | x :: xs => if p x then k (Cur (S (pos c)) (Some x) xs) g else None
    | [] => None
    end
  | Seq r1 r2 => run r1 (run r2 k) c g
  | Alt r1 r2 => orelse (run r1 k c g) (fun _ => run r2 k c g)
  | Rep greedy lo hi r' => rep (run r') greedy lo hi (S (length (rest c))) k c g
  | Grp n r' => run r' (fun c' g' => k c' ((n, (pos c, pos c')) :: g')) c g
  | Bol => if Nat.eqb (pos c) 0 then k c g else None
  | Eol =>
    match rest c with
    | [] => k c g
    | [x] => if Ascii.eqb x "010"%char then k c g else None
    | _ => None
    end
  | WordB => if xorb (at_word (prev c)) (at_word (hd_error (rest c))) then k c g else None
  end.

(** A match object: the subject, the span of the whole match and the
    groups. *)
Record rmatch : Type := Match { subject : str; m_start : nat; m_end : nat; m_caps : caps }.

Fixpoint span_of (n : nat) (g : caps) : option (nat * nat) :=
  match g with
  | [] => None
  | (i, sp) :: g' => if Nat.eqb i n then Some sp else span_of n g'
  end.

Definition slice (s : str) (sp : nat * nat) : str :=
  firstn (snd sp - fst sp) (skipn (fst sp) s).

(** [m.group(n)]; a group that took no part in the match reads as the empty
    text (every group of the patterns below takes part in every match). *)
Definition group (m : rmatch) (n : nat) : str :=
  match n with
  | O => slice (subject m) (m_start m, m_end m)
  | _ => match span_of n (m_caps m) with
         | Some sp => slice (subject m) sp
         | None => []
         end
  end.

Definition accept : K := fun c g => Some (c, g).
Definition accept_end : K :=
  fun c g => match rest c with [] => Some (c, g) | _ => None end.

Definition start_cursor (s : str) : cursor := Cur 0 None s.

Definition mk_match (s : str) (c : cursor) (res : option (cursor * caps)) : option rmatch :=
  match res with
  | Some (c', g) => Some (Match s (pos c) (pos c') g)
  | None => None
  end.

(** [re.match(r, s)] *)
Definition re_match (r : re) (s : str) : option rmatch :=
  mk_match s (start_cursor s) (run r accept (start_cursor s) []).

(** [re.fullmatch(r, s)] *)
Definition re_fullmatch (r : re) (s : str) : option rmatch :=
  mk_match s (start_cursor s) (run r accept_end (start_cursor s) []).

Fixpoint search_from (r : re) (s : str) (fuel : nat) (c : cursor) : option rmatch :=
  match run r accept c [] with
  | Some res => mk_match s c (Some res)
  | None =>
    match fuel, rest c with
    | S fuel', x :: xs => search_from r s fuel' (Cur (S (pos c)) (Some x) xs)
    | _, _ => None
    end
  end.

(** [re.search(r, s)]: the leftmost match. *)
Definition re_search (r : re) (s : str) : option rmatch :=
  search_from r s (length s) (start_cursor s).

(** A replacement template: literal text and group references. *)
Inductive piece : Type :=
| Lit (t : str)
| Ref (n : nat).

Definition expand (s : str) (g : caps) (tpl : list piece) : str :=
  flat_map (fun p => match p with
                     | Lit t => t
                     | Ref n => match span_of n g with
                                | Some sp => slice s sp
                                | None => []
                                end
                     end) tpl.

Fixpoint sub_from (r : re) (tpl : list piece) (s : str) (fuel : nat) (c : cursor) : str :=
  match fuel with
  | O => rest c
  | S fuel' =>
    match rest c with
    | [] => []
    | x :: xs =>
      match run r accept c [] with
      | Some (c', g) =>
        if length (rest c') <? length (rest c)
        then expand s g tpl ++ sub_from r tpl s fuel' c'
        else x :: sub_from r tpl s fuel' (Cur (S (pos c)) (Some x) xs)
      | None => x :: sub_from r tpl s fuel' (Cur (S (pos c)) (Some x) xs)
      end
    end
  end.

(** [re.sub(r, tpl, s)] for a pattern that consumes at least one character
    whenever it matches, as all the patterns given to [re.sub] here do. *)
Definition re_sub (r : re) (tpl : list piece) (s : str) : str :=
  sub_from r tpl s (length s) (start_cursor s).

(** *** The texts a pattern can consume

    [Matches r u]: some run of [r] consumes exactly [u].  Anchors and word
    boundaries consume nothing; what they require of the context is not
    recorded here. *)
Inductive Matches : re -> str -> Prop :=
| MEps : Matches Eps []
| MChr p x : p x = true -> Matches (Chr p) [x]
| MSeq r1 r2 u1 u2 : Matches r1 u1 -> Matches r2 u2 -> Matches (Seq r1 r2) (u1 ++ u2)
| MAltL r1 r2 u : Matches r1 u -> Matches (Alt r1 r2) u
| MAltR r1 r2 u : Matches r2 u -> Matches (Alt r1 r2) u
| MRepStop gr hi r : Matches (Rep gr 0 hi r) []
| MRepMore gr lo hi r u1 u2 :
    hi_open hi = true ->
    Matches r u1 ->
    Matches (Rep gr (Nat.pred lo) (hi_pred hi) r) u2 ->
    Matches (Rep gr lo hi r) (u1 ++ u2)
| MGrp n r u : Matches r u -> Matches (Grp n r) u
| MBol : Matches Bol []
| MEol : Matches Eol []
| MWordB : Matches WordB [].

(** A cursor that lies in the subject [s]. *)
Definition at_pos (s : str) (c : cursor) : Prop := rest c = skipn (pos c) s.

(** A continuation-passing matcher is sound for [r] when every answer goes
    through a cursor reached by consuming a text of [r]. *)
Definition sound (r : re) (f : K -> K) : Prop :=
  forall k c g a,
    f k c g = Some a ->
    exists u c' g',
      rest c = u ++ rest c' /\ pos c' = pos c + length u /\
      Matches r u /\ k c' g' = Some a.

(** A matcher that depends on its continuation only through its answers. *)
Definition extensional (f : K -> K) : Prop :=
  forall k1 k2, (forall c g, k1 c g = k2 c g) -> forall c g, f k1 c g = f k2 c g.

(** *** Pattern combinators, named after the syntax they stand for *)

Definition icase (p : ascii -> bool) : ascii -> bool :=
  fun c => p c || p (Text.lower_c c) || p (Text.upper_c c).

Definition is_char (x : ascii) : ascii -> bool := fun c => Ascii.eqb c x.
Definition range (lo hi : ascii) : ascii -> bool :=
  Text.between (Text.code lo) (Text.code hi).
Definition union (p q : ascii -> bool) : ascii -> bool := fun c => p c || q c.

Definition digit : ascii -> bool := Text.is_digit.
Definition space : ascii -> bool := Text.is_space.
Definition any_char : ascii -> bool := fun c => negb (Ascii.eqb c "010"%char).

Fixpoint seq (rs : list re) : re :=
  match rs with
  | [] => Eps
  | [r] => r
  | r :: rs' => Seq r (seq rs')
  end.

Fixpoint alt (rs : list re) : re :=
  match rs with
  | [] => Chr (fun _ => false)
  | [r] => r
  | r :: rs' => Alt r (alt rs')
  end.

(** A literal, case-sensitive or (under [re.I]) not. *)
Definition lit (t : string) : re := seq (map (fun x => Chr (is_char x)) (L t)).
Definition lit_i (t : string) : re := seq (map (fun x => Chr (icase (is_char x))) (L t)).

Definition star (r : re) : re := Rep true 0 None r.
Definition star_lazy (r : re) : re := Rep false 0 None r.
Definition plus (r : re) : re := Rep true 1 None r.
Definition opt (r : re) : re := Rep true 0 (Some 1) r.
Definition opt_lazy (r : re) : re := Rep false 0 (Some 1) r.
Definition times (lo hi : nat) (r : re) : re := Rep true lo (Some hi) r.
Definition at_least (lo : nat) (r : re) : re := Rep true lo None r.

End Re.

(** ** Exceptions and library functions *)

(** A Python exception, known by the text of [str(e)]. *)
Record exn : Type := Exn { message : str }.

Inductive result (A : Type) : Type :=
| Ok (a : A)
| Raise (e : exn).
Arguments Ok {A} a.
Arguments Raise {A} e.

Definition bind {A B} (r : result A) (k : A -> result B) : result B :=
  match r with
  | Ok a => k a
  | Raise e => Raise e
  end.

Notation "x <- e ;; k" := (bind e (fun x => k))
  (at level 61, e at next level, right associativity).

Definition ValueError : exn := Exn (L "could not convert string to float").
Definition IndexError : exn := Exn (L "list index out of range").
Definition AttributeError : exn := Exn (L "'function' object has no attribute 'lower'").

(** [float(s)] on the plain decimal syntax: blanks around, an optional
    sign, digits with at most one point and at least one digit.  The forms
    with an exponent, [inf], [nan] and digit-group underscores are not
    modelled: no numeral that reaches [float] in this program has them. *)
Definition unsigned_float (t : str) : option Q :=
  let (ip, after) := Text.span_by Text.is_digit t in
  let fp := match after with
            | [] => Some []
            | x :: f => if Ascii.eqb x "."%char then Some f else None
            end in
  match fp with
  | Some f =>
    if forallb Text.is_digit f && negb (Nat.eqb (length ip + length f) 0)
    then Some (Qmake (Text.digits_val (ip ++ f)) (Z.to_pos (10 ^ Z.of_nat (length f))))
    else None
  | None => None
  end.

Definition py_float (s : str) : result Q :=
  let t := Text.strip s in
  let v := match t with
           | x :: u =>
             if Ascii.eqb x "-"%char then option_map Qopp (unsigned_float u)
             else if Ascii.eqb x "+"%char then unsigned_float u
             else unsigned_float t
           | [] => None
           end in
  match v with
  | Some q => Ok q
  | None => Raise ValueError
  end.

(** [round(q, 2)]: to the nearest hundredth, ties to the even one. *)
Definition round2 (q : Q) : Q :=
  let x := Qmult q (100 # 1) in
  let f := Qfloor x in
  let r := Qminus x (f # 1) in
  let n := match Qcompare r (1 # 2) with
           | Lt => f
           | Gt => (f + 1)%Z
           | Eq => if Z.even f then f else (f + 1)%Z
           end in
  Qmake n 100.

(** *** [datetime.strptime] for the three formats in use

    CPython turns the format into a regular expression, matched without case
    against the whole text; the date is then built in the year 1900, which
    has no 29th of February. *)

Definition month_names : list string :=
  ["jan"; "feb"; "mar"; "apr"; "may"; "jun";
   "jul"; "aug"; "sep"; "oct"; "nov"; "dec"]%string.

Definition directive_b : Re.re :=
  Re.Grp 1 (Re.alt (map Re.lit_i month_names)).

(** [3[0-1]|[1-2]\d|0[1-9]|[1-9]| [1-9]] *)
Definition directive_d : Re.re :=
  Re.Grp 2 (Re.alt
    [ Re.seq [Re.lit "3"; Re.Chr (Re.range "0" "1")];
      Re.seq [Re.Chr (Re.range "1" "2"); Re.Chr Re.digit];
      Re.seq [Re.lit "0"; Re.Chr (Re.range "1" "9")];
      Re.Chr (Re.range "1" "9");
      Re.seq [Re.lit " "; Re.Chr (Re.range "1" "9")] ]).

Fixpoint index_of (x : str) (l : list string) (i : Z) : option Z :=
  match l with
  | [] => None
  | y :: l' => if Text.eqb x (L y) then Some i else index_of x l' (i + 1)%Z
  end.

Definition days_in_month_1900 (mo : Z) : Z :=
  match mo with
  | 2 => 28
  | 4 | 6 | 9 | 11 => 30
  | _ => 31
  end%Z.

(** The month and the day of the [datetime] that [strptime] returns;
    [None] stands for [ValueError]. *)
Definition strptime_with (fmt : Re.re) (has_day : bool) (s : str) : option (Z * Z) :=
  match Re.re_match fmt s with
  | None => None
  | Some m =>
    if negb (Nat.eqb (Re.m_end m) (length s)) then None
    else
      match index_of (Text.lower (Re.group m 1)) month_names 1%Z with
      | None => None
      | Some mo =>
        if has_day then
          match Text.int_of (Re.group m 2) with
          | Some d => if (d <=? days_in_month_1900 mo)%Z then Some (mo, d) else None
          | None => None
          end
        else Some (mo, 1%Z)
      end
  end.

(** [strptime(s, "%b")] *)
Definition strptime_b : str -> option (Z * Z) :=
  strptime_with directive_b false.
(** [strptime(s, "%b %d")]: the blank of the format stands for [\s+]. *)
Definition strptime_b_d : str -> option (Z * Z) :=
  strptime_with (Re.seq [directive_b; Re.plus (Re.Chr Re.space); directive_d]) true.
(** [strptime(s, "%b%d")] *)
Definition strptime_bd : str -> option (Z * Z) :=
  strptime_with (Re.seq [directive_b; directive_d]) true.

(** [Path(p).name] on a POSIX path: the last component, where empty
    components and [.] do not count. *)
Fixpoint components (cur : str) (p : str) : list str :=
  match p with
  | [] => [rev cur]
  | x :: p' =>
    if Ascii.eqb x "/"%char then rev cur :: components [] p'
    else components (x :: cur) p'
  end.

Definition path_name (p : str) : str :=
  last (filter (fun c => negb (Text.eqb c []) && negb (Text.eqb c (L ".")))
               (components [] p)) [].

(** ** Account detection from the file name *)

Import Re.

Definition found (r : re) (s : str) : bool :=
  match re_search r s with
  | Some _ => true
  | None => false
  end.

Definition letter : ascii -> bool := union (range "a" "z") (range "A" "Z").

(** [[a-zA-Z]+\s+\d{1,2},\s+\d{4}]: a long date such as "January 5, 2024" *)
Definition long_date : re :=
  seq [plus (Chr letter); plus (Chr space); times 1 2 (Chr digit); lit ",";
       plus (Chr space); times 4 4 (Chr digit)].

Definition dot_star : re := star (Chr any_char).

(** [MC1785|BMO.*CAD|CAD.*BMO] with [re.I] *)
Definition bmo_cad_marker : re :=
  alt [lit_i "MC1785"; seq [lit_i "BMO"; dot_star; lit_i "CAD"];
       seq [lit_i "CAD"; dot_star; lit_i "BMO"]].

(** [USD|US.*MC|BMO.*USD] with [re.I] *)
Definition bmo_us_marker : re :=
  alt [lit_i "USD"; seq [lit_i "US"; dot_star; lit_i "MC"];
       seq [lit_i "BMO"; dot_star; lit_i "USD"]].

(** [TD.*(CC|Visa|Credit)] with [re.I] *)
Definition td_cc_marker : re :=
  seq [lit_i "TD"; dot_star; Grp 1 (alt [lit_i "CC"; lit_i "Visa"; lit_i "Credit"])].

(** [[_-]\d{4}\.pdf$] with [re.I] *)
Definition td_cc_suffix : re :=
  seq [Chr (union (is_char "_") (is_char "-")); times 4 4 (Chr digit); lit_i ".pdf"; Eol].

(** [TD.*(Chk|Check|All.Inclusive|Saving)] with [re.I] *)
Definition td_chk_marker : re :=
  seq [lit_i "TD"; dot_star;
       Grp 1 (alt [lit_i "Chk"; lit_i "Check";
                   seq [lit_i "All"; Chr any_char; lit_i "Inclusive"];
                   lit_i "Saving"])].

(** [_\d{4}\.pdf$] with [re.I] *)
Definition td_chk_suffix : re :=
  seq [lit "_"; times 4 4 (Chr digit); lit_i ".pdf"; Eol].

Definition ACCOUNT_PATTERNS : list (str * (str -> bool)) :=
  [ (L "BMO CAD Credit Card", fun fn => found bmo_cad_marker fn && found long_date fn);
    (L "BMO US Credit Card",  fun fn => found bmo_us_marker fn && found long_date fn);
    (L "TD CAD Credit Card",  fun fn => found td_cc_marker fn && found td_cc_suffix fn);
    (L "TD CAD Checking",     fun fn => found td_chk_marker fn && found td_chk_suffix fn) ].

(** The dictionary is read in insertion order. *)
Definition KEYWORD_MAP : list (str * str) :=
  [ (L "bmo cad",     L "BMO CAD Credit Card");
    (L "bmo usd",     L "BMO US Credit Card");
    (L "bmo us",      L "BMO US Credit Card");
    (L "td cc",       L "TD CAD Credit Card");
    (L "td credit",   L "TD CAD Credit Card");
    (L "td checking", L "TD CAD Checking");
    (L "td chk",      L "TD CAD Checking") ].

(** The first [return] of a [for] loop over a list. *)
Fixpoint first_some {A B} (f : A -> option B) (l : list A) : option B :=
  match l with
  | [] => None
  | a :: l' => match f a with
               | Some b => Some b
               | None => first_some f l'
               end
  end.

(** [name.lower] for a detector [name]: a function has no attribute
    [lower], so the lookup raises and gives no value. *)
Definition detector_lower (name : str -> bool) : result Empty_set :=
  Raise AttributeError.

(** [for _, name in ACCOUNT_PATTERNS: if hint.lower() in name.lower(): return name].
    The loop binds [name] to the second component of the pair, which is the
    detector and not the label: the lookup of [lower] raises at the first
    pair, before the test and the [return] are reached. *)
Definition by_name (h : str) (pats : list (str * (str -> bool))) : result (option str) :=
  match pats with
  | [] => Ok None
  | pat :: _ =>
    n <- detector_lower (snd pat) ;;
    match n return result (option str) with end
  end.

Definition by_hint (hint : option str) : result (option str) :=
  match hint with
  | None | Some [] => Ok None
  | Some hint =>
    let h := Text.lower hint in
    match first_some (fun kv : str * str =>
                       if Text.contains (fst kv) h then Some (snd kv) else None)
                     KEYWORD_MAP with
    | Some v => Ok (Some v)
    | None => by_name (Text.lower hint) ACCOUNT_PATTERNS
    end
  end.

Definition by_filename (fn : str) : option str :=
  first_some (fun pat : str * (str -> bool) =>
                if snd pat fn then Some (fst pat) else None) ACCOUNT_PATTERNS.

Definition by_fuzzy (fn_upper : str) : option str :=
  if found (lit "BMO") fn_upper then
    if found (alt [lit "US"; lit "USD"]) fn_upper
    then Some (L "BMO US Credit Card")
    else Some (L "BMO CAD Credit Card")
  else if found (seq [WordB; lit "TD"; WordB]) fn_upper then
    if found (alt [lit "CHK"; lit "CHECK"; lit "SAVING";
                   seq [lit "ALL"; Chr any_char; lit "INCLUSIVE"]]) fn_upper
    then Some (L "TD CAD Checking")
    else Some (L "TD CAD Credit Card")
  else None.

Definition detect_account (filepath : str) (hint : option str) : result (option str) :=
  let fn := path_name filepath in
  let fn_upper := Text.upper fn in
  hinted <- by_hint hint ;;
  match hinted with
  | Some v => Ok (Some v)
  | None =>
    match by_filename fn with
    | Some v => Ok (Some v)
    | None => Ok (by_fuzzy fn_upper)
    end
  end.

(** ** The document layer *)

(** A word of [page.extract_words]: its text, the horizontal start, the
    vertical top, and whether it is upright (a word without the key counts
    as upright). *)
Record word : Type := Word { text : str; x0 : Q; top : Q; upright : bool }.

(** A page: [extract_text()] gives a text or [None], [extract_words] depends
    on the horizontal tolerance; either call may raise. *)
Record page : Type := Page {
  extract_text : result (option str);
  extract_words : Q -> result (list word)
}.

Record pdf : Type := Pdf { pages : list page }.

(** What a run of the program can see: for each path, whether a file is
    there and what [pdfplumber.open] makes of it, and the month and year of
    [datetime.now()]. *)
Record world : Type := World {
  fs : str -> option (result pdf);
  now : Z * Z
}.

(** [pdfplumber.open(p)] for a path that exists. *)
Definition open (w : world) (p : str) : result pdf :=
  match fs w p with
  | Some r => r
  | None => Raise (Exn (L "No such file or directory"))
  end.

(** [x or ""] *)
Definition or_empty (t : option str) : str :=
  match t with
  | Some s => s
  | None => []
  end.

(** [for x in xs: ...] with a body that may raise. *)
Fixpoint for_each {A S} (xs : list A) (body : S -> A -> result S) (s : S) : result S :=
  match xs with
  | [] => Ok s
  | x :: xs' => s' <- body s x ;; for_each xs' body s'
  end.

(** A transaction as the parsers return it. *)
Record Row : Type := MkRow { Date : str; Description : str; Amount : Q }.

(** ** BMO parser *)

(** [([a-zA-Z]+)\s+\d{1,2},\s+(\d{4})] with [re.I] *)
Definition _BMO_DATE : re :=
  seq [Grp 1 (plus (Chr (icase letter))); plus (Chr space); times 1 2 (Chr digit);
       lit ","; plus (Chr space); Grp 2 (times 4 4 (Chr digit))].

(** [[A-Z][a-z]{2}\.??\s?\d{1,2}] with [re.I] *)
Definition bmo_date_token : re :=
  seq [Chr (icase (range "A" "Z")); times 2 2 (Chr (icase (range "a" "z")));
       opt_lazy (lit "."); opt (Chr space); times 1 2 (Chr digit)].

(** [-?[\d,]+\.\d{2}(?:\s?CR)?] with [re.I] *)
Definition bmo_amount : re :=
  seq [opt (lit "-"); plus (Chr (union digit (is_char ","))); lit ".";
       times 2 2 (Chr digit); opt (seq [opt (Chr space); lit_i "CR"])].

(** [^(token)\s+(token)\s+(.*?)\s+(amount)\b] with [re.I] *)
Definition _BMO_TRANS : re :=
  seq [Bol; Grp 1 bmo_date_token; plus (Chr space); Grp 2 bmo_date_token;
       plus (Chr space); Grp 3 (star_lazy (Chr any_char)); plus (Chr space);
       Grp 4 bmo_amount; WordB].

Inductive bmo_format : Type := legacy | modern.

Definition _bmo_fmt (w : world) (p : str) : bmo_format :=
  let attempt :=
    doc <- open w p ;;
    match pages doc with
    | [] => Raise IndexError
    | pg :: _ =>
      t <- extract_text pg ;;
      Ok (Text.replace (L " ") [] (Text.upper (or_empty t)))
    end in
  match attempt with
  | Ok t => if Text.contains (L "REFERENCENO") t then legacy else modern
  | Raise _ => modern
  end.

Definition month_of (abbr : str) : Z :=
  match strptime_b (firstn 3 abbr) with
  | Some (mo, _) => mo
  | None => 1%Z
  end.

Definition _bmo_my (w : world) (p : str) : result (Z * Z) :=
  match re_search _BMO_DATE (path_name p) with
  | None => Ok (now w)
  | Some m =>
    let mi := month_of (group m 1) in
    match Text.int_of (group m 2) with
    | Some y => Ok (mi, y)
    | None => Raise ValueError
    end
  end.

(** [f"{yr}-{month:02d}-{day:02d}"] *)
Definition iso_date (yr mo d : Z) : str :=
  Text.of_Z yr ++ L "-" ++ Text.pad2 mo ++ L "-" ++ Text.pad2 d.

(** The year of a month-and-day date read against the statement anchor. *)
Definition roll_year (mo sm sy : Z) : Z :=
  if (mo =? 12)%Z && (sm =? 1)%Z then (sy - 1)%Z
  else if (mo =? 1)%Z && (sm =? 12)%Z then (sy + 1)%Z
  else sy.

(** [^([A-Za-z]{3})\s*(\d{1,2})$] *)
Definition bmo_token_shape : re :=
  seq [Bol; Grp 1 (times 3 3 (Chr (union (range "A" "Z") (range "a" "z"))));
       star (Chr space); Grp 2 (times 1 2 (Chr digit)); Eol].

Definition _bmo_date (tok : str) (sm sy : Z) : str :=
  let c := re_sub (lit ".") [] (Text.strip tok) in
  match re_match bmo_token_shape c with
  | None => tok
  | Some m =>
    match strptime_b_d (group m 1 ++ L " " ++ Text.zfill 2 (group m 2)) with
    | Some (mo, d) => iso_date (roll_year mo sm sy) mo d
    | None => tok
    end
  end.

Definition _bmo_amt (s : str) : result Q :=
  let s := Text.strip (Text.replace (L "$") [] (Text.replace (L ",") [] s)) in
  let cr := Text.contains (L "CR") (Text.upper s) in
  n <- py_float (Text.strip (Text.replace (L "CR") [] (Text.upper s))) ;;
  Ok (if cr then n else Qopp n).

(** [\d{8,}] or [\d{2,}-[\d-]{4,}], as [re.fullmatch] *)
Definition _bmo_isref (t : str) : bool :=
  let t := Text.strip t in
  (match re_fullmatch (at_least 8 (Chr digit)) t with Some _ => true | None => false end)
  || (match re_fullmatch (seq [at_least 2 (Chr digit); lit "-";
                               at_least 4 (Chr (union digit (is_char "-")))]) t
      with Some _ => true | None => false end).

Definition _bmo_human (d : str) : str :=
  let d := re_sub (seq [Grp 1 (Chr (range "a" "z")); Grp 2 (Chr (range "A" "Z"))])
                  [Ref 1; Lit (L " "); Ref 2] d in
  let d := re_sub (seq [Grp 1 (Chr letter); Grp 2 (Chr digit)])
                  [Ref 1; Lit (L " "); Ref 2] d in
  let d := re_sub (seq [Grp 1 (Chr digit); Grp 2 (Chr letter)])
                  [Ref 1; Lit (L " "); Ref 2] d in
  Text.strip (re_sub (plus (Chr space)) [Lit (L " ")] d).

(** The body of the loop over the lines of a page: [None] is [continue]. *)
Definition bmo_line (fmt : bmo_format) (sm sy : Z) (line : str) : result (option Row) :=
  match re_match _BMO_TRANS (Text.strip line) with
  | None => Ok None
  | Some m =>
    let desc := Text.strip (group m 3) in
    let desc :=
      match fmt with
      | legacy =>
        let parts := Text.split desc in
        let desc :=
          match parts with
          | [] => desc
          | _ => if _bmo_isref (last parts [])
                 then Text.strip (Text.join (L " ") (removelast parts))
                 else desc
          end in
        _bmo_human desc
      | modern => desc
      end in
    amt <- _bmo_amt (group m 4) ;;
    Ok (Some (MkRow (_bmo_date (group m 1) sm sy) desc amt))
  end.

Definition parse_bmo (w : world) (p : str) : result (list Row) :=
  my <- _bmo_my w p ;;
  let (sm, sy) := my in
  let fmt := _bmo_fmt w p in
  doc <- open w p ;;
  for_each (pages doc)
    (fun rows pg =>
       t <- extract_text pg ;;
       for_each (Text.splitlines (or_empty t))
         (fun rows line =>
            r <- bmo_line fmt sm sy line ;;
            Ok (match r with
                | Some row => rows ++ [row]
                | None => rows
                end))
         rows)
    [].

(** ** TD parser *)

Definition Qleb (a b : Q) : bool := Qle_bool a b.
Definition Qltb (a b : Q) : bool := negb (Qle_bool b a).

(** [_td_up(page, xt)]: the upright words of a page. *)
Definition _td_up (pg : page) (xt : Q) : result (list word) :=
  ws <- extract_words pg xt ;;
  Ok (filter upright ws).

(** [sorted(l, key=...)]: a stable insertion sort, [le] comparing the keys. *)
Fixpoint insert_by {A} (le : A -> A -> bool) (x : A) (l : list A) : list A :=
  match l with
  | [] => [x]
  | y :: l' => if le x y then x :: l else y :: insert_by le x l'
  end.
Definition sorted_by {A} (le : A -> A -> bool) (l : list A) : list A :=
  fold_right (insert_by le) [] l.

(** The order of the keys [(w['top'], w['x0'])]. *)
Definition top_x0_le (a b : word) : bool :=
  match Qcompare (top a) (top b) with
  | Lt => true
  | Eq => Qleb (x0 a) (x0 b)
  | Gt => false
  end.

Definition close_lines (lines : list (list word)) (cur : list word) : list (list word) :=
  match cur with
  | [] => lines
  | _ => lines ++ [cur]
  end.

Fixpoint td_lines_go (yt : Q) (ws : list word) (lines : list (list word))
    (cur : list word) (ct : option Q) : list (list word) :=
  match ws with
  | [] => close_lines lines cur
  | w :: ws' =>
    let ct := match ct with Some t => t | None => top w end in
    if Qleb (Qabs (top w - ct)) yt
    then td_lines_go yt ws' lines (cur ++ [w]) (Some ct)
    else td_lines_go yt ws' (close_lines lines cur) [w] (Some (top w))
  end.

Definition _td_lines (ws : list word) (yt : Q) : list (list word) :=
  td_lines_go yt (sorted_by top_x0_le ws) [] [] None.

(** [[-_]([a-zA-Z]{3})_\d{1,2}[_-](\d{4})\.pdf$] and
    [_([a-zA-Z]{3})_\d{1,2}-(\d{4})\.pdf$], both with [re.I] *)
Definition td_name_patterns : list re :=
  [ seq [Chr (union (is_char "-") (is_char "_")); Grp 1 (times 3 3 (Chr (icase letter)));
         lit "_"; times 1 2 (Chr digit); Chr (union (is_char "_") (is_char "-"));
         Grp 2 (times 4 4 (Chr digit)); lit_i ".pdf"; Eol];
    seq [lit "_"; Grp 1 (times 3 3 (Chr (icase letter))); lit "_"; times 1 2 (Chr digit);
         lit "-"; Grp 2 (times 4 4 (Chr digit)); lit_i ".pdf"; Eol] ].

Definition _td_my (w : world) (fn : str) : Z * Z :=
  match first_some
          (fun pat =>
             match re_search pat fn with
             | Some m =>
               match strptime_b (firstn 3 (group m 1)), Text.int_of (group m 2) with
               | Some (mo, _), Some y => Some (mo, y)
               | _, _ => None
               end
             | None => None
             end) td_name_patterns with
  | Some my => my
  | None => now w
  end.

Definition _td_date (raw : str) (sm sy : Z) : str :=
  match strptime_bd raw with
  | Some (mo, d) => iso_date (roll_year mo sm sy) mo d
  | None => raw
  end.

(** [([\d,]+\.\d{2})] *)
Definition td_numeral : re :=
  Grp 1 (seq [plus (Chr (union digit (is_char ","))); lit "."; times 2 2 (Chr digit)]).

Definition _td_amt (s : str) : result Q :=
  match re_search td_numeral s with
  | Some m => py_float (Text.replace (L ",") [] (group m 1))
  | None => Ok 0%Q
  end.

Inductive td_layout : Type := credit_card | checking.

Definition _td_type (w : world) (p : str) : result td_layout :=
  doc <- open w p ;;
  match pages doc with
  | [] => Raise IndexError
  | pg :: _ =>
    ws <- _td_up pg 2 ;;
    let texts := map (fun x => Text.upper (text x)) ws in
    Ok (if existsb (Text.contains (L "TRANSACTION")) texts
           && existsb (Text.contains (L "POSTING")) texts
        then credit_card else checking)
  end.

(** [(JAN|FEB|...|DEC)\s*(\d{1,2})] *)
Definition td_month_day : re :=
  seq [Grp 1 (alt (map lit ["JAN"; "FEB"; "MAR"; "APR"; "MAY"; "JUN";
                            "JUL"; "AUG"; "SEP"; "OCT"; "NOV"; "DEC"]%string));
       star (Chr space); Grp 2 (times 1 2 (Chr digit))].

(** *** Checking layout *)

(** The header columns found so far: the dictionary [cols]. *)
Record columns : Type := Cols {
  col_desc : option Q; col_with : option Q; col_dep : option Q;
  col_date : option Q; col_bal : option Q
}.

Definition header_word (hy : Q) (cols : columns) (w : word) : columns :=
  if Qleb (Qabs (top w - hy)) 5 then
    let t := Text.rstrip_chars (L ":") (Text.strip (Text.lower (text w))) in
    if      Text.startswith t (L "desc") then
      Cols (Some (x0 w)) (col_with cols) (col_dep cols) (col_date cols) (col_bal cols)
    else if Text.startswith t (L "with") then
      Cols (col_desc cols) (Some (x0 w)) (col_dep cols) (col_date cols) (col_bal cols)
    else if Text.startswith t (L "dep") then
      Cols (col_desc cols) (col_with cols) (Some (x0 w)) (col_date cols) (col_bal cols)
    else if Text.startswith t (L "date") then
      Cols (col_desc cols) (col_with cols) (col_dep cols) (Some (x0 w)) (col_bal cols)
    else if Text.startswith t (L "bal") then
      Cols (col_desc cols) (col_with cols) (col_dep cols) (col_date cols) (Some (x0 w))
    else cols
  else cols.

(** The four fields of a row of the table: the dictionary [r]. *)
Record chk_fields : Type := ChkFields {
  r_desc : list str; r_with : list str; r_dep : list str; r_date : list str
}.

Definition chk_bucket (xde xwe xdpe xdte : Q) (r : chk_fields) (w : word) : chk_fields :=
  let x := x0 w in
  if      Qltb x xde  then ChkFields (r_desc r ++ [text w]) (r_with r) (r_dep r) (r_date r)
  else if Qltb x xwe  then ChkFields (r_desc r) (r_with r ++ [text w]) (r_dep r) (r_date r)
  else if Qltb x xdpe then ChkFields (r_desc r) (r_with r) (r_dep r ++ [text w]) (r_date r)
  else if Qltb x xdte then ChkFields (r_desc r) (r_with r) (r_dep r) (r_date r ++ [text w])
  else r.

Definition CHK_SKIP : list str :=
  [L "BALANCE FORWARD"; L "OPENING BALANCE"; L "CLOSING BALANCE"; L "TOTAL";
   L "DAILY CLOSING"].

Definition is_empty {A} (s : list A) : bool :=
  match s with
  | [] => true
  | _ => false
  end.

(** The amount of a row: [None] is Python's [None]. *)
Definition chk_amount (ws dp : str) : result (option Q) :=
  if negb (is_empty ws) then a <- _td_amt ws ;; Ok (Some (Qopp a))
  else if negb (is_empty dp) then a <- _td_amt dp ;; Ok (Some a)
  else Ok None.

(** The body of the loop over the rows of a page, after the words are
    sorted into fields: [None] is [continue]. *)
Definition chk_row (r : chk_fields) (sm sy : Z) : result (option Row) :=
  let desc := Text.strip (Text.join (L " ") (r_desc r)) in
  if is_empty desc || existsb (fun k => Text.contains k (Text.upper desc)) CHK_SKIP
  then Ok None
  else
    let ds := Text.upper (concat (r_date r)) in
    match re_search td_month_day ds with
    | None => Ok None
    | Some dm =>
      let ws := Text.strip (concat (r_with r)) in
      let dp := Text.strip (concat (r_dep r)) in
      amt <- chk_amount ws dp ;;
      match amt with
      | None => Ok None
      | Some a =>
        if Qeq_bool a 0 then Ok None
        else Ok (Some (MkRow (_td_date (group dm 1 ++ Text.zfill 2 (group dm 2)) sm sy)
                             (Text.strip (re_sub (plus (Chr space)) [Lit (L " ")] desc))
                             (round2 a)))
      end
    end.

Definition get_or (o : option Q) (d : Q) : Q :=
  match o with
  | Some q => q
  | None => d
  end.

Definition chk_page (sm sy : Z) (rows : list Row) (pg : page) : result (list Row) :=
  words <- _td_up pg 2 ;;
  match words with
  | [] => Ok rows
  | _ =>
    match find (fun w => Text.startswith (Text.lower (text w)) (L "withdrawal")) words with
    | None => Ok rows
    | Some hw =>
      let hy := top hw in
      let cols := fold_left (header_word hy) words (Cols None None None None None) in
      match col_with cols, col_dep cols with
      | Some cw, Some cd =>
        let xde := cw - 5 in
        let xwe := cd - 5 in
        let xdpe := get_or (col_date cols) (cd + 80) - 5 in
        let xdte := get_or (col_bal cols) (xdpe + 65) - 5 in
        for_each (_td_lines (filter (fun w => Qltb (hy + 5) (top w)) words) 4)
          (fun rows line =>
             let r := fold_left (chk_bucket xde xwe xdpe xdte) line
                                (ChkFields [] [] [] []) in
             row <- chk_row r sm sy ;;
             Ok (match row with
                 | Some x => rows ++ [x]
                 | None => rows
                 end))
          rows
      | _, _ => Ok rows
      end
    end
  end%Q.

Definition parse_td_chk (w : world) (p : str) (sm sy : Z) : result (list Row) :=
  doc <- open w p ;;
  for_each (pages doc) (chk_page sm sy) [].

(** *** Credit-card layout *)

(** An entry of the list [raw]. *)
Record RawRow : Type := MkRaw { DateRaw : str; RawDescription : str; RawAmount : Q }.

(** What the loop reads off a line: the joined description, the joined and
    upper-cased date field, and the text of the leftmost amount word. *)
Record cc_fields : Type := CcFields { f_desc : str; f_ds : str; f_ar : str }.

Record cc_buckets : Type := CcBuckets {
  b_date : list str; b_desc : list str; b_amount : list word
}.

Definition cc_bucket (xa xds xmid : Q) (row : cc_buckets) (w : word) : cc_buckets :=
  let x := x0 w in
  if      Qleb xa x    then CcBuckets (b_date row) (b_desc row) (b_amount row ++ [w])
  else if Qleb xds x   then CcBuckets (b_date row) (b_desc row ++ [text w]) (b_amount row)
  else if Qltb x xmid  then CcBuckets (b_date row ++ [text w]) (b_desc row) (b_amount row)
  else row.

Definition cc_fields_of (xa xds xmid : Q) (line : list word) : cc_fields :=
  let row := fold_left (cc_bucket xa xds xmid) line (CcBuckets [] [] []) in
  CcFields (Text.strip (Text.join (L " ") (b_desc row)))
           (Text.upper (concat (b_date row)))
           (match sorted_by (fun a b => Qleb (x0 a) (x0 b)) (b_amount row) with
            | a :: _ => text a
            | [] => []
            end).

Definition CC_STOP : list str := [L "TOTAL NEW"; L "TD MESSAGE"].
Definition CC_SKIP : list str := [L "PREVIOUS STATEMENT"; L "STARTING BALANCE"; L "NET AMOUNT"].

(** [\d{4}\s*\d{2}XX]: a masked card number *)
Definition masked_card : re :=
  seq [times 4 4 (Chr digit); star (Chr space); times 2 2 (Chr digit); lit "XX"].

Definition cc_stops (f : cc_fields) : bool :=
  existsb (Text.startswith (Text.upper (f_desc f))) CC_STOP.

Definition cc_skipped (f : cc_fields) : bool :=
  existsb (Text.startswith (Text.upper (f_desc f))) CC_SKIP
  || is_empty (f_desc f)
  || Text.eqb (Text.strip (Text.upper (f_desc f))) (L "ACTIVITY")
  || found masked_card (f_desc f).

(** [raw[-1]["Description"] += " " + desc] *)
Fixpoint append_to_last (raw : list RawRow) (desc : str) : list RawRow :=
  match raw with
  | [] => []
  | [t] => [MkRaw (DateRaw t) (RawDescription t ++ L " " ++ desc) (RawAmount t)]
  | t :: raw' => t :: append_to_last raw' desc
  end.

Inductive loop (S : Type) : Type :=
| Break
| Continue (s : S).
Arguments Break {S}.
Arguments Continue {S} s.

(** The body of the loop over the lines of a page. *)
Definition cc_line (raw : list RawRow) (f : cc_fields) : result (loop (list RawRow)) :=
  if cc_stops f then Ok Break
  else if cc_skipped f then Ok (Continue raw)
  else
    let dm := re_search td_month_day (f_ds f) in
    let cr := Text.startswith (Text.strip (f_ar f)) (L "-") in
    an <- _td_amt (f_ar f) ;;
    match dm with
    | Some m =>
      if Qltb 0 an
      then Ok (Continue (raw ++ [MkRaw (group m 1 ++ Text.zfill 2 (group m 2))
                                       (f_desc f)
                                       (if cr then an else Qopp an)]))
      else if negb (is_empty (f_desc f)) && negb (is_empty raw)
      then Ok (Continue (append_to_last raw (f_desc f)))
      else Ok (Continue raw)
    | None =>
      if negb (is_empty (f_desc f)) && negb (is_empty raw)
      then Ok (Continue (append_to_last raw (f_desc f)))
      else Ok (Continue raw)
    end.

(** [for line in lines: ...] with [break]. *)
Fixpoint cc_lines (raw : list RawRow) (fs : list cc_fields) : result (list RawRow) :=
  match fs with
  | [] => Ok raw
  | f :: fs' =>
    r <- cc_line raw f ;;
    match r with
    | Break => Ok raw
    | Continue raw' => cc_lines raw' fs'
    end
  end.

Definition Qmax_list (l : list Q) (default : Q) : Q :=
  match l with
  | [] => default
  | q :: l' => fold_left (fun m x => if Qltb m x then x else m) l' q
  end.

Definition cc_page (raw : list RawRow) (pg : page) : result (list RawRow) :=
  words <- _td_up pg 1 ;;
  match words with
  | [] => Ok raw
  | _ =>
    match find (fun w => Text.contains (L "AMOUNT") (Text.upper (text w))
                         && Text.contains (L "$") (text w)) words with
    | None => Ok raw
    | Some hw =>
      let hy := top hw in
      let xa := x0 hw in
      let on_header := fun w => Qleb (Qabs (top w - hy)) 5 in
      let xds :=
        match find (fun w => on_header w
                             && (Text.contains (L "ACTIVITY") (Text.upper (text w))
                                 || Text.contains (L "DESCRIPTION") (Text.upper (text w))))
                   words with
        | Some w => x0 w
        | None =>
          Qmax_list (map x0 (filter (fun w => on_header w && Qltb (x0 w) xa) words))
                    (140 # 1)
        end in
      let xmid := xds / 2 in
      let twy := filter (fun w => Qltb (hy + 5) (top w)) words in
      let ym :=
        match find (fun w => Text.eqb (Text.upper (text w)) (L "CONTINUED")) twy with
        | Some w => Some (top w)
        | None =>
          match find (fun w => Text.eqb (Text.upper (text w)) (L "TOTAL")
                               || Text.eqb (Text.upper (text w)) (L "TD")) twy with
          | Some w => Some (top w)
          | None => None
          end
        end in
      let tw := filter (fun w => Qltb (hy + 5) (top w)
                                 && match ym with
                                    | Some y => Qltb (top w) y
                                    | None => true
                                    end) words in
      cc_lines raw (map (cc_fields_of xa xds xmid) (_td_lines tw 5))
    end
  end%Q.

Definition parse_td_cc (w : world) (p : str) (sm sy : Z) : result (list Row) :=
  doc <- open w p ;;
  raw <- for_each (pages doc) cc_page [] ;;
  Ok (map (fun t => MkRow (_td_date (DateRaw t) sm sy)
                          (Text.strip (re_sub (plus (Chr space)) [Lit (L " ")]
                                              (RawDescription t)))
                          (round2 (RawAmount t))) raw).

Definition parse_td (w : world) (p : str) : result (list Row) :=
  let (sm, sy) := _td_my w (path_name p) in
  st <- _td_type w p ;;
  match st with
  | credit_card => parse_td_cc w p sm sy
  | checking => parse_td_chk w p sm sy
  end.

(** ** Main: what the process prints and its exit status *)

(** The object given to [json.dumps]: its keys in order, each with a value.
    A list of transactions prints as a list of objects with the keys
    [Date], [Description] and [Amount]. *)
Inductive jvalue : Type :=
| JNull
| JStr (s : str)
| JInt (z : Z)
| JRows (l : list Row)
| JTraceback (e : exn).

Definition json := list (str * jvalue).

(** [obj[key]], if the object has the key. *)
Fixpoint field (key : str) (obj : json) : option jvalue :=
  match obj with
  | [] => None
  | (k, v) :: obj' => if Text.eqb k key then Some v else field key obj'
  end.

Definition json_account (a : option str) : jvalue :=
  match a with
  | Some s => JStr s
  | None => JNull
  end.

(** The parsers tried in turn when the account is unknown. *)
Definition parse_unknown (w : world) (p : str) (account : option str)
  : result (option str * list Row) :=
  let attempt :=
    transactions <- parse_bmo w p ;;
    match transactions with
    | [] =>
      transactions <- parse_td w p ;;
      match transactions, account with
      | _ :: _, None => Ok (Some (L "TD CAD Checking"), transactions)
      | _, _ => Ok (account, transactions)
      end
    | _ :: _ =>
      match account with
      | None => Ok (Some (L "BMO CAD Credit Card"), transactions)
      | Some _ => Ok (account, transactions)
      end
    end in
  match attempt with
  | Ok r => Ok r
  | Raise _ =>
    transactions <- parse_td w p ;;
    Ok (account, transactions)
  end.

Definition has (k : string) (account : option str) : bool :=
  match account with
  | Some a => negb (is_empty a) && Text.contains (L k) a
  | None => false
  end.

(** [main()] with [sys.argv = argv]: the object printed and the exit status.
    [sys.exit] raises [SystemExit], which [except Exception] lets through. *)
Definition main (w : world) (argv : list str) : json * Z :=
  match argv with
  | [] | [_] =>
    ([(L "error", JStr (L "Usage: pdf_parser.py <pdf_path> [account_hint]"))], 1%Z)
  | _ :: pdf_path :: more =>
    let hint := hd_error more in
    match fs w pdf_path with
    | None => ([(L "error", JStr (L "File not found: " ++ pdf_path))], 1%Z)
    | Some _ =>
      let parsed :=
        account <- detect_account pdf_path hint ;;
        if has "BMO" account then
          transactions <- parse_bmo w pdf_path ;; Ok (account, transactions)
        else if has "TD" account then
          transactions <- parse_td w pdf_path ;; Ok (account, transactions)
        else parse_unknown w pdf_path account in
      match parsed with
      | Ok (account, transactions) =>
        ([(L "account", json_account account);
          (L "filename", JStr (path_name pdf_path));
          (L "transactions", JRows transactions);
          (L "count", JInt (Z.of_nat (length transactions)));
          (L "error", JNull)], 0%Z)
      | Raise e =>
        ([(L "account", JNull);
          (L "filename", JStr (path_name pdf_path));
          (L "transactions", JRows []);
          (L "count", JInt 0);
          (L "error", JStr (message e));
          (L "traceback", JTraceback e)], 1%Z)
      end
    end
  end.

(** ** Vocabulary of the statements *)

(** What [_bmo_date] reads in a token: a month and a day, or nothing. *)
Definition bmo_reads (tok : str) : option (Z * Z) :=
  match re_match bmo_token_shape (re_sub (lit ".") [] (Text.strip tok)) with
  | Some m => strptime_b_d (group m 1 ++ L " " ++ Text.zfill 2 (group m 2))
  | None => None
  end.

(** What [_td_date] reads in a token. *)
Definition td_reads (raw : str) : option (Z * Z) := strptime_bd raw.

(** The form YYYY-MM-DD: four digits, two digits, two digits. *)
Definition iso_shape (s : str) : bool :=
  match s with
  | [y1; y2; y3; y4; h1; m1; m2; h2; d1; d2] =>
    forallb Text.is_digit [y1; y2; y3; y4; m1; m2; d1; d2]
    && Ascii.eqb h1 "-"%char && Ascii.eqb h2 "-"%char
  | _ => false
  end.



(** The ways a numeral of a BMO line is written. *)
Definition cr_suffixed (numeral : str) : bool :=
  Text.startswith (rev (Text.upper numeral)) (L "RC").
Definition minus_signed (numeral : str) : bool :=
  Text.startswith numeral (L "-").
Definition some_nonzero_digit (numeral : str) : bool :=
  existsb (Text.between 49 57) numeral.

(** *** Numerals *)

(** The value of a numeral with two fraction digits, in hundredths. *)
Definition hundredths (a : str) (d1 d2 : ascii) : Z := Text.digits_val (a ++ [d1; d2]).

(** A numeral with its sign. *)
Definition signed (sgn : str) (q : Q) : Q :=
  match sgn with
  | [] => q
  | _ => Qopp q
  end.

(** The suffix of a numeral: nothing, or CR in either case, which one blank
    may precede. *)
Definition cr_tail (sfx : str) : Prop :=
  sfx = [] \/
  exists ws c r,
    sfx = ws ++ [c; r] /\
    (ws = [] \/ exists w, ws = [w] /\ Text.is_space w = true) /\
    Re.icase (Re.is_char "C") c = true /\ Re.icase (Re.is_char "R") r = true.

(** A text of [n] digits. *)
Definition digits_n (n : nat) (s : str) : bool :=
  Nat.eqb (length s) n && forallb Text.is_digit s.

(** *** Tokens of the calendar *)

(** The abbreviation of a month as the statements print it. *)
Definition month_abbr (mo : Z) : str :=
  L (nth (Z.to_nat (mo - 1))
         ["Jan"; "Feb"; "Mar"; "Apr"; "May"; "Jun";
          "Jul"; "Aug"; "Sep"; "Oct"; "Nov"; "Dec"]%string "Jan"%string).

Definition reads_as (r : option (Z * Z)) (mo d : Z) : bool :=
  match r with
  | Some (mo', d') => (mo' =? mo)%Z && (d' =? d)%Z
  | None => false
  end.

(** The three spellings of a day of the calendar that are checked below:
    "Jan 5" and "Jan.5" for BMO, "JAN05" for TD. *)
Definition calendar_day_read (mo d : Z) : bool :=
  reads_as (bmo_reads (month_abbr mo ++ L " " ++ Text.of_Z d)) mo d
  && reads_as (bmo_reads (month_abbr mo ++ L "." ++ Text.of_Z d)) mo d
  && reads_as (td_reads (Text.upper (month_abbr mo) ++ Text.pad2 d)) mo d.

(** A transaction with an amount other than zero. *)
Definition nonzero_row (r : Row) : Prop := ~ Amount r == 0.

(** An entry of [raw] whose amount stays away from zero when rounded. *)
Definition nonzero_entry (t : RawRow) : Prop := ~ round2 (RawAmount t) == 0.

(** *** Sample documents *)

Definition program : str := L "pdf_parser.py".

Definition text_page (t : string) : page := Page (Ok (Some (L t))) (fun _ => Ok []).

Definition one_file (path : string) (doc : pdf) : world :=
  World (fun p => if Text.eqb p (L path) then Some (Ok doc) else None) (1%Z, 2024%Z).

Definition no_files : world := World (fun _ => None) (1%Z, 2024%Z).

(** A BMO statement with a line that carries the amount 0.00. *)
Definition bmo_zero_fee : world :=
  one_file "/in/BMO CAD January 5, 2024.pdf"
           (Pdf [text_page "Jan 5 Jan 6 ANNUAL FEE WAIVED 0.00"]).

(** A BMO statement with a line that starts like a transaction but with
    words that are no months. *)
Definition bmo_box_line : world :=
  one_file "/in/BMO CAD January 5, 2024.pdf"
           (Pdf [text_page "Box 12 Apt 34 RENT 10.00"]).

Definition table_word (t : string) (x y : Z) : word := Word (L t) (x # 1) (y # 1) true.

(** A TD checking table on a page whose text cannot be extracted. *)
Definition checking_table : list word :=
  [ table_word "Description" 20 100; table_word "Withdrawals" 200 100;
    table_word "Deposits" 300 100; table_word "Date" 400 100;
    table_word "Balance" 460 100;
    table_word "GROCERY" 20 120; table_word "50.00" 210 120;
    table_word "JAN15" 400 120; table_word "950.00" 460 120 ].

Definition td_without_text : world :=
  one_file "/in/statement.pdf"
           (Pdf [Page (Raise (Exn (L "no text layer"))) (fun _ => Ok checking_table)]).

(** A row of a checking table, and lines of a credit-card table after an
    entry for an Uber trip. *)
Definition grocery_row : chk_fields :=
  ChkFields [L "GROCERY"; L "STORE"] [L "50.00"] [] [L "JAN15"].

Definition uber_entry : RawRow := MkRaw (L "DEC28") (L "UBER TRIP") (Qmake (-1234) 100).
Definition toronto_line : cc_fields := CcFields (L "TORONTO ON") [] [].
Definition payment_line : cc_fields := CcFields (L "PAYMENT") (L "JAN2JAN") (L "-$100.00").

(** *** Words for the further properties *)

(** The account labels. *)
Definition labels : list str :=
  [L "BMO CAD Credit Card"; L "BMO US Credit Card";
   L "TD CAD Credit Card"; L "TD CAD Checking"].

(** What a pattern of [_td_my] shows in a file name: the month that
    [strptime] reads in the first group and the text of the second group. *)
Definition td_anchor_in (fn : str) (pat : re) : option (Z * str) :=
  match re_search pat fn with
  | Some m =>
    match strptime_b (firstn 3 (group m 1)) with
    | Some (mo, _) => Some (mo, group m 2)
    | None => None
    end
  | None => None
  end.

(** A hint that holds one of the keywords of the table, in any letter
    case. *)
Definition keyword_in (hint : str) : bool :=
  existsb (fun kv : str * str => Text.contains (fst kv) (Text.lower hint)) KEYWORD_MAP.

(** A hint that [detect_account] gets past: no hint, an empty one, or one
    that holds a keyword. *)
Definition readable_hint (hint : option str) : bool :=
  match hint with
  | None | Some [] => true
  | Some h => keyword_in h
  end.

(** The two objects that [main] prints once the file is found, with the
    exit status that goes with each. *)
Definition success_result (account : option str) (filename : str) (rows : list Row)
  : json * Z :=
  ([(L "account", json_account account);
    (L "filename", JStr filename);
    (L "transactions", JRows rows);
    (L "count", JInt (Z.of_nat (length rows)));
    (L "error", JNull)], 0%Z).

Definition error_result (filename : str) (e : exn) : json * Z :=
  ([(L "account", JNull);
    (L "filename", JStr filename);
    (L "transactions", JRows []);
    (L "count", JInt 0);
    (L "error", JStr (message e));
    (L "traceback", JTraceback e)], 1%Z).

(** The checking table of [td_without_text] under the name of a BMO
    statement, a document without transactions, and one without pages. *)
Definition bmo_named_without_text : world :=
  one_file "/in/BMO CAD January 5, 2024.pdf"
           (Pdf [Page (Raise (Exn (L "no text layer"))) (fun _ => Ok checking_table)]).

Definition blank_statement : world :=
  one_file "/in/statement.pdf" (Pdf [text_page "Thank you for banking with us"]).

Definition pageless_statement : world :=
  one_file "/in/statement.pdf" (Pdf []).

(** The rows that one line of a BMO page gives: one or none. *)
Definition bmo_rows_of_line (fmt : bmo_format) (sm sy : Z) (line : str) : list Row :=
  match bmo_line fmt sm sy line with
  | Ok (Some row) => [row]
  | _ => []
  end.

(** The text of a page as [parse_bmo] reads it, for a page whose text can
    be extracted. *)
Definition page_text (pg : page) : str :=
  match extract_text pg with
  | Ok t => or_empty t
  | Raise _ => []
  end.

(** A page whose text can be extracted. *)
Definition has_text (pg : page) : Prop := exists t, extract_text pg = Ok t.

(** The order in which [_td_lines] reads words: by the top, and by the
    horizontal start among words of one top. *)
Definition reading_order (a b : word) : Prop :=
  (top a < top b \/ (top a == top b /\ x0 a <= x0 b))%Q.

(** A line of [_td_lines]: a first word, and words whose tops lie within the
    tolerance of the top of the first. *)
Definition line_within (yt : Q) (line : list word) : Prop :=
  match line with
  | [] => False
  | w0 :: more => Forall (fun w => Qabs (top w - top w0) <= yt)%Q more
  end.

(** An entry of [raw] after more lines were read: the same date and
    amount, and a description that starts with the earlier one. *)
Definition entry_grows (t t' : RawRow) : Prop :=
  DateRaw t' = DateRaw t /\ RawAmount t' = RawAmount t /\
  exists more, RawDescription t' = RawDescription t ++ more.

(** The list [raw] after more lines were read: the earlier entries, each in
    its place and grown, and then the new ones. *)
Definition entries_grow (raw raw' : list RawRow) : Prop :=
  exists kept added, raw' = kept ++ added /\ Forall2 entry_grows raw kept.

(** A line that ends the table of a page. *)
Definition total_line : cc_fields := CcFields (L "TOTAL NEW BALANCE") [] (L "$12.34").

(** A run of blanks made one blank, read off the text directly: [skipping]
    tells that the blank of the current run is already out. *)
Fixpoint collapse_go (skipping : bool) (s : str) : str :=
  match s with
  | [] => []
  | x :: xs =>
    if Text.is_space x
    then if skipping then collapse_go true xs else " "%char :: collapse_go true xs
    else x :: collapse_go false xs
  end.

(** A text that is its own words joined by single blanks. *)
Definition normalized (d : str) : Prop := Text.join (L " ") (Text.split d) = d.

(** A word: not empty and without a blank. *)
Definition is_word_text (w : str) : Prop :=
  w <> [] /\ forallb (fun c => negb (Text.is_space c)) w = true.

(** The start of a credit-card page: the header, a line that goes on with the
    description of the entry before, and a payment. *)
Definition visa_page : page :=
  Page (Ok None)
       (fun _ => Ok [ table_word "ACTIVITY" 150 100; table_word "AMOUNT($)" 450 100;
                      table_word "TORONTO" 150 120; table_word "ON" 200 120;
                      table_word "JAN" 20 140; table_word "2" 40 140;
                      table_word "PAYMENT" 150 140; table_word "-$100.00" 450 140 ]).

(** A pattern without capture groups. *)
Fixpoint groupless (r : re) : bool :=
  match r with
  | Seq r1 r2 | Alt r1 r2 => groupless r1 && groupless r2
  | Rep _ _ _ r' => groupless r'
  | Grp _ _ => false
  | _ => true
  end.

(** A matcher that consumes a text of [r] and hands the groups on as it
    found them. *)
Definition keeps_caps (r : re) (f : K -> K) : Prop :=
  forall k c g a,
    f k c g = Some a ->
    exists u c',
      rest c = u ++ rest c' /\ pos c' = pos c + length u /\
      Matches r u /\ k c' g = Some a.

(** A page whose words can be extracted, with either tolerance. *)
Definition has_words (pg : page) : Prop :=
  forall xt, exists ws, extract_words pg xt = Ok ws.

(** A TD statement whose name carries the statement date. *)
Definition td_dated : world :=
  one_file "/in/TD_Checking_Dec_31_2023.pdf"
           (Pdf [Page (Ok None) (fun _ => Ok checking_table)]).

(** A blank put between every [x] of the class [p] and a following [y] of
    the class [q], from left to right, a character taking part in one pair
    at most: what [re.sub(r'(p)(q)', r'\1 \2', s)] does to the text. *)
Fixpoint spread (p q : ascii -> bool) (s : str) : str :=
  match s with
  | [] => []
  | x :: xs =>
    match xs with
    | y :: ys =>
      if p x && q y then x :: " "%char :: y :: spread p q ys else x :: spread p q xs
    | [] => [x]
    end
  end.

(** The characters of a text other than blanks, in their order. *)
Definition inked (s : str) : str := filter (fun c => negb (Text.is_space c)) s.

(** The rows that one page of a checking statement gives. *)
Definition chk_page_rows (sm sy : Z) (pg : page) : list Row :=
  match chk_page sm sy [] pg with
  | Ok rows => rows
  | Raise _ => []
  end.

(** A line of a legacy BMO statement whose description ends in a reference
    number. *)
Definition amazon_line : str := L "Jan.5 Jan.6 AmazonCA 123456789 45.67".

(** * Properties *)

Unset Implicit Arguments.

(** ** The matcher consumes what the pattern describes *)

Module ReFacts.
Import Re.

Lemma orelse_some {A} (x : option A) (y : unit -> option A) (a : A) :
  orelse x y = Some a -> x = Some a \/ y tt = Some a.
Proof.
  destruct x; simpl; intros H; [left | right]; assumption.
Qed.

Lemma rep_sound r body :
  sound r body ->
  forall fuel gr lo hi, sound (Rep gr lo hi r) (fun k => rep body gr lo hi fuel k).
Proof.
  intros Hbody fuel.
  induction fuel as [| fuel IH]; intros gr lo hi k c g a H.
  - discriminate H.
  - simpl in H.
    assert (Hcase :
      (if Nat.eqb lo 0 then k c g else None) = Some a \/
      (if hi_open hi
       then body (fun c' g' =>
                    if length (rest c') <? length (rest c)
                    then rep body gr (Nat.pred lo) (hi_pred hi) fuel k c' g'
                    else None) c g
       else None) = Some a).
    { destruct gr; apply orelse_some in H; tauto. }
    clear H. destruct Hcase as [H | H].
    + destruct (Nat.eqb lo 0) eqn:Hlo; [| discriminate H].
      apply Nat.eqb_eq in Hlo. subst lo.
      exists [], c, g. simpl. repeat split; auto using MRepStop.
    + destruct (hi_open hi) eqn:Hhi; [| discriminate H].
      apply Hbody in H.
      destruct H as (u1 & c1 & g1 & Hrest1 & Hpos1 & Hm1 & Hk1).
      destruct (length (rest c1) <? length (rest c)); [| discriminate Hk1].
      apply IH in Hk1.
      destruct Hk1 as (u2 & c2 & g2 & Hrest2 & Hpos2 & Hm2 & Hk2).
      exists (u1 ++ u2), c2, g2. repeat split.
      * rewrite Hrest1, Hrest2. apply app_assoc.
      * rewrite Hpos2, Hpos1, length_app. lia.
      * apply MRepMore; assumption.
      * assumption.
Qed.

Theorem run_sound r : sound r (run r).
Proof.
  induction r as [| p | r1 IH1 r2 IH2 | r1 IH1 r2 IH2 | gr lo hi r IH | n r IH | | |];
    intros k c g a H; simpl in H.
  - exists [], c, g. simpl. repeat split; auto using MEps.
  - destruct c as [ps pv [| x xs]]; simpl in H; [discriminate H |].
    destruct (p x) eqn:Hp; [| discriminate H].
    exists [x], (Cur (S ps) (Some x) xs), g. simpl.
    repeat split; auto using MChr. lia.
  - apply IH1 in H. destruct H as (u1 & c1 & g1 & Hr1 & Hp1 & Hm1 & H).
    apply IH2 in H. destruct H as (u2 & c2 & g2 & Hr2 & Hp2 & Hm2 & H).
    exists (u1 ++ u2), c2, g2. repeat split.
    + rewrite Hr1, Hr2. apply app_assoc.
    + rewrite Hp2, Hp1, length_app. lia.
    + apply MSeq; assumption.
    + assumption.
  - apply orelse_some in H. destruct H as [H | H].
    + apply IH1 in H. destruct H as (u & c' & g' & ? & ? & ? & ?).
      exists u, c', g'. auto using MAltL.
    + apply IH2 in H. destruct H as (u & c' & g' & ? & ? & ? & ?).
      exists u, c', g'. auto using MAltR.
  - exact (rep_sound r (run r) IH (S (length (rest c))) gr lo hi k c g a H).
  - apply IH in H. destruct H as (u & c' & g' & ? & ? & ? & ?).
    exists u, c', ((n, (pos c, pos c')) :: g'). auto using MGrp.
  - destruct (Nat.eqb (pos c) 0); [| discriminate H].
    exists [], c, g. simpl. repeat split; auto using MBol.
  - exists [], c, g. simpl. repeat split; auto using MEol.
    destruct (rest c) as [| x [| y l]]; try assumption; try discriminate H.
    destruct (Ascii.eqb x "010"); [assumption | discriminate H].
  - destruct (xorb _ _); [| discriminate H].
    exists [], c, g. simpl. repeat split; auto using MWordB.
Qed.

(** *** The fuel of a repetition never runs out

    The matcher treats continuations extensionally, and a loop started with
    more fuel than there are characters left gives the same answer with any
    larger fuel. *)

Lemma rep_ext body :
  extensional body ->
  forall fuel gr lo hi, extensional (fun k => rep body gr lo hi fuel k).
Proof.
  intros Hbody fuel.
  induction fuel as [| fuel IH]; intros gr lo hi k1 k2 Hk c g; [reflexivity |].
  cbn [rep].
  assert (Hmore :
    body (fun c' g' => if length (rest c') <? length (rest c)
                       then rep body gr (Nat.pred lo) (hi_pred hi) fuel k1 c' g'
                       else None) c g =
    body (fun c' g' => if length (rest c') <? length (rest c)
                       then rep body gr (Nat.pred lo) (hi_pred hi) fuel k2 c' g'
                       else None) c g).
  { apply Hbody. intros c' g'.
    destruct (length (rest c') <? length (rest c)); [| reflexivity].
    apply IH. exact Hk. }
  rewrite Hmore, (Hk c g). reflexivity.
Qed.

Lemma run_ext r : extensional (run r).
Proof.
  induction r as [| p | r1 IH1 r2 IH2 | r1 IH1 r2 IH2 | gr lo hi r IH | n r IH | | |];
    intros k1 k2 Hk c g; cbn [run]; rewrite ?Hk; try reflexivity.
  - destruct (rest c) as [| x xs]; [reflexivity |]. rewrite Hk. reflexivity.
  - apply IH1. intros c' g'. apply IH2. exact Hk.
  - rewrite (IH1 k1 k2 Hk), (IH2 k1 k2 Hk). reflexivity.
  - apply (rep_ext (run r) IH). exact Hk.
  - apply IH. intros c' g'. apply Hk.
Qed.

Theorem rep_fuel_enough body :
  extensional body ->
  forall fuel1 fuel2 gr lo hi k c g,
    length (rest c) < fuel1 -> length (rest c) < fuel2 ->
    rep body gr lo hi fuel1 k c g = rep body gr lo hi fuel2 k c g.
Proof.
  intros Hbody fuel1.
  induction fuel1 as [| fuel1 IH]; intros fuel2 gr lo hi k c g H1 H2; [lia |].
  destruct fuel2 as [| fuel2]; [lia |].
  cbn [rep].
  assert (Hmore :
    body (fun c' g' => if length (rest c') <? length (rest c)
                       then rep body gr (Nat.pred lo) (hi_pred hi) fuel1 k c' g'
                       else None) c g =
    body (fun c' g' => if length (rest c') <? length (rest c)
                       then rep body gr (Nat.pred lo) (hi_pred hi) fuel2 k c' g'
                       else None) c g).
  { apply Hbody. intros c' g'.
    destruct (Nat.ltb_spec (length (rest c')) (length (rest c))); [| reflexivity].
    apply IH; lia. }
  rewrite Hmore. reflexivity.
Qed.

(** A group just run holds the text its pattern consumed. *)
Lemma run_group n r k c g a :
  run (Grp n r) k c g = Some a ->
  exists u c' g',
    rest c = u ++ rest c' /\ pos c' = pos c + length u /\
    Matches r u /\ k c' ((n, (pos c, pos c')) :: g') = Some a.
Proof.
  simpl. intros H. apply run_sound in H. exact H.
Qed.

Lemma at_pos_start s : at_pos s (start_cursor s).
Proof. reflexivity. Qed.

Lemma at_pos_step s c c' u :
  at_pos s c -> rest c = u ++ rest c' -> pos c' = pos c + length u ->
  at_pos s c' /\ slice s (pos c, pos c') = u.
Proof.
  unfold at_pos, slice. simpl. intros Hc Hr Hp. split.
  - rewrite Hp, Nat.add_comm, <- skipn_skipn, <- Hc, Hr.
    rewrite skipn_app, skipn_all, Nat.sub_diag. reflexivity.
  - rewrite Hp, <- Hc, Hr.
    replace (pos c + length u - pos c) with (length u) by lia.
    rewrite firstn_app, firstn_all, Nat.sub_diag. simpl. apply app_nil_r.
Qed.

(** [re.search] answers from a cursor of the subject. *)
Lemma search_from_inv r s fuel c m :
  at_pos s c ->
  search_from r s fuel c = Some m ->
  exists c0 c' g,
    at_pos s c0 /\ run r accept c0 [] = Some (c', g) /\
    m = Match s (pos c0) (pos c') g.
Proof.
  revert c. induction fuel as [| fuel IH]; intros c Hc H; simpl in H.
  - destruct (run r accept c []) as [[c' g] |] eqn:Hrun.
    + inversion H; subst. exists c, c', g. auto.
    + discriminate H.
  - destruct (run r accept c []) as [[c' g] |] eqn:Hrun.
    + inversion H; subst. exists c, c', g. auto.
    + destruct (rest c) as [| x xs] eqn:Hrest; [discriminate H |].
      apply IH in H; [exact H |].
      apply (at_pos_step s c _ [x]); simpl; auto. lia.
Qed.

(** *** Reading a pattern back from the texts it consumes *)

Lemma matches_chr p u :
  Matches (Chr p) u -> exists x, u = [x] /\ p x = true.
Proof. intros H. inversion H; subst. eauto. Qed.

Lemma matches_seq r1 r2 u :
  Matches (Seq r1 r2) u ->
  exists u1 u2, u = u1 ++ u2 /\ Matches r1 u1 /\ Matches r2 u2.
Proof. intros H. inversion H; subst. eauto. Qed.

Lemma matches_alt r1 r2 u :
  Matches (Alt r1 r2) u -> Matches r1 u \/ Matches r2 u.
Proof. intros H. inversion H; subst; auto. Qed.

Lemma matches_closed gr lo r u :
  Matches (Rep gr lo (Some 0) r) u -> u = [].
Proof.
  intros H. inversion H; subst; [reflexivity | discriminate].
Qed.

(** An optional part is absent or present once. *)
Lemma matches_opt gr r u :
  Matches (Rep gr 0 (Some 1) r) u -> u = [] \/ Matches r u.
Proof.
  intros H. inversion H; subst; [left; reflexivity | right].
  simpl in *. apply matches_closed in H7. subst. rewrite app_nil_r. assumption.
Qed.

(** A repeated class consumes characters of the class, as many as the
    bounds allow. *)
Lemma matches_rep_chr gr lo hi p u :
  Matches (Rep gr lo hi (Chr p)) u ->
  forallb p u = true /\ lo <= length u /\
  match hi with
  | Some h => length u <= h
  | None => True
  end.
Proof.
  intros H. remember (Rep gr lo hi (Chr p)) as r eqn:Hr.
  revert lo hi Hr.
  induction H; intros lo' hi' Hr; inversion Hr; subst.
  - simpl. repeat split; [lia | destruct hi'; [lia | exact I]].
  - apply matches_chr in H0. destruct H0 as (x & -> & Hx).
    destruct (IHMatches2 (Nat.pred lo') (hi_pred hi') eq_refl) as (Hall & Hlo & Hhi).
    simpl. rewrite Hx, Hall. repeat split; [lia |].
    destruct hi' as [[| h] |]; simpl in *; try discriminate; try exact I. lia.
Qed.

End ReFacts.

(** ** The orchestrator *)

Local Open Scope Z_scope.




(** C10: with no account resolved, when the BMO parser raises and the TD
    parser returns, the result carries the TD transactions and a null
    account; the default "TD CAD Checking" belongs to the path where the BMO
    parser returned no transaction. *)
Theorem bmo_failure_keeps_account_null (w : world) (prog path : str) (more : list str)
    (r : result pdf) (e : exn) (txs : list Row) :
  fs w path = Some r ->
  detect_account path (hd_error more) = Ok None ->
  parse_td w path = Ok txs ->
  (parse_bmo w path = Raise e ->
   main w (prog :: path :: more)
   = ([(L "account", JNull);
       (L "filename", JStr (path_name path));
       (L "transactions", JRows txs);
       (L "count", JInt (Z.of_nat (length txs)));
       (L "error", JNull)], 0)) /\
  (parse_bmo w path = Ok [] -> txs <> [] ->
   field (L "account") (fst (main w (prog :: path :: more)))
   = Some (JStr (L "TD CAD Checking"))).
Proof.
  intros Hfs Hacc Htd. unfold main. rewrite Hfs, Hacc. cbn [bind]. simpl has. cbv iota.
  unfold parse_unknown. split.
  - intros Hbmo. rewrite Hbmo. simpl. rewrite Htd. reflexivity.
  - intros Hbmo Hne. rewrite Hbmo. simpl. rewrite Htd. simpl.
    destruct txs as [| t txs]; [contradiction Hne; reflexivity |]. reflexivity.
Qed.

Lemma bmo_failure_keeps_account_null_witness :
  exists txs,
    txs <> [] /\
    parse_bmo td_without_text (L "/in/statement.pdf") = Raise (Exn (L "no text layer")) /\
    main td_without_text [program; L "/in/statement.pdf"]
    = ([(L "account", JNull);
        (L "filename", JStr (L "statement.pdf"));
        (L "transactions", JRows txs);
        (L "count", JInt (Z.of_nat (length txs)));
        (L "error", JNull)], 0).
Proof.
  exists [MkRow (L "2024-01-15") (L "GROCERY") (Qmake (-5000) 100)].
  split; [discriminate |]. split; [vm_compute; reflexivity |].
  apply (bmo_failure_keeps_account_null td_without_text program (L "/in/statement.pdf") []
           (Ok (Pdf [Page (Raise (Exn (L "no text layer"))) (fun _ => Ok checking_table)]))
           (Exn (L "no text layer"))).
  - reflexivity.
  - vm_compute. reflexivity.
  - vm_compute. reflexivity.
  - vm_compute. reflexivity.
Defined.

(** C1 at a BMO statement with a line "Jan 5 Jan 6 ANNUAL FEE WAIVED 0.00":
    the line is returned as a transaction whose amount is zero (and [count]
    is the length of the list). *)
Theorem bmo_keeps_zero_amount_line :
  exists row,
    field (L "transactions")
          (fst (main bmo_zero_fee [program; L "/in/BMO CAD January 5, 2024.pdf"]))
    = Some (JRows [row]) /\
    field (L "count")
          (fst (main bmo_zero_fee [program; L "/in/BMO CAD January 5, 2024.pdf"]))
    = Some (JInt 1) /\
    Description row = L "ANNUAL FEE WAIVED" /\
    (Amount row == 0)%Q.
Proof.
  exists (MkRow (L "2024-01-05") (L "ANNUAL FEE WAIVED") (Qopp (Qmake 0 100))).
  repeat split; vm_compute; reflexivity.
Qed.

(** ** Account detection *)

(** C7, as the code has it: a hint that contains "td checking" (in any case,
    anywhere) and none of the keywords that the table lists before it
    resolves to "TD CAD Checking", whatever the file name is. *)
Theorem td_checking_hint_resolves (filepath hint : str) :
  Text.contains (L "td checking") (Text.lower hint) = true ->
  Text.contains (L "bmo cad") (Text.lower hint) = false ->
  Text.contains (L "bmo usd") (Text.lower hint) = false ->
  Text.contains (L "bmo us") (Text.lower hint) = false ->
  Text.contains (L "td cc") (Text.lower hint) = false ->
  Text.contains (L "td credit") (Text.lower hint) = false ->
  detect_account filepath (Some hint) = Ok (Some (L "TD CAD Checking")).
Proof.
  intros Htd H1 H2 H3 H4 H5.
  unfold detect_account, by_hint.
  destruct hint as [| x hint]; [discriminate Htd |].
  unfold KEYWORD_MAP. cbn [first_some fst snd].
  rewrite H1, H2, H3, H4, H5, Htd. reflexivity.
Qed.

Lemma td_checking_hint_resolves_witness :
  detect_account (L "/in/BMO_CAD_Statement_January 5, 2024.pdf")
                 (Some (L "my TD Checking account"))
  = Ok (Some (L "TD CAD Checking")).
Proof.
  apply (td_checking_hint_resolves
           (L "/in/BMO_CAD_Statement_January 5, 2024.pdf")
           (L "my TD Checking account")); reflexivity.
Defined.

(** C7 as stated fails: the keywords are tried in the order of the table,
    so a hint that also contains "bmo cad" resolves to the BMO account. *)
Lemma td_checking_hint_after_bmo_cad :
  Text.contains (L "td checking") (Text.lower (L "BMO CAD, not TD Checking")) = true /\
  detect_account (L "/in/statement.pdf") (Some (L "BMO CAD, not TD Checking"))
  = Ok (Some (L "BMO CAD Credit Card")) /\
  detect_account (L "/in/statement.pdf") (Some (L "BMO CAD, not TD Checking"))
  <> Ok (Some (L "TD CAD Checking")).
Proof.
  repeat split; try (vm_compute; reflexivity).
  vm_compute. discriminate.
Qed.

(** ** Dates *)

Lemma bmo_date_reads tok sm sy :
  _bmo_date tok sm sy =
  match bmo_reads tok with
  | Some (mo, d) => iso_date (roll_year mo sm sy) mo d
  | None => tok
  end.
Proof.
  unfold _bmo_date, bmo_reads.
  destruct (re_match bmo_token_shape _); reflexivity.
Qed.

Lemma td_date_reads raw sm sy :
  _td_date raw sm sy =
  match td_reads raw with
  | Some (mo, d) => iso_date (roll_year mo sm sy) mo d
  | None => raw
  end.
Proof. reflexivity. Qed.





(** *** The form of a resolved date *)

Lemma four_digit_years yr :
  1000 <= yr <= 9999 -> digits_n 4 (Text.of_Z yr) = true.
Proof.
  intros Hyr.
  assert (Hall : forallb (fun n => digits_n 4 (Text.of_Z (1000 + Z.of_nat n)))
                         (List.seq 0 (Z.to_nat 9000)) = true) by (vm_compute; reflexivity).
  rewrite forallb_forall in Hall.
  replace yr with (1000 + Z.of_nat (Z.to_nat (yr - 1000))) by lia.
  apply Hall. apply in_seq. lia.
Qed.

Lemma two_digit_fields n :
  0 <= n <= 99 -> digits_n 2 (Text.pad2 n) = true.
Proof.
  intros Hn.
  assert (Hall : forallb (fun k => digits_n 2 (Text.pad2 (Z.of_nat k)))
                         (List.seq 0 100) = true) by (vm_compute; reflexivity).
  rewrite forallb_forall in Hall.
  replace n with (Z.of_nat (Z.to_nat n)) by lia.
  apply Hall. apply in_seq. lia.
Qed.

Lemma iso_shape_parts y m d :
  digits_n 4 y = true -> digits_n 2 m = true -> digits_n 2 d = true ->
  iso_shape (y ++ L "-" ++ m ++ L "-" ++ d) = true.
Proof.
  unfold digits_n. intros Hy Hm Hd.
  apply andb_prop in Hy, Hm, Hd.
  destruct Hy as [Ly Dy], Hm as [Lm Dm], Hd as [Ld Dd].
  apply Nat.eqb_eq in Ly, Lm, Ld.
  destruct y as [| y1 [| y2 [| y3 [| y4 [| ? ?]]]]]; try discriminate Ly.
  destruct m as [| m1 [| m2 [| ? ?]]]; try discriminate Lm.
  destruct d as [| d1 [| d2 [| ? ?]]]; try discriminate Ld.
  simpl in *.
  repeat match goal with
         | H : _ && _ = true |- _ => apply andb_prop in H; destruct H
         end.
  repeat match goal with
         | H : Text.is_digit _ = true |- _ => rewrite H; clear H
         end.
  reflexivity.
Qed.

Lemma iso_date_shape yr mo d :
  1000 <= yr <= 9999 -> 0 <= mo <= 99 -> 0 <= d <= 99 ->
  iso_shape (iso_date yr mo d) = true.
Proof.
  intros Hyr Hmo Hd. unfold iso_date.
  apply iso_shape_parts;
    auto using four_digit_years, two_digit_fields.
Qed.

Lemma digit_val_range c : Text.is_digit c = true -> 0 <= Text.digit_val c <= 9.
Proof.
  unfold Text.is_digit, Text.between, Text.digit_val.
  intros H. apply andb_prop in H. destruct H as [H1 H2].
  apply N.leb_le in H1, H2. lia.
Qed.

Lemma digits_val_from acc s :
  forallb Text.is_digit s = true -> 0 <= acc ->
  0 <= fold_left (fun a c => 10 * a + Text.digit_val c) s acc.
Proof.
  revert acc. induction s as [| c s IH]; intros acc Hs Hacc; cbn [fold_left forallb] in *.
  - assumption.
  - apply andb_prop in Hs. destruct Hs as [Hc Hs].
    apply IH; [assumption |].
    pose proof (digit_val_range c Hc). lia.
Qed.

Lemma int_of_nonneg s z : Text.int_of s = Some z -> 0 <= z.
Proof.
  unfold Text.int_of. destruct (Text.strip s) as [| c t]; [discriminate |].
  destruct (forallb Text.is_digit (c :: t)) eqn:Hd; [| discriminate].
  intros H. inversion H; subst. apply digits_val_from; [assumption | lia].
Qed.

Lemma index_of_range x l i j :
  index_of x l i = Some j -> i <= j < i + Z.of_nat (length l).
Proof.
  revert i. induction l as [| y l IH]; intros i H; simpl in H.
  - discriminate H.
  - destruct (Text.eqb x (L y)).
    + inversion H; subst. simpl length. lia.
    + apply IH in H. simpl length. lia.
Qed.

Lemma days_in_month_1900_le mo : days_in_month_1900 mo <= 31.
Proof.
  unfold days_in_month_1900.
  destruct mo as [| p | p]; try lia.
  repeat (destruct p as [p | p |]; try lia).
Qed.

(** What [strptime] returns is a month of the year and a day of a month. *)
Lemma strptime_range fmt has_day s mo d :
  strptime_with fmt has_day s = Some (mo, d) -> 1 <= mo <= 12 /\ 0 <= d <= 31.
Proof.
  unfold strptime_with.
  destruct (re_match fmt s) as [m |]; [| discriminate].
  destruct (negb _); [discriminate |].
  destruct (index_of _ month_names 1) as [mo' |] eqn:Hmo; [| discriminate].
  apply index_of_range in Hmo. simpl length in Hmo.
  destruct has_day.
  - destruct (Text.int_of _) as [d' |] eqn:Hd; [| discriminate].
    destruct (Z.leb_spec d' (days_in_month_1900 mo')) as [Hle | Hgt]; [| discriminate].
    intros Heq. inversion Heq; subst.
    apply int_of_nonneg in Hd. pose proof (days_in_month_1900_le mo). lia.
  - intros Heq. inversion Heq; subst. lia.
Qed.

Lemma roll_year_near mo sm sy : sy - 1 <= roll_year mo sm sy <= sy + 1.
Proof.
  unfold roll_year.
  destruct (_ && _); [lia |]. destruct (_ && _); lia.
Qed.

(** C9, as the code has it: with a statement year between 1001 and 9998, a
    resolved date has the form YYYY-MM-DD whenever the resolver reads a month
    and a day in the token; a token in which it reads none is returned as it
    stands.  For the BMO resolver and for the TD one. *)
Theorem resolved_date_iso_or_raw (tok : str) (sm sy : Z) :
  1000 < sy < 9999 ->
  (forall mo d, bmo_reads tok = Some (mo, d) -> iso_shape (_bmo_date tok sm sy) = true) /\
  (bmo_reads tok = None -> _bmo_date tok sm sy = tok) /\
  (forall mo d, td_reads tok = Some (mo, d) -> iso_shape (_td_date tok sm sy) = true) /\
  (td_reads tok = None -> _td_date tok sm sy = tok).
Proof.
  intros Hsy.
  assert (Hshape : forall fmt s mo d,
             strptime_with fmt true s = Some (mo, d) ->
             iso_shape (iso_date (roll_year mo sm sy) mo d) = true).
  { intros fmt s mo d H. apply strptime_range in H.
    pose proof (roll_year_near mo sm sy).
    apply iso_date_shape; lia. }
  refine (conj _ (conj _ (conj _ _))).
  - intros mo d H. rewrite bmo_date_reads, H.
    unfold bmo_reads in H.
    destruct (re_match bmo_token_shape _); [| discriminate H].
    exact (Hshape _ _ _ _ H).
  - intros H. rewrite bmo_date_reads, H. reflexivity.
  - intros mo d H. rewrite td_date_reads, H. exact (Hshape _ _ _ _ H).
  - intros H. rewrite td_date_reads, H. reflexivity.
Qed.

Lemma resolved_date_iso_or_raw_witness :
  iso_shape (_bmo_date (L "Jan. 5") 1 2024) = true /\
  _bmo_date (L "Box 12") 1 2024 = L "Box 12" /\
  iso_shape (_td_date (L "JAN15") 1 2024) = true /\
  _td_date (L "FEB30") 1 2024 = L "FEB30".
Proof.
  assert (H2024 : 1000 < 2024 < 9999) by lia.
  refine (conj _ (conj _ (conj _ _))).
  - destruct (resolved_date_iso_or_raw (L "Jan. 5") 1 2024 H2024) as (Hiso & _).
    apply (Hiso 1 5). reflexivity.
  - destruct (resolved_date_iso_or_raw (L "Box 12") 1 2024 H2024) as (_ & Hraw & _).
    apply Hraw. reflexivity.
  - destruct (resolved_date_iso_or_raw (L "JAN15") 1 2024 H2024) as (_ & _ & Hiso & _).
    apply (Hiso 1 15). reflexivity.
  - destruct (resolved_date_iso_or_raw (L "FEB30") 1 2024 H2024) as (_ & _ & _ & Hraw).
    apply Hraw. reflexivity.
Defined.

(** C9 as stated fails: a line that begins with two three-letter words and
    numbers is taken for a transaction, and its date field is the first of
    them as it stands. *)
Lemma date_of_box_line_is_raw :
  exists row,
    field (L "transactions")
          (fst (main bmo_box_line [program; L "/in/BMO CAD January 5, 2024.pdf"]))
    = Some (JRows [row]) /\
    Date row = L "Box 12" /\
    iso_shape (Date row) = false.
Proof.
  exists (MkRow (L "Box 12") (L "RENT") (Qopp (Qmake 1000 100))).
  refine (conj _ (conj _ _)); vm_compute; reflexivity.
Qed.

(** ** BMO lines *)

(** C3, as the code has it: the line gives the description
    "AMAZON.CAPURCHASE 123456789" (a blank goes in where a letter meets a
    digit; the case is kept, and the reference, not being a word of its own,
    stays), the amount -45.67, and the date of January 5. *)
Theorem legacy_amazon_line (sm sy : Z) :
  bmo_line legacy sm sy (L "Jan.5 Jan.6 AMAZON.CAPURCHASE123456789 45.67")
  = Ok (Some (MkRow (iso_date (roll_year 1 sm sy) 1 5)
                    (L "AMAZON.CAPURCHASE 123456789")
                    (Qopp (Qmake 4567 100)))).
Proof.
  vm_compute. reflexivity.
Qed.

(** C3 as stated fails: the description of the line is not
    "Amazon.ca Purchase". *)
Lemma legacy_amazon_line_description :
  ~ exists row,
      bmo_line legacy 1 2024 (L "Jan.5 Jan.6 AMAZON.CAPURCHASE123456789 45.67")
      = Ok (Some row) /\
      Description row = L "Amazon.ca Purchase".
Proof.
  intros (row & Hrow & Hdesc).
  vm_compute in Hrow.
  inversion Hrow; subst. vm_compute in Hdesc. discriminate Hdesc.
Qed.

(** ** Numerals and amounts *)

Module TextFacts.
Import Text.

Local Open Scope nat_scope.

(** Decide a fact about one character by running through all of them. *)
Ltac each_char c :=
  destruct c as [[] [] [] [] [] [] [] []]; vm_compute;
  repeat split; intros; try discriminate; try reflexivity; auto.

Lemma lstrip_by_stop p x s : p x = false -> lstrip_by p (x :: s) = x :: s.
Proof. intros H. simpl. rewrite H. reflexivity. Qed.

Lemma rstrip_by_keep p s y : p y = false -> rstrip_by p (s ++ [y]) = s ++ [y].
Proof.
  intros H. unfold rstrip_by. rewrite rev_app_distr. simpl. rewrite H.
  simpl. rewrite rev_involutive. reflexivity.
Qed.

Lemma rstrip_by_drop p s w : p w = true -> rstrip_by p (s ++ [w]) = rstrip_by p s.
Proof.
  intros H. unfold rstrip_by. rewrite rev_app_distr. simpl. rewrite H. reflexivity.
Qed.

Lemma strip_solid s : solid s -> strip s = s.
Proof.
  intros (x & t & y & Hx & Hy & [-> | ->]); unfold strip.
  - rewrite lstrip_by_stop by assumption.
    apply (rstrip_by_keep _ [] x Hx).
  - rewrite lstrip_by_stop by assumption.
    apply (rstrip_by_keep _ (x :: t) y Hy).
Qed.

Lemma solid_ends x s y :
  is_space x = false -> is_space y = false -> solid (x :: s ++ [y]).
Proof. intros Hx Hy. exists x, s, y. auto. Qed.

Lemma replace_char_filter c s :
  replace [c] [] s = filter (fun x => negb (Ascii.eqb x c)) s.
Proof.
  unfold replace. induction s as [| x s IH]; [reflexivity |].
  cbn [replace_go startswith filter length Nat.sub].
  destruct s as [| y s']; destruct (Ascii.eqb x c); simpl in *; try reflexivity;
    rewrite ?IH; reflexivity.
Qed.

Lemma filter_all {A} (f : A -> bool) l : forallb f l = true -> filter f l = l.
Proof.
  induction l as [| x l IH]; simpl; [reflexivity |].
  intros H. apply andb_prop in H. destruct H as [Hx Hl].
  rewrite Hx, IH by assumption. reflexivity.
Qed.

Lemma replace_char_absent c s :
  forallb (fun x => negb (Ascii.eqb x c)) s = true -> replace [c] [] s = s.
Proof.
  intros H. rewrite replace_char_filter. apply filter_all. assumption.
Qed.

(** An occurrence cannot start inside a prefix that lacks the first
    character of what is looked for. *)
Lemma replace_past o old new P S :
  forallb (fun x => negb (Ascii.eqb x o)) P = true ->
  replace (o :: old) new (P ++ S) = P ++ replace (o :: old) new S.
Proof.
  unfold replace. induction P as [| x P IH]; [reflexivity |].
  intros H. cbn [forallb] in H. apply andb_prop in H. destruct H as [Hx HP].
  cbn [app replace_go startswith].
  apply negb_true_iff in Hx. rewrite Hx. cbn [andb].
  rewrite IH by assumption. reflexivity.
Qed.

Lemma contains_past o k P S :
  forallb (fun x => negb (Ascii.eqb x o)) P = true ->
  contains (o :: k) (P ++ S) = contains (o :: k) S.
Proof.
  induction P as [| x P IH]; [reflexivity |].
  intros H. cbn [forallb] in H. apply andb_prop in H. destruct H as [Hx HP].
  cbn [app contains startswith].
  apply negb_true_iff in Hx. rewrite Hx. cbn [andb orb].
  apply IH. assumption.
Qed.

Lemma upper_fixed s :
  forallb (fun x => Ascii.eqb (upper_c x) x) s = true -> upper s = s.
Proof.
  unfold upper. induction s as [| x s IH]; [reflexivity |].
  cbn [forallb map]. intros H. apply andb_prop in H. destruct H as [Hx Hs].
  apply Ascii.eqb_eq in Hx. rewrite Hx, IH by assumption. reflexivity.
Qed.

Lemma forallb_weaken {A} (f g : A -> bool) l :
  (forall x, f x = true -> g x = true) -> forallb f l = true -> forallb g l = true.
Proof.
  intros Hfg. induction l as [| x l IH]; simpl; [reflexivity |].
  intros H. apply andb_prop in H. destruct H as [Hx Hl].
  rewrite (Hfg x Hx), IH by assumption. reflexivity.
Qed.

Lemma span_by_stop p a x b :
  forallb p a = true -> p x = false -> span_by p (a ++ x :: b) = (a, x :: b).
Proof.
  intros Ha Hx. induction a as [| y a IH]; simpl in *.
  - rewrite Hx. reflexivity.
  - apply andb_prop in Ha. destruct Ha as [Hy Ha].
    rewrite Hy, IH by assumption. reflexivity.
Qed.

Lemma plain_props c :
  plain c = true ->
  Ascii.eqb (upper_c c) c = true /\ is_space c = false /\
  negb (Ascii.eqb c ",") = true /\ negb (Ascii.eqb c "$") = true /\
  negb (Ascii.eqb c "C") = true /\ Ascii.eqb c "R" = false.
Proof. each_char c. Qed.

Lemma digit_props c :
  is_digit c = true ->
  plain c = true /\ Ascii.eqb c "-" = false /\ Ascii.eqb c "+" = false /\
  Ascii.eqb c "." = false /\ Ascii.eqb c "R" = false.
Proof. each_char c. Qed.

Lemma space_props c :
  is_space c = true ->
  negb (Ascii.eqb c ",") = true /\ negb (Ascii.eqb c "$") = true /\
  upper_c c = c /\ Ascii.eqb c "C" = false /\ between 49 57 c = false.
Proof. each_char c. Qed.

(** A letter C or R in either case. *)
Lemma icase_letter_props (l c : ascii) :
  (l = "C" \/ l = "R")%char ->
  Re.icase (Re.is_char l) c = true ->
  upper_c c = l /\ is_space c = false /\
  negb (Ascii.eqb c ",") = true /\ negb (Ascii.eqb c "$") = true /\
  between 49 57 c = false.
Proof. intros [-> | ->]; each_char c. Qed.

Lemma digit_or_comma c :
  Re.union Re.digit (Re.is_char ",") c = true ->
  (is_digit c = true /\ Ascii.eqb c "," = false) \/ (c = "," /\ is_digit c = false)%char.
Proof. each_char c. Qed.

Lemma nonzero_is_digit c : between 49 57 c = true -> is_digit c = true.
Proof. each_char c. Qed.

Lemma plain_nonzero c : plain c = true -> is_digit c = false -> between 49 57 c = false.
Proof. each_char c. Qed.

End TextFacts.

Module AmountFacts.
Import Text TextFacts ReFacts.

Local Open Scope nat_scope.

Lemma unsigned_float_numeral a d1 d2 :
  forallb is_digit a = true -> is_digit d1 = true -> is_digit d2 = true ->
  unsigned_float (a ++ "."%char :: [d1; d2]) = Some (Qmake (hundredths a d1 d2) 100).
Proof.
  intros Ha H1 H2. unfold unsigned_float.
  rewrite span_by_stop by (auto; reflexivity).
  cbn [Ascii.eqb Bool.eqb forallb length]. rewrite H1, H2.
  destruct (length a + 2 =? 0) eqn:Hlen; [apply Nat.eqb_eq in Hlen; lia |].
  reflexivity.
Qed.

Lemma numeral_solid sgn a d1 d2 :
  (sgn = [] \/ sgn = ["-"%char]) ->
  forallb is_digit a = true -> is_digit d2 = true ->
  exists x t, sgn ++ a ++ "."%char :: [d1; d2] = x :: t ++ [d2] /\ plain x = true.
Proof.
  intros Hs Ha H2.
  destruct Hs as [-> | ->].
  - destruct a as [| x a].
    + exists "."%char, [d1]. split; reflexivity.
    + exists x, (a ++ ["."%char; d1]). split.
      * simpl. rewrite <- app_assoc. reflexivity.
      * simpl in Ha. apply andb_prop in Ha. apply digit_props. tauto.
  - exists "-"%char, (a ++ ["."%char; d1]). split.
    + simpl. rewrite <- app_assoc. reflexivity.
    + reflexivity.
Qed.

Lemma py_float_numeral sgn a d1 d2 :
  (sgn = [] \/ sgn = ["-"%char]) ->
  forallb is_digit a = true -> is_digit d1 = true -> is_digit d2 = true ->
  py_float (sgn ++ a ++ "."%char :: [d1; d2])
  = Ok (signed sgn (Qmake (hundredths a d1 d2) 100)).
Proof.
  intros Hs Ha H1 H2. unfold py_float.
  rewrite strip_solid.
  2:{ destruct (numeral_solid sgn a d1 d2 Hs Ha H2) as (x & t & -> & Hx).
      apply solid_ends.
      - apply plain_props. assumption.
      - apply plain_props. apply digit_props. assumption. }
  destruct Hs as [-> | ->].
  - cbn [app signed].
    destruct a as [| x a].
    + pose proof (unsigned_float_numeral [] d1 d2 eq_refl H1 H2) as E.
      cbn [app] in E |- *. cbn [Ascii.eqb Bool.eqb]. rewrite E. reflexivity.
    + cbn [app]. cbn [forallb] in Ha. apply andb_prop in Ha. destruct Ha as [Hx Ha].
      destruct (digit_props x Hx) as (_ & -> & -> & _).
      change (x :: a ++ "."%char :: [d1; d2]) with ((x :: a) ++ "."%char :: [d1; d2]).
      rewrite unsigned_float_numeral; auto.
      cbn [forallb]. rewrite Hx, Ha. reflexivity.
  - cbn [app signed Ascii.eqb Bool.eqb].
    rewrite unsigned_float_numeral by auto. reflexivity.
Qed.

(** *** What the numeral patterns let through *)

Lemma matches_is_char x u : Re.Matches (Re.Chr (Re.is_char x)) u -> u = [x].
Proof.
  intros H. apply matches_chr in H. destruct H as (y & -> & Hy).
  unfold Re.is_char in Hy. apply Ascii.eqb_eq in Hy. subst. reflexivity.
Qed.

Lemma matches_two p u :
  Re.Matches (Re.times 2 2 (Re.Chr p)) u ->
  exists d1 d2, u = [d1; d2] /\ p d1 = true /\ p d2 = true.
Proof.
  intros H. apply matches_rep_chr in H. destruct H as (Hall & Hlo & Hhi).
  destruct u as [| d1 [| d2 [| d3 u]]]; simpl in Hlo, Hhi; try lia.
  simpl in Hall. apply andb_prop in Hall. destruct Hall as [H1 Hall].
  apply andb_prop in Hall. destruct Hall as [H2 _]. eauto.
Qed.

Lemma matches_plus p u :
  Re.Matches (Re.plus (Re.Chr p)) u -> u <> [] /\ forallb p u = true.
Proof.
  intros H. apply matches_rep_chr in H. destruct H as (Hall & Hlo & _).
  split; [| assumption]. intros ->. simpl in Hlo. lia.
Qed.

(** Digits and commas, with the commas taken out. *)
Lemma without_commas body :
  forallb (Re.union Re.digit (Re.is_char ",")) body = true ->
  forallb is_digit (replace [","%char] [] body) = true.
Proof.
  rewrite replace_char_filter.
  induction body as [| x body IH]; [reflexivity |].
  cbn [forallb filter]. intros H. apply andb_prop in H. destruct H as [Hx Hb].
  destruct (digit_or_comma x Hx) as [[Hd Hc] | [-> Hd]].
  - rewrite Hc. cbn [negb forallb]. rewrite Hd, IH by assumption. reflexivity.
  - cbn [Ascii.eqb Bool.eqb negb]. apply IH. assumption.
Qed.

Lemma replace_comma_app a b :
  replace [","%char] [] (a ++ b) = replace [","%char] [] a ++ replace [","%char] [] b.
Proof. rewrite !replace_char_filter. apply filter_app. Qed.

Lemma hundredths_nonneg a d1 d2 :
  forallb is_digit a = true -> is_digit d1 = true -> is_digit d2 = true ->
  (0 <= hundredths a d1 d2)%Z.
Proof.
  intros Ha H1 H2. unfold hundredths, digits_val.
  apply digits_val_from; [| lia].
  rewrite forallb_app, Ha. cbn [forallb]. rewrite H1, H2. reflexivity.
Qed.

(** *** The TD numeral *)

Lemma td_numeral_text u :
  Re.Matches (Re.seq [Re.plus (Re.Chr (Re.union Re.digit (Re.is_char ",")));
                      Re.lit "."; Re.times 2 2 (Re.Chr Re.digit)]) u ->
  exists body d1 d2,
    u = body ++ "."%char :: [d1; d2] /\
    forallb (Re.union Re.digit (Re.is_char ",")) body = true /\
    is_digit d1 = true /\ is_digit d2 = true.
Proof.
  cbv [Re.seq Re.lit map L list_ascii_of_string].
  intros H.
  apply matches_seq in H. destruct H as (body & u1 & -> & Hbody & H).
  apply matches_seq in H. destruct H as (pt & dd & -> & Hpt & Hdd).
  apply matches_plus in Hbody. destruct Hbody as [_ Hbody].
  apply matches_is_char in Hpt. subst pt.
  apply matches_two in Hdd. destruct Hdd as (d1 & d2 & -> & H1 & H2).
  exists body, d1, d2. auto.
Qed.

(** [_td_amt] always returns: zero when the text holds no numeral, and
    otherwise the value of the first numeral, a number of hundredths. *)
Lemma td_amt_total s :
  exists n, (0 <= n)%Z /\
    (_td_amt s = Ok 0%Q /\ n = 0%Z \/ _td_amt s = Ok (Qmake n 100)).
Proof.
  unfold _td_amt.
  destruct (Re.re_search td_numeral s) as [m |] eqn:Hsearch.
  2:{ exists 0%Z. split; [lia | left; auto]. }
  unfold Re.re_search in Hsearch.
  apply (search_from_inv _ _ _ _ _ (at_pos_start s)) in Hsearch.
  destruct Hsearch as (c0 & c' & g & Hc0 & Hrun & ->).
  unfold td_numeral in Hrun. apply run_group in Hrun.
  destruct Hrun as (u & c1 & g1 & Hrest & Hpos & Hm & Hacc).
  unfold Re.accept in Hacc. inversion Hacc; subst c' g. clear Hacc.
  destruct (at_pos_step s c0 c1 u Hc0 Hrest Hpos) as [_ Hslice].
  assert (Hgroup : Re.group (Re.Match s (Re.pos c0) (Re.pos c1)
                                      ((1, (Re.pos c0, Re.pos c1)) :: g1)) 1 = u).
  { exact Hslice. }
  rewrite Hgroup.
  apply td_numeral_text in Hm. destruct Hm as (body & d1 & d2 & -> & Hbody & H1 & H2).
  rewrite replace_comma_app.
  assert (Htail : replace [","%char] [] ("."%char :: [d1; d2]) = "."%char :: [d1; d2]).
  { apply replace_char_absent. cbn [forallb].
    destruct (plain_props d1) as (_ & _ & -> & _); [apply digit_props; assumption |].
    destruct (plain_props d2) as (_ & _ & -> & _); [apply digit_props; assumption |].
    reflexivity. }
  rewrite Htail.
  pose proof (without_commas body Hbody) as Hdigits.
  exists (hundredths (replace [","%char] [] body) d1 d2). split.
  - apply hundredths_nonneg; assumption.
  - right. exact (py_float_numeral [] _ d1 d2 (or_introl eq_refl) Hdigits H1 H2).
Qed.

(** *** The BMO numeral *)

Lemma bmo_amount_text u :
  Re.Matches bmo_amount u ->
  exists sgn body d1 d2 sfx,
    u = sgn ++ body ++ "."%char :: d1 :: d2 :: sfx /\
    (sgn = [] \/ sgn = ["-"%char]) /\
    body <> [] /\
    forallb (Re.union Re.digit (Re.is_char ",")) body = true /\
    is_digit d1 = true /\ is_digit d2 = true /\
    cr_tail sfx.
Proof.
  cbv [bmo_amount Re.seq Re.lit Re.lit_i map L list_ascii_of_string].
  intros H.
  apply matches_seq in H. destruct H as (sgn & u1 & -> & Hsgn & H).
  apply matches_seq in H. destruct H as (body & u2 & -> & Hbody & H).
  apply matches_seq in H. destruct H as (pt & u3 & -> & Hpt & H).
  apply matches_seq in H. destruct H as (dd & sfx & -> & Hdd & Hsfx).
  apply matches_plus in Hbody. destruct Hbody as [Hne Hbody].
  apply matches_is_char in Hpt. subst pt.
  apply matches_two in Hdd. destruct Hdd as (d1 & d2 & -> & H1 & H2).
  exists sgn, body, d1, d2, sfx. split; [reflexivity |].
  split.
  { apply matches_opt in Hsgn. destruct Hsgn as [-> | Hsgn]; [left; reflexivity |].
    right. apply matches_is_char in Hsgn. assumption. }
  repeat (split; [assumption |]).
  apply matches_opt in Hsfx. destruct Hsfx as [-> | Hsfx]; [left; reflexivity |].
  right.
  apply matches_seq in Hsfx. destruct Hsfx as (ws & cr & -> & Hws & Hcr).
  apply matches_seq in Hcr. destruct Hcr as (c & r & -> & Hc & Hr).
  apply matches_chr in Hc. destruct Hc as (c' & -> & Hc).
  apply matches_chr in Hr. destruct Hr as (r' & -> & Hr).
  exists ws, c', r'. split; [reflexivity |]. split; [| split; assumption].
  apply matches_opt in Hws. destruct Hws as [-> | Hws]; [left; reflexivity |].
  right. apply matches_chr in Hws. destruct Hws as (w & -> & Hw). eauto.
Qed.

(** The fourth group of a match of [_BMO_TRANS] is a numeral. *)
Lemma run_seq_next r1 r2 k s c g a :
  Re.at_pos s c ->
  Re.run (Re.Seq r1 r2) k c g = Some a ->
  exists c1 g1, Re.at_pos s c1 /\ Re.run r2 k c1 g1 = Some a.
Proof.
  intros Hc H. cbn [Re.run] in H. apply run_sound in H.
  destruct H as (u & c1 & g1 & Hrest & Hpos & _ & Hk).
  exists c1, g1. split; [| exact Hk].
  exact (proj1 (at_pos_step s c c1 u Hc Hrest Hpos)).
Qed.

Lemma bmo_trans_amount line m :
  Re.re_match _BMO_TRANS line = Some m -> Re.Matches bmo_amount (Re.group m 4).
Proof.
  unfold Re.re_match.
  destruct (Re.run _BMO_TRANS Re.accept (Re.start_cursor line) []) as [[c' g] |] eqn:Hrun;
    [| discriminate].
  cbn [Re.mk_match]. intros Hm. inversion Hm; subst m. clear Hm.
  cbv [_BMO_TRANS Re.seq] in Hrun.
  pose proof (at_pos_start line) as Hc.
  do 7 (apply (run_seq_next _ _ _ line _ _ _ Hc) in Hrun;
        clear Hc; destruct Hrun as (? & ? & Hc & Hrun)).
  cbn [Re.run] in Hrun. apply run_sound in Hrun.
  destruct Hrun as (u & c1 & g1 & Hrest & Hpos & Hu & Hk).
  destruct (xorb _ _); [| discriminate Hk].
  unfold Re.accept in Hk. inversion Hk; subst c' g. clear Hk.
  destruct (at_pos_step line _ c1 u Hc Hrest Hpos) as [_ Hslice].
  cbn [Re.group Re.m_caps Re.subject Re.span_of Nat.eqb].
  rewrite Hslice. exact Hu.
Qed.

(** *** [_bmo_amt] on a numeral *)

Section PlainPrefix.
Variable N : str.
Hypothesis N_plain : forallb plain N = true.

Lemma plain_keeps_dollar T :
  forallb (fun x => negb (Ascii.eqb x "$")) T = true ->
  replace ["$"%char] [] (N ++ T) = N ++ T.
Proof.
  intros HT. apply replace_char_absent. rewrite forallb_app, HT, andb_true_r.
  apply (forallb_weaken plain); [| exact N_plain].
  intros x Hx. apply plain_props. exact Hx.
Qed.

Lemma plain_upper T : upper (N ++ T) = N ++ upper T.
Proof.
  unfold upper at 1. rewrite map_app. f_equal. apply upper_fixed.
  apply (forallb_weaken plain); [| exact N_plain].
  intros x Hx. apply plain_props. exact Hx.
Qed.

Lemma plain_without_C : forallb (fun x => negb (Ascii.eqb x "C")) N = true.
Proof.
  apply (forallb_weaken plain); [| exact N_plain].
  intros x Hx. apply plain_props. exact Hx.
Qed.

Lemma plain_contains_cr U : contains (L "CR") (N ++ U) = contains (L "CR") U.
Proof. apply contains_past. exact plain_without_C. Qed.

Lemma plain_replace_cr U :
  replace (L "CR") [] (N ++ U) = N ++ replace (L "CR") [] U.
Proof. apply (replace_past "C" ["R"%char] [] N U). exact plain_without_C. Qed.
End PlainPrefix.

Lemma plain_numeral sgn a d1 d2 :
  (sgn = [] \/ sgn = ["-"%char]) ->
  forallb is_digit a = true -> is_digit d1 = true -> is_digit d2 = true ->
  forallb plain (sgn ++ a ++ "."%char :: [d1; d2]) = true.
Proof.
  intros Hs Ha H1 H2. rewrite !forallb_app.
  assert (Hsgn : forallb plain sgn = true) by (destruct Hs as [-> | ->]; reflexivity).
  rewrite Hsgn. rewrite (forallb_weaken is_digit plain a); auto.
  - cbn [forallb andb].
    destruct (digit_props d1 H1) as (-> & _). destruct (digit_props d2 H2) as (-> & _).
    reflexivity.
  - intros x Hx. apply digit_props. exact Hx.
Qed.

(** The three ways a suffix is written. *)
Lemma cr_tail_cases sfx :
  cr_tail sfx ->
  sfx = [] \/
  (exists c r, sfx = [c; r] /\ Re.icase (Re.is_char "C") c = true
               /\ Re.icase (Re.is_char "R") r = true) \/
  (exists w c r, sfx = [w; c; r] /\ is_space w = true
                 /\ Re.icase (Re.is_char "C") c = true
                 /\ Re.icase (Re.is_char "R") r = true).
Proof.
  intros [-> | (ws & c & r & -> & [-> | (w & -> & Hw)] & Hc & Hr)].
  - left. reflexivity.
  - right. left. exists c, r. auto.
  - right. right. exists w, c, r. auto.
Qed.

Lemma strip_numeral_blank x t y w :
  is_space x = false -> is_space y = false -> is_space w = true ->
  strip ((x :: t ++ [y]) ++ [w]) = x :: t ++ [y].
Proof.
  intros Hx Hy Hw. unfold strip. cbn [app].
  rewrite lstrip_by_stop by assumption.
  change (x :: (t ++ [y]) ++ [w]) with ((x :: t ++ [y]) ++ [w]).
  rewrite rstrip_by_drop by assumption.
  apply (rstrip_by_keep _ (x :: t) y Hy).
Qed.

Lemma bmo_amt_numeral sgn body d1 d2 sfx :
  (sgn = [] \/ sgn = ["-"%char]) ->
  forallb (Re.union Re.digit (Re.is_char ",")) body = true ->
  is_digit d1 = true -> is_digit d2 = true ->
  cr_tail sfx ->
  _bmo_amt (sgn ++ body ++ "."%char :: d1 :: d2 :: sfx)
  = Ok (let v := signed sgn (Qmake (hundredths (replace [","%char] [] body) d1 d2) 100) in
        if is_empty sfx then Qopp v else v).
Proof.
  intros Hs Hbody H1 H2 Hsfx.
  pose proof (without_commas body Hbody) as Ha.
  set (a := replace [","%char] [] body) in *.
  set (N := sgn ++ a ++ "."%char :: [d1; d2]).
  pose proof (plain_numeral sgn a d1 d2 Hs Ha H1 H2) as HN. fold N in HN.
  pose proof (py_float_numeral sgn a d1 d2 Hs Ha H1 H2) as Hfloat. fold N in Hfloat.
  destruct (numeral_solid sgn a d1 d2 Hs Ha H2) as (x & t & HNx & Hx). fold N in HNx.
  assert (Hxs : is_space x = false) by (apply plain_props; exact Hx).
  assert (H2s : is_space d2 = false) by (apply plain_props, digit_props; exact H2).
  assert (H1c : negb (Ascii.eqb d1 ",") = true) by (apply plain_props, digit_props; exact H1).
  assert (H2c : negb (Ascii.eqb d2 ",") = true) by (apply plain_props, digit_props; exact H2).
  assert (Hsgn : replace [","%char] [] sgn = sgn) by (destruct Hs as [-> | ->]; reflexivity).
  assert (Hcomma : forallb (fun x => negb (Ascii.eqb x ",")) sfx = true ->
                   replace (L ",") [] (sgn ++ body ++ "."%char :: d1 :: d2 :: sfx) = N ++ sfx).
  { intros Hc. change (L ",") with [","%char].
    rewrite !replace_comma_app, Hsgn. fold a.
    rewrite (replace_char_absent "," ("."%char :: d1 :: d2 :: sfx)).
    - unfold N. rewrite <- !app_assoc. reflexivity.
    - cbn [forallb]. rewrite H1c, H2c, Hc. reflexivity. }
  unfold _bmo_amt.
  destruct (cr_tail_cases sfx Hsfx)
    as [-> | [(c & r & -> & Hc & Hr) | (w & c & r & -> & Hw & Hc & Hr)]].
  - rewrite Hcomma by reflexivity.
    change (L "$") with ["$"%char].
    rewrite (plain_keeps_dollar N HN []) by reflexivity.
    assert (Hstrip : strip (N ++ []) = N ++ []).
    { rewrite app_nil_r, HNx. apply strip_solid, solid_ends; assumption. }
    rewrite Hstrip, (plain_upper N HN []).
    rewrite (plain_contains_cr N HN), (plain_replace_cr N HN).
    change (upper []) with (@nil ascii).
    change (contains (L "CR") []) with false.
    change (replace (L "CR") [] []) with (@nil ascii).
    rewrite Hstrip, app_nil_r, Hfloat. reflexivity.
  - destruct (icase_letter_props "C" c (or_introl eq_refl) Hc) as (HcU & _ & Hcc & Hcd & _).
    destruct (icase_letter_props "R" r (or_intror eq_refl) Hr) as (HrU & Hrs & Hrc & Hrd & _).
    rewrite Hcomma by (cbn [forallb]; rewrite Hcc, Hrc; reflexivity).
    change (L "$") with ["$"%char].
    rewrite (plain_keeps_dollar N HN) by (cbn [forallb]; rewrite Hcd, Hrd; reflexivity).
    assert (Hstrip : strip (N ++ [c; r]) = N ++ [c; r]).
    { rewrite HNx.
      replace ((x :: t ++ [d2]) ++ [c; r]) with (x :: (t ++ [d2; c]) ++ [r])
        by (cbn [app]; rewrite <- !app_assoc; reflexivity).
      apply strip_solid, solid_ends; assumption. }
    rewrite Hstrip, (plain_upper N HN).
    cbn [upper map]. rewrite HcU, HrU.
    rewrite (plain_contains_cr N HN), (plain_replace_cr N HN).
    assert (Hstrip' : strip N = N).
    { rewrite HNx. apply strip_solid, solid_ends; assumption. }
    change (contains (L "CR") ["C"%char; "R"%char]) with true.
    change (replace (L "CR") [] ["C"%char; "R"%char]) with (@nil ascii).
    rewrite app_nil_r, Hstrip', Hfloat. reflexivity.
  - destruct (icase_letter_props "C" c (or_introl eq_refl) Hc) as (HcU & _ & Hcc & Hcd & _).
    destruct (icase_letter_props "R" r (or_intror eq_refl) Hr) as (HrU & Hrs & Hrc & Hrd & _).
    destruct (space_props w Hw) as (Hwc & Hwd & HwU & HwC & _).
    rewrite Hcomma by (cbn [forallb]; rewrite Hwc, Hcc, Hrc; reflexivity).
    change (L "$") with ["$"%char].
    rewrite (plain_keeps_dollar N HN) by (cbn [forallb]; rewrite Hwd, Hcd, Hrd; reflexivity).
    assert (Hstrip : strip (N ++ [w; c; r]) = N ++ [w; c; r]).
    { rewrite HNx.
      replace ((x :: t ++ [d2]) ++ [w; c; r]) with (x :: (t ++ [d2; w; c]) ++ [r])
        by (cbn [app]; rewrite <- !app_assoc; reflexivity).
      apply strip_solid, solid_ends; assumption. }
    rewrite Hstrip, (plain_upper N HN).
    cbn [upper map]. rewrite HwU, HcU, HrU.
    rewrite (plain_contains_cr N HN), (plain_replace_cr N HN).
    assert (Hcontains : contains (L "CR") [w; "C"%char; "R"%char] = true).
    { cbn [contains startswith L list_ascii_of_string]. rewrite HwC. reflexivity. }
    assert (Hreplace : replace (L "CR") [] [w; "C"%char; "R"%char] = [w]).
    { unfold replace. cbn [replace_go startswith L list_ascii_of_string]. rewrite HwC.
      reflexivity. }
    rewrite Hcontains, Hreplace.
    rewrite HNx, strip_numeral_blank by assumption.
    rewrite <- HNx, Hfloat. reflexivity.
Qed.

(** *** How a numeral is written, read off its parts *)

Lemma cr_suffixed_numeral pre d2 sfx :
  is_digit d2 = true -> cr_tail sfx ->
  cr_suffixed (pre ++ d2 :: sfx) = negb (is_empty sfx).
Proof.
  intros H2 [-> | (ws & c & r & -> & _ & Hc & Hr)]; unfold cr_suffixed, upper.
  - rewrite map_app, rev_app_distr. cbn [map rev app startswith L list_ascii_of_string].
    destruct (plain_props d2) as (Hup & _); [apply digit_props; exact H2 |].
    apply Ascii.eqb_eq in Hup. rewrite Hup.
    destruct (digit_props d2 H2) as (_ & _ & _ & _ & ->). reflexivity.
  - destruct (icase_letter_props "C" c (or_introl eq_refl) Hc) as (HcU & _).
    destruct (icase_letter_props "R" r (or_intror eq_refl) Hr) as (HrU & _).
    replace (pre ++ d2 :: ws ++ [c; r]) with ((pre ++ d2 :: ws) ++ [c; r])
      by (rewrite <- app_assoc; reflexivity).
    rewrite map_app, rev_app_distr. cbn [map rev app]. rewrite HcU, HrU.
    destruct ws; reflexivity.
Qed.

Lemma minus_signed_numeral sgn body rest :
  (sgn = [] \/ sgn = ["-"%char]) ->
  body <> [] -> forallb (Re.union Re.digit (Re.is_char ",")) body = true ->
  minus_signed (sgn ++ body ++ rest) = negb (is_empty sgn).
Proof.
  intros [-> | ->] Hne Hbody; [| reflexivity].
  destruct body as [| b body]; [contradiction |].
  cbn [forallb] in Hbody. apply andb_prop in Hbody. destruct Hbody as [Hb _].
  unfold minus_signed. cbn [app startswith L list_ascii_of_string is_empty negb].
  destruct (digit_or_comma b Hb) as [[Hd _] | [-> _]].
  - destruct (digit_props b Hd) as (_ & -> & _). reflexivity.
  - reflexivity.
Qed.

Lemma existsb_filter {A} (f g : A -> bool) l :
  (forall x, f x = true -> g x = true) ->
  existsb f (filter g l) = existsb f l.
Proof.
  intros Hfg. induction l as [| x l IH]; [reflexivity |].
  cbn [filter existsb]. destruct (g x) eqn:Hg.
  - cbn [existsb]. rewrite IH. reflexivity.
  - rewrite IH. destruct (f x) eqn:Hf; [| reflexivity].
    rewrite (Hfg x Hf) in Hg. discriminate Hg.
Qed.

Lemma nonzero_not_comma x :
  between 49 57 x = true -> negb (Ascii.eqb x ",") = true.
Proof. each_char x. Qed.

Lemma nonzero_digit_val c : between 49 57 c = true -> (1 <= digit_val c)%Z.
Proof.
  unfold between, digit_val. intros H. apply andb_prop in H. destruct H as [H _].
  apply N.leb_le in H. lia.
Qed.

Lemma digits_val_positive s acc :
  forallb is_digit s = true -> (0 <= acc)%Z ->
  (0 < acc)%Z \/ existsb (between 49 57) s = true ->
  (0 < fold_left (fun a c => 10 * a + digit_val c) s acc)%Z.
Proof.
  revert acc. induction s as [| c s IH]; intros acc Hs Hacc Hpos;
    cbn [fold_left forallb existsb] in *.
  - destruct Hpos as [Hpos | Hpos]; [exact Hpos | discriminate Hpos].
  - apply andb_prop in Hs. destruct Hs as [Hc Hs].
    pose proof (digit_val_range c Hc) as Hrange.
    apply IH; [assumption | lia |].
    destruct Hpos as [Hpos | Hpos]; [left; lia |].
    apply orb_prop in Hpos. destruct Hpos as [Hnz | Hnz]; [left | right; exact Hnz].
    pose proof (nonzero_digit_val c Hnz). lia.
Qed.

Lemma nonzero_numeral sgn body d1 d2 sfx :
  (sgn = [] \/ sgn = ["-"%char]) ->
  forallb (Re.union Re.digit (Re.is_char ",")) body = true ->
  is_digit d1 = true -> is_digit d2 = true -> cr_tail sfx ->
  some_nonzero_digit (sgn ++ body ++ "."%char :: d1 :: d2 :: sfx) = true ->
  (0 < hundredths (replace [","%char] [] body) d1 d2)%Z.
Proof.
  intros Hs Hbody H1 H2 Hsfx Hnz.
  unfold hundredths, digits_val.
  apply digits_val_positive; [| lia |].
  - rewrite forallb_app, (without_commas body Hbody). cbn [forallb].
    rewrite H1, H2. reflexivity.
  - right. unfold some_nonzero_digit in Hnz.
    rewrite !existsb_app in Hnz. rewrite existsb_app.
    rewrite replace_char_filter, (existsb_filter _ _ body nonzero_not_comma).
    assert (Hsgn : existsb (between 49 57) sgn = false)
      by (destruct Hs as [-> | ->]; reflexivity).
    assert (Htail : existsb (between 49 57) sfx = false).
    { destruct (cr_tail_cases sfx Hsfx)
        as [-> | [(c & r & -> & Hc & Hr) | (w & c & r & -> & Hw & Hc & Hr)]];
        [reflexivity | |];
        destruct (icase_letter_props "C" c (or_introl eq_refl) Hc) as (_ & _ & _ & _ & Hcn);
        destruct (icase_letter_props "R" r (or_intror eq_refl) Hr) as (_ & _ & _ & _ & Hrn);
        cbn [existsb]; rewrite Hcn, Hrn; [reflexivity |].
      destruct (space_props w Hw) as (_ & _ & _ & _ & ->). reflexivity. }
    rewrite Hsgn in Hnz. cbn [orb existsb] in Hnz |- *.
    rewrite Htail in Hnz. rewrite !orb_false_r in Hnz |- *.
    change (between 49 57 "."%char) with false in Hnz. cbn [orb] in Hnz. exact Hnz.
Qed.

End AmountFacts.

(** ** TD rows *)

Local Open Scope Q_scope.

Lemma round2_hundredths n : round2 (Qmake n 100) = Qmake n 100.
Proof.
  unfold round2.
  assert (Hfloor : Qfloor (Qmake n 100 * (100 # 1)) = n).
  { unfold Qfloor, Qmult. cbn [Qnum Qden Pos.mul].
    change (Z.pos (100 * 1)) with 100%Z. apply Z.div_mul. lia. }
  rewrite Hfloor.
  assert (Hcmp : (Qmake n 100 * (100 # 1) - (n # 1) ?= 1 # 2) = Lt).
  { rewrite <- Qlt_alt. unfold Qlt, Qminus, Qplus, Qmult, Qopp. cbn [Qnum Qden].
    change (Z.pos (100 * 1 * 1)) with 100%Z. change (Z.pos (100 * 1)) with 100%Z. lia. }
  rewrite Hcmp. reflexivity.
Qed.

(** [_td_amt] returns a value that is not negative and that [round(_, 2)]
    leaves as it is, with either sign. *)
Lemma td_amt_value s :
  exists v, _td_amt s = Ok v /\ 0 <= v /\ round2 v == v /\ round2 (- v) == - v.
Proof.
  destruct (AmountFacts.td_amt_total s) as (n & Hn & [[Hv _] | Hv]).
  - exists 0. repeat split; try assumption; try reflexivity. apply Qle_refl.
  - exists (Qmake n 100). split; [assumption |]. split; [| split].
    + unfold Qle. cbn [Qnum Qden]. lia.
    + rewrite round2_hundredths. reflexivity.
    + change (- (n # 100)) with (Qmake (- n) 100).
      rewrite round2_hundredths. reflexivity.
Qed.

Lemma is_empty_false {A} (l : list A) : l <> [] -> is_empty l = false.
Proof. destruct l; [contradiction | reflexivity]. Qed.

Lemma Qeq_bool_opp_zero v : Qeq_bool (- v) 0 = Qeq_bool v 0.
Proof.
  destruct (Qeq_bool v 0) eqn:H.
  - apply Qeq_bool_iff in H. apply Qeq_bool_iff. rewrite H. reflexivity.
  - apply Qeq_bool_neq in H. destruct (Qeq_bool (- v) 0) eqn:H'; [| reflexivity].
    apply Qeq_bool_iff in H'. exfalso. apply H. lra.
Qed.

(** C8: a row of the checking table that passes the description and date
    filters.  With a withdrawal field the amount is minus the withdrawal
    value; with no withdrawal field and a deposit field it is the deposit
    value; the row gives no transaction when both fields are empty or when
    the value is zero. *)
Theorem chk_row_signed_amount (r : chk_fields) (sm sy : Z) :
  let desc := Text.strip (Text.join (L " ") (r_desc r)) in
  let ws := Text.strip (concat (r_with r)) in
  let dp := Text.strip (concat (r_dep r)) in
  desc <> [] ->
  existsb (fun k => Text.contains k (Text.upper desc)) CHK_SKIP = false ->
  found td_month_day (Text.upper (concat (r_date r))) = true ->
  (ws <> [] ->
   exists v, _td_amt ws = Ok v /\ 0 <= v /\
     (v == 0 -> chk_row r sm sy = Ok None) /\
     (~ v == 0 ->
      exists row, chk_row r sm sy = Ok (Some row) /\
                  Amount row == - v /\ Amount row < 0)) /\
  (ws = [] -> dp <> [] ->
   exists v, _td_amt dp = Ok v /\ 0 <= v /\
     (v == 0 -> chk_row r sm sy = Ok None) /\
     (~ v == 0 ->
      exists row, chk_row r sm sy = Ok (Some row) /\
                  Amount row == v /\ 0 < Amount row)) /\
  (ws = [] -> dp = [] -> chk_row r sm sy = Ok None).
Proof.
  intros desc ws dp Hdesc Hskip Hdate.
  unfold found in Hdate.
  destruct (re_search td_month_day (Text.upper (concat (r_date r)))) as [dm |] eqn:Hdm;
    [clear Hdate | discriminate Hdate].
  assert (Hrow : chk_row r sm sy =
                 (amt <- chk_amount ws dp ;;
                  match amt with
                  | None => Ok None
                  | Some a =>
                    if Qeq_bool a 0 then Ok None
                    else Ok (Some (MkRow
                           (_td_date (group dm 1 ++ Text.zfill 2 (group dm 2)) sm sy)
                           (Text.strip (re_sub (plus (Chr space)) [Lit (L " ")] desc))
                           (round2 a)))
                  end)).
  { unfold chk_row. fold desc. rewrite (is_empty_false desc Hdesc), Hskip.
    cbn [orb]. rewrite Hdm. reflexivity. }
  rewrite Hrow. clear Hrow. unfold chk_amount.
  refine (conj _ (conj _ _)).
  - intros Hws. rewrite (is_empty_false ws Hws). cbn [negb].
    destruct (td_amt_value ws) as (v & Hv & Hpos & _ & Hround).
    exists v. rewrite Hv. cbn [bind]. rewrite Qeq_bool_opp_zero.
    refine (conj eq_refl (conj Hpos (conj _ _))).
    + intros Hz. apply Qeq_bool_iff in Hz. rewrite Hz. reflexivity.
    + intros Hnz. destruct (Qeq_bool v 0) eqn:Hz.
      * apply Qeq_bool_iff in Hz. contradiction.
      * eexists. split; [reflexivity |]. cbn [Amount]. rewrite Hround. split; lra.
  - intros Hws Hdp. rewrite Hws. cbn [is_empty negb].
    rewrite (is_empty_false dp Hdp). cbn [negb].
    destruct (td_amt_value dp) as (v & Hv & Hpos & Hround & _).
    exists v. rewrite Hv. cbn [bind].
    refine (conj eq_refl (conj Hpos (conj _ _))).
    + intros Hz. apply Qeq_bool_iff in Hz. rewrite Hz. reflexivity.
    + intros Hnz. destruct (Qeq_bool v 0) eqn:Hz.
      * apply Qeq_bool_iff in Hz. contradiction.
      * eexists. split; [reflexivity |]. cbn [Amount]. rewrite Hround. split; lra.
  - intros Hws Hdp. rewrite Hws, Hdp. reflexivity.
Qed.

Lemma chk_row_signed_amount_witness :
  exists row, chk_row grocery_row 1 2024 = Ok (Some row) /\ Amount row == - (50 # 1).
Proof.
  destruct (chk_row_signed_amount grocery_row 1 2024) as (Hwith & _).
  - discriminate.
  - reflexivity.
  - reflexivity.
  - destruct Hwith as (v & Hv & _ & _ & Hrow).
    + discriminate.
    + vm_compute in Hv. inversion Hv; subst v.
      destruct Hrow as (row & Hr & Ha & _).
      * intros Hz. discriminate Hz.
      * exists row. split; [exact Hr |]. rewrite Ha. reflexivity.
Defined.


Lemma Qltb_lt a b : Qltb a b = true <-> a < b.
Proof.
  unfold Qltb. rewrite negb_true_iff. split.
  - intros H. apply Qnot_le_lt. intros Hle. apply Qle_bool_iff in Hle. congruence.
  - intros H. destruct (Qle_bool b a) eqn:E; [| reflexivity].
    apply Qle_bool_iff in E. lra.
Qed.




(** ** The sign of a BMO amount *)

(** C4, as the code has it: for a line that matches the pattern, [_bmo_amt]
    returns, and for a numeral with a digit other than 0: written without a
    minus sign, the amount is negative unless the numeral is suffixed CR (in
    either case), where it is positive; written with a minus sign, the signs
    are the other way round. *)
Theorem bmo_amount_sign (line : str) (m : rmatch) :
  re_match _BMO_TRANS line = Some m ->
  exists a, _bmo_amt (group m 4) = Ok a /\
    (some_nonzero_digit (group m 4) = true ->
     (minus_signed (group m 4) = false ->
        (cr_suffixed (group m 4) = false -> a < 0) /\
        (cr_suffixed (group m 4) = true -> 0 < a)) /\
     (minus_signed (group m 4) = true ->
        (cr_suffixed (group m 4) = false -> 0 < a) /\
        (cr_suffixed (group m 4) = true -> a < 0))).
Proof.
  intros Hm. apply AmountFacts.bmo_trans_amount in Hm.
  apply AmountFacts.bmo_amount_text in Hm.
  destruct Hm as (sgn & body & d1 & d2 & sfx & -> & Hs & Hne & Hbody & H1 & H2 & Hsfx).
  rewrite (AmountFacts.bmo_amt_numeral sgn body d1 d2 sfx Hs Hbody H1 H2 Hsfx).
  eexists. split; [reflexivity |].
  intros Hnz.
  apply (AmountFacts.nonzero_numeral sgn body d1 d2 sfx Hs Hbody H1 H2 Hsfx) in Hnz.
  rewrite (AmountFacts.minus_signed_numeral sgn body _ Hs Hne Hbody).
  replace (sgn ++ body ++ "."%char :: d1 :: d2 :: sfx)
    with ((sgn ++ body ++ ["."%char; d1]) ++ d2 :: sfx)
    by (rewrite <- !app_assoc; reflexivity).
  rewrite (AmountFacts.cr_suffixed_numeral _ d2 sfx H2 Hsfx).
  set (q := Qmake (hundredths (Text.replace [","%char] [] body) d1 d2) 100).
  assert (Hq : 0 < q) by (unfold q, Qlt; cbn [Qnum Qden]; lia).
  clearbody q.
  destruct Hs as [-> | ->]; destruct sfx as [| y sfx];
    cbn [is_empty negb signed];
    (split; intros Hsign; [split; intros Hcr | split; intros Hcr]);
    try discriminate; lra.
Qed.

Lemma bmo_amount_sign_witness :
  exists m a,
    re_match _BMO_TRANS (L "Jan 5 Jan 6 COFFEE SHOP 1,045.67") = Some m /\
    _bmo_amt (group m 4) = Ok a /\ a < 0.
Proof.
  destruct (re_match _BMO_TRANS (L "Jan 5 Jan 6 COFFEE SHOP 1,045.67")) as [m |] eqn:Hm;
    [| vm_compute in Hm; discriminate Hm].
  destruct (bmo_amount_sign (L "Jan 5 Jan 6 COFFEE SHOP 1,045.67") m Hm)
    as (a & Ha & Hsign).
  exists m, a. split; [reflexivity |]. split; [exact Ha |].
  vm_compute in Hm. inversion Hm; subst m. clear Hm.
  destruct Hsign as (Hplain & _); [reflexivity |].
  destruct Hplain as (Hdebit & _); [reflexivity |].
  apply Hdebit. reflexivity.
Defined.

(** C4 as stated fails: a numeral written with a minus sign and without CR
    gives a positive amount. *)
Lemma bmo_minus_numeral_is_credit :
  exists m a,
    re_match _BMO_TRANS (L "Jan 5 Jan 6 REFUND -45.67") = Some m /\
    cr_suffixed (group m 4) = false /\
    _bmo_amt (group m 4) = Ok a /\
    ~ a < 0.
Proof.
  eexists. eexists. split; [vm_compute; reflexivity |].
  split; [vm_compute; reflexivity |].
  split; [vm_compute; reflexivity |].
  intros Hneg. vm_compute in Hneg. discriminate Hneg.
Qed.

(** ** Ordinary tokens are read *)

Local Open Scope Z_scope.

Lemma reads_as_eq r mo d : reads_as r mo d = true -> r = Some (mo, d).
Proof.
  destruct r as [[mo' d'] |]; [| discriminate]. cbn [reads_as].
  intros H. apply andb_prop in H. destruct H as [Hmo Hd].
  apply Z.eqb_eq in Hmo, Hd. subst. reflexivity.
Qed.

(** Every day of the calendar (February up to the 28th), written "Jan 5",
    "Jan.5" or "JAN05", is read as its month and day. *)
Lemma calendar_tokens_read mo d :
  1 <= mo <= 12 -> 1 <= d <= days_in_month_1900 mo ->
  bmo_reads (month_abbr mo ++ L " " ++ Text.of_Z d) = Some (mo, d) /\
  bmo_reads (month_abbr mo ++ L "." ++ Text.of_Z d) = Some (mo, d) /\
  td_reads (Text.upper (month_abbr mo) ++ Text.pad2 d) = Some (mo, d).
Proof.
  intros Hmo Hd.
  assert (Hall :
    forallb (fun m => forallb (fun k =>
               negb (Z.of_nat k <=? days_in_month_1900 (Z.of_nat m))
               || calendar_day_read (Z.of_nat m) (Z.of_nat k))
             (List.seq 1 31))
            (List.seq 1 12) = true) by (vm_compute; reflexivity).
  rewrite forallb_forall in Hall.
  pose proof (days_in_month_1900_le mo) as Hle.
  assert (Hm : In (Z.to_nat mo) (List.seq 1 12)) by (apply in_seq; lia).
  specialize (Hall _ Hm). rewrite forallb_forall in Hall.
  assert (Hk : In (Z.to_nat d) (List.seq 1 31)) by (apply in_seq; lia).
  specialize (Hall _ Hk).
  rewrite !Z2Nat.id in Hall by lia.
  destruct (Z.leb_spec d (days_in_month_1900 mo)); [| lia].
  cbn [negb orb] in Hall. unfold calendar_day_read in Hall.
  apply andb_prop in Hall. destruct Hall as [Hall H3].
  apply andb_prop in Hall. destruct Hall as [H1 H2].
  auto using reads_as_eq.
Qed.

(** ** The TD parser returns no zero amount, and [count] is a length *)

Local Open Scope Q_scope.

Lemma for_each_invariant {A S} (P : S -> Prop) (body : S -> A -> result S) :
  (forall s x s', P s -> body s x = Ok s' -> P s') ->
  forall xs s s', P s -> for_each xs body s = Ok s' -> P s'.
Proof.
  intros Hbody xs. induction xs as [| x xs IH]; intros s s' Hs H; cbn [for_each] in H.
  - inversion H; subst. exact Hs.
  - destruct (body s x) as [s1 | e] eqn:Hb; [| discriminate H].
    cbn [bind] in H. apply (IH s1 s'); [| exact H].
    exact (Hbody s x s1 Hs Hb).
Qed.

Lemma chk_row_nonzero r sm sy row :
  chk_row r sm sy = Ok (Some row) -> nonzero_row row.
Proof.
  unfold chk_row, nonzero_row.
  destruct (is_empty _ || existsb _ CHK_SKIP); [discriminate |].
  destruct (re_search td_month_day _) as [dm |]; [| discriminate].
  set (ws := Text.strip (concat (r_with r))). set (dp := Text.strip (concat (r_dep r))).
  assert (Hamt : forall a, chk_amount ws dp = Ok (Some a) -> round2 a == a).
  { unfold chk_amount. intros a.
    destruct (negb (is_empty ws)).
    - destruct (td_amt_value ws) as (v & -> & _ & _ & Hr). cbn [bind].
      intros H. inversion H; subst. exact Hr.
    - destruct (negb (is_empty dp)); [| discriminate].
      destruct (td_amt_value dp) as (v & -> & _ & Hr & _). cbn [bind].
      intros H. inversion H; subst. exact Hr. }
  destruct (chk_amount ws dp) as [[a |] | e]; cbn [bind]; try discriminate.
  destruct (Qeq_bool a 0) eqn:Hz; [discriminate |].
  intros H. inversion H; subst. cbn [Amount].
  rewrite (Hamt a eq_refl). apply Qeq_bool_neq. exact Hz.
Qed.

Lemma Forall_snoc {A} (P : A -> Prop) l x : Forall P l -> P x -> Forall P (l ++ [x]).
Proof. intros Hl Hx. apply Forall_app. auto. Qed.

Lemma parse_td_chk_nonzero w p sm sy rows :
  parse_td_chk w p sm sy = Ok rows -> Forall nonzero_row rows.
Proof.
  unfold parse_td_chk. destruct (open w p) as [doc | e]; [| discriminate].
  cbn [bind]. apply for_each_invariant; [| constructor].
  intros s pg s' Hs. unfold chk_page.
  destruct (_td_up pg 2) as [words | e]; [| discriminate]. cbn [bind].
  destruct words as [| w0 words]; [intros H; inversion H; subst; exact Hs |].
  destruct (find _ (w0 :: words)) as [hw |]; [| intros H; inversion H; subst; exact Hs].
  destruct (col_with _) as [cw |]; [| intros H; inversion H; subst; exact Hs].
  destruct (col_dep _) as [cd |]; [| intros H; inversion H; subst; exact Hs].
  apply for_each_invariant; [| exact Hs].
  intros rows0 line rows1 Hrows0.
  destruct (chk_row _ sm sy) as [[row |] | e] eqn:Hrow; cbn [bind]; try discriminate;
    intros H; inversion H; subst; [| exact Hrows0].
  apply Forall_snoc; [exact Hrows0 | exact (chk_row_nonzero _ _ _ _ Hrow)].
Qed.

Lemma append_to_last_nonzero raw desc :
  Forall nonzero_entry raw -> Forall nonzero_entry (append_to_last raw desc).
Proof.
  induction raw as [| t raw IH]; intros H; [constructor |].
  inversion H as [| ? ? Ht Hraw]; subst.
  cbn [append_to_last]. destruct raw as [| t' raw'].
  - constructor; [exact Ht | constructor].
  - constructor; [exact Ht | exact (IH Hraw)].
Qed.

Lemma cc_line_nonzero raw f raw' :
  Forall nonzero_entry raw -> cc_line raw f = Ok (Continue raw') ->
  Forall nonzero_entry raw'.
Proof.
  intros Hraw. unfold cc_line.
  destruct (cc_stops f); [discriminate |].
  destruct (cc_skipped f); [intros H; inversion H; subst; exact Hraw |].
  destruct (td_amt_value (f_ar f)) as (an & -> & Hpos & Hr & Hr'). cbn [bind].
  assert (Hcont :
    (if negb (is_empty (f_desc f)) && negb (is_empty raw)
     then Ok (Continue (append_to_last raw (f_desc f)))
     else Ok (Continue raw)) = Ok (Continue raw') ->
    Forall nonzero_entry raw').
  { destruct (negb (is_empty (f_desc f)) && negb (is_empty raw));
      intros H; inversion H; subst; auto using append_to_last_nonzero. }
  destruct (re_search td_month_day (f_ds f)) as [m |]; [| exact Hcont].
  destruct (Qltb 0 an) eqn:Hlt; [| exact Hcont].
  apply Qltb_lt in Hlt.
  destruct (Text.startswith (Text.strip (f_ar f)) (L "-"));
    intros H; inversion H; subst; (apply Forall_snoc; [exact Hraw |]);
    unfold nonzero_entry; cbn [RawAmount]; [rewrite Hr | rewrite Hr']; lra.
Qed.

Lemma cc_lines_nonzero fs raw raw' :
  Forall nonzero_entry raw -> cc_lines raw fs = Ok raw' -> Forall nonzero_entry raw'.
Proof.
  revert raw. induction fs as [| f fs IH]; intros raw Hraw H; cbn [cc_lines] in H.
  - inversion H; subst. exact Hraw.
  - destruct (cc_line raw f) as [[| raw1] | e] eqn:Hline; cbn [bind] in H;
      try discriminate H.
    + inversion H; subst. exact Hraw.
    + exact (IH raw1 (cc_line_nonzero raw f raw1 Hraw Hline) H).
Qed.

Lemma parse_td_cc_nonzero w p sm sy rows :
  parse_td_cc w p sm sy = Ok rows -> Forall nonzero_row rows.
Proof.
  unfold parse_td_cc. destruct (open w p) as [doc | e]; [| discriminate].
  cbn [bind].
  destruct (for_each (pages doc) cc_page []) as [raw | e] eqn:Hraw; [| discriminate].
  cbn [bind]. intros H. inversion H; subst. clear H.
  assert (Hall : Forall nonzero_entry raw).
  { revert Hraw. apply for_each_invariant; [| constructor].
    intros s pg s' Hs. unfold cc_page.
    destruct (_td_up pg 1) as [words | e]; [| discriminate]. cbn [bind].
    destruct words as [| w0 words]; [intros H; inversion H; subst; exact Hs |].
    destruct (find _ (w0 :: words)) as [hw |]; [| intros H; inversion H; subst; exact Hs].
    apply cc_lines_nonzero. exact Hs. }
  apply Forall_map. revert Hall. apply Forall_impl. intros t Ht. exact Ht.
Qed.

(** Every transaction that the TD parser returns has an amount other than
    zero, in both layouts. *)
Theorem parse_td_nonzero w p rows :
  parse_td w p = Ok rows -> Forall nonzero_row rows.
Proof.
  unfold parse_td. destruct (_td_my w (path_name p)) as [sm sy].
  destruct (_td_type w p) as [[|] | e]; cbn [bind]; try discriminate.
  - apply parse_td_cc_nonzero.
  - apply parse_td_chk_nonzero.
Qed.

Lemma parse_td_nonzero_witness :
  exists rows,
    parse_td td_dated (L "/in/TD_Checking_Dec_31_2023.pdf") = Ok rows /\
    rows <> [] /\ Forall nonzero_row rows.
Proof.
  eexists. refine (conj _ (conj _ _)).
  - vm_compute. reflexivity.
  - discriminate.
  - apply (parse_td_nonzero td_dated (L "/in/TD_Checking_Dec_31_2023.pdf")).
    vm_compute. reflexivity.
Defined.

(** Whenever the printed object has a list of transactions, its [count] is
    the length of the list. *)
Theorem count_is_length w argv rows :
  field (L "transactions") (fst (main w argv)) = Some (JRows rows) ->
  field (L "count") (fst (main w argv)) = Some (JInt (Z.of_nat (length rows))).
Proof.
  unfold main.
  destruct argv as [| prog [| path more]]; try discriminate.
  destruct (fs w path); [| discriminate].
  match goal with
  | |- context [match ?parsed with Ok _ => _ | Raise _ => _ end] =>
    destruct parsed as [[account transactions] | e]
  end; cbn; intros H; inversion H; subst; reflexivity.
Qed.

Lemma count_is_length_witness :
  exists rows,
    field (L "transactions")
          (fst (main td_dated [program; L "/in/TD_Checking_Dec_31_2023.pdf"]))
    = Some (JRows rows) /\
    field (L "count")
          (fst (main td_dated [program; L "/in/TD_Checking_Dec_31_2023.pdf"]))
    = Some (JInt (Z.of_nat (length rows))).
Proof.
  eexists. split.
  - vm_compute. reflexivity.
  - apply (count_is_length td_dated [program; L "/in/TD_Checking_Dec_31_2023.pdf"]).
    vm_compute. reflexivity.
Defined.

(** ** Scenarios *)

(** A file name with an issuer marker and a long date, without a hint. *)
Example bmo_cad_by_filename :
  detect_account (L "/in/BMO_CAD_Statement_January 5, 2024.pdf") None
  = Ok (Some (L "BMO CAD Credit Card")).
Proof. vm_compute. reflexivity. Qed.

(** A BMO line that ends in "120.00 CR" is a credit of 120.00. *)
Example bmo_credit_line :
  option_map Amount
    (match bmo_line modern 1 2024 (L "Jan 5 Jan 6 PAYMENT RECEIVED 120.00 CR") with
     | Ok r => r
     | Raise _ => None
     end)
  = Some (Qmake 12000 100).
Proof. vm_compute. reflexivity. Qed.

(** The 29th of February is not a date of the year 1900, in which [strptime]
    places a month and a day: the token comes back as it is. *)
Example leap_day_token :
  _bmo_date (L "Feb 29") 2 2024 = L "Feb 29" /\
  _td_date (L "FEB29") 2 2024 = L "FEB29".
Proof. split; vm_compute; reflexivity. Qed.

(** * Further properties *)

(** ** Which account [detect_account] can name *)

Local Open Scope Z_scope.

Lemma first_some_in {A B} (f : A -> option B) (l : list A) (b : B) :
  first_some f l = Some b -> exists a, In a l /\ f a = Some b.
Proof.
  induction l as [| a l IH]; cbn [first_some]; [discriminate |].
  destruct (f a) as [b' |] eqn:Hfa.
  - intros H. inversion H; subst. exists a. split; [left; reflexivity | exact Hfa].
  - intros H. destruct (IH H) as (a' & Hin & Ha'). exists a'. split; [right |]; assumption.
Qed.

Lemma first_some_none {A B} (p : A -> bool) (g : A -> B) (l : list A) :
  first_some (fun x => if p x then Some (g x) else None) l = None <-> existsb p l = false.
Proof.
  induction l as [| a l IH]; cbn [first_some existsb]; [tauto |].
  destruct (p a); cbn [orb]; [split; discriminate | exact IH].
Qed.

Lemma by_hint_cases (hint : option str) :
  (readable_hint hint = true /\
   exists a, by_hint hint = Ok a /\ forall l, a = Some l -> In l labels) \/
  (readable_hint hint = false /\ by_hint hint = Raise AttributeError).
Proof.
  unfold by_hint, readable_hint.
  destruct hint as [[| x hint] |]; try (left; split; [reflexivity |]; exists None;
                                        split; [reflexivity | discriminate]).
  destruct (first_some _ KEYWORD_MAP) as [v |] eqn:Hkey.
  - left. split.
    + unfold keyword_in. destruct (existsb _ KEYWORD_MAP) eqn:Hex; [reflexivity |].
      apply (first_some_none _ snd) in Hex. rewrite Hex in Hkey. discriminate Hkey.
    + exists (Some v). split; [reflexivity |]. intros l [= <-].
      apply first_some_in in Hkey. destruct Hkey as (kv & Hkv & Hv).
      destruct (Text.contains (fst kv) _); [| discriminate Hv].
      inversion Hv; subst v. unfold KEYWORD_MAP in Hkv. cbn [In] in Hkv.
      unfold labels. cbn [In].
      repeat (destruct Hkv as [<- | Hkv]; [cbn [snd]; tauto |]). contradiction.
  - right. split; [| reflexivity].
    unfold keyword_in. apply (first_some_none _ snd). exact Hkey.
Qed.

Lemma detect_account_cases (filepath : str) (hint : option str) :
  (readable_hint hint = true /\
   exists a, detect_account filepath hint = Ok a /\ forall l, a = Some l -> In l labels) \/
  (readable_hint hint = false /\ detect_account filepath hint = Raise AttributeError).
Proof.
  unfold detect_account.
  destruct (by_hint_cases hint) as [(Hr & a & -> & Ha) | (Hr & ->)]; [left | right; auto].
  split; [exact Hr |]. cbn [bind]. destruct a as [v |]; [eauto |].
  destruct (by_filename (path_name filepath)) as [v |] eqn:Hfile.
  - exists (Some v). split; [reflexivity |]. intros l [= <-].
    unfold by_filename in Hfile.
    apply first_some_in in Hfile. destruct Hfile as (pat & Hpat & Hv).
    destruct (snd pat _); [| discriminate Hv].
    inversion Hv; subst v. unfold ACCOUNT_PATTERNS in Hpat. cbn [In] in Hpat.
    unfold labels. cbn [In].
    repeat (destruct Hpat as [<- | Hpat]; [cbn [fst]; tauto |]). contradiction.
  - eexists. split; [reflexivity |]. intros l Hl.
    unfold by_fuzzy in Hl. unfold labels. cbn [In].
    repeat match type of Hl with
           | (if ?b then _ else _) = _ => destruct b
           end;
    inversion Hl; subst l; tauto.
Qed.

Lemma main_detect_raises (w : world) (prog path : str) (more : list str)
    (r : result pdf) (e : exn) :
  fs w path = Some r ->
  detect_account path (hd_error more) = Raise e ->
  main w (prog :: path :: more) = error_result (path_name path) e.
Proof. intros Hfs He. unfold main. rewrite Hfs, He. reflexivity. Qed.

(** [detect_account] returns exactly when there is no hint, an empty hint,
    or a hint that holds a keyword of the table; what it then returns is one
    of the four labels or nothing, and every label sends [main] to one
    parser.  With any other hint it raises [AttributeError], from the loop
    that asks a detector for its [lower]. *)
Theorem detect_account_labels (filepath : str) (hint : option str) :
  (readable_hint hint = true ->
   exists a,
     detect_account filepath hint = Ok a /\
     forall l, a = Some l ->
               In l labels /\ (has "BMO" a = true \/ has "TD" a = true)) /\
  (readable_hint hint = false ->
   detect_account filepath hint = Raise AttributeError).
Proof.
  destruct (detect_account_cases filepath hint) as [(Hr & a & Ha & Hl) | (Hr & He)];
    (split; intros Hr'; [| congruence]); [| congruence].
  exists a. split; [exact Ha |]. intros l ->. pose proof (Hl l eq_refl) as Hin.
  split; [exact Hin |].
  unfold labels in Hin. cbn [In] in Hin.
  repeat (destruct Hin as [<- | Hin]; [vm_compute; tauto |]). contradiction.
Qed.

Lemma detect_account_labels_witness :
  detect_account (L "/in/TD_Checking_Jan_31_2024.pdf") None
  = Ok (Some (L "TD CAD Checking")) /\
  detect_account (L "/in/TD_Checking_Jan_31_2024.pdf") (Some (L "savings"))
  = Raise AttributeError.
Proof.
  split.
  - destruct (proj1 (detect_account_labels (L "/in/TD_Checking_Jan_31_2024.pdf") None)
                eq_refl) as (a & Ha & _).
    vm_compute. reflexivity.
  - apply (proj2 (detect_account_labels (L "/in/TD_Checking_Jan_31_2024.pdf")
                    (Some (L "savings")))).
    vm_compute. reflexivity.
Defined.

(** A hint that holds no keyword of the table stops the run, whatever the
    file is called and whatever is in it: [detect_account] raises
    [AttributeError], and [main] prints the error object with the message of
    that exception and exits with 1.  A hint that spells the label
    "TD CAD Checking" or "TD CAD Credit Card" is such a hint. *)
Theorem hint_without_keyword_raises (w : world) (prog path hint : str)
    (more : list str) (r : result pdf) :
  hint <> [] ->
  keyword_in hint = false ->
  fs w path = Some r ->
  detect_account path (Some hint) = Raise AttributeError /\
  main w (prog :: path :: hint :: more) = error_result (path_name path) AttributeError.
Proof.
  intros Hne Hkey Hfs.
  assert (Hraise : detect_account path (Some hint) = Raise AttributeError).
  { destruct (detect_account_cases path (Some hint)) as [(Hr & _) | (_ & He)]; [| exact He].
    unfold readable_hint in Hr. destruct hint; [contradiction Hne; reflexivity |].
    congruence. }
  split; [exact Hraise |].
  apply (main_detect_raises w prog path (hint :: more) r); assumption.
Qed.

Lemma hint_without_keyword_raises_witness :
  detect_account (L "/in/TD_Checking_Dec_31_2023.pdf") (Some (L "TD CAD Checking"))
  = Raise AttributeError /\
  snd (main td_dated [program; L "/in/TD_Checking_Dec_31_2023.pdf"; L "TD CAD Checking"])
  = 1.
Proof.
  destruct (hint_without_keyword_raises td_dated program
              (L "/in/TD_Checking_Dec_31_2023.pdf") (L "TD CAD Checking") []
              (Ok (Pdf [Page (Ok None) (fun _ => Ok checking_table)])))
    as (Hd & Hm).
  - discriminate.
  - vm_compute. reflexivity.
  - reflexivity.
  - split; [exact Hd |]. rewrite Hm. reflexivity.
Defined.

(** ** What [main] prints when a parser fails or finds nothing *)

(** With no account resolved: rows from the BMO parser settle the account
    as "BMO CAD Credit Card" and the TD parser is not consulted; when both
    parsers return nothing the run succeeds with an empty list, the count 0
    and no account; when the TD parser raises, after the BMO parser returned
    nothing or raised, the run fails with the TD parser's error. *)
Theorem unresolved_account_outcomes (w : world) (prog path : str) (more : list str)
    (r : result pdf) :
  fs w path = Some r ->
  detect_account path (hd_error more) = Ok None ->
  (forall t ts, parse_bmo w path = Ok (t :: ts) ->
     main w (prog :: path :: more)
     = success_result (Some (L "BMO CAD Credit Card")) (path_name path) (t :: ts)) /\
  (parse_bmo w path = Ok [] -> parse_td w path = Ok [] ->
     main w (prog :: path :: more) = success_result None (path_name path) []) /\
  (forall e, (parse_bmo w path = Ok [] \/ exists e', parse_bmo w path = Raise e') ->
     parse_td w path = Raise e ->
     main w (prog :: path :: more) = error_result (path_name path) e).
Proof.
  intros Hfs Hacc. unfold main. rewrite Hfs, Hacc. cbn [bind has]. cbv iota.
  unfold parse_unknown. refine (conj _ (conj _ _)).
  - intros t ts Hbmo. rewrite Hbmo. reflexivity.
  - intros Hbmo Htd. rewrite Hbmo. cbn [bind]. rewrite Htd. reflexivity.
  - intros e [Hbmo | (e' & Hbmo)] Htd; rewrite Hbmo; cbn [bind]; rewrite Htd; reflexivity.
Qed.

Lemma unresolved_account_outcomes_witness :
  main blank_statement [program; L "/in/statement.pdf"]
  = success_result None (L "statement.pdf") [].
Proof.
  destruct (unresolved_account_outcomes blank_statement program (L "/in/statement.pdf") []
              (Ok (Pdf [text_page "Thank you for banking with us"])))
    as (_ & Hnone & _).
  - reflexivity.
  - vm_compute. reflexivity.
  - apply Hnone; vm_compute; reflexivity.
Defined.

(** With an account resolved there is no second parser: when the parser of
    the account's issuer raises, the run fails with that error, whatever the
    other parser would return. *)
Theorem resolved_account_failure_is_fatal (w : world) (prog path : str)
    (more : list str) (r : result pdf) (account : option str) (e : exn) :
  fs w path = Some r ->
  detect_account path (hd_error more) = Ok account ->
  (has "BMO" account = true ->
   parse_bmo w path = Raise e ->
   main w (prog :: path :: more) = error_result (path_name path) e) /\
  (has "BMO" account = false ->
   has "TD" account = true ->
   parse_td w path = Raise e ->
   main w (prog :: path :: more) = error_result (path_name path) e).
Proof.
  intros Hfs Hacc. unfold main. rewrite Hfs, Hacc. cbn [bind]. split.
  - intros Hb Hraise. rewrite Hb, Hraise. reflexivity.
  - intros Hb Ht Hraise. rewrite Hb, Ht, Hraise. reflexivity.
Qed.

Lemma resolved_account_failure_is_fatal_witness :
  (exists rows, rows <> [] /\
     parse_td bmo_named_without_text (L "/in/BMO CAD January 5, 2024.pdf") = Ok rows) /\
  main bmo_named_without_text [program; L "/in/BMO CAD January 5, 2024.pdf"]
  = error_result (L "BMO CAD January 5, 2024.pdf") (Exn (L "no text layer")).
Proof.
  split.
  - eexists. split; [| vm_compute; reflexivity]. discriminate.
  - destruct (resolved_account_failure_is_fatal bmo_named_without_text program
                (L "/in/BMO CAD January 5, 2024.pdf") []
                (Ok (Pdf [Page (Raise (Exn (L "no text layer")))
                               (fun _ => Ok checking_table)]))
                (Some (L "BMO CAD Credit Card")) (Exn (L "no text layer")))
      as (Hbmo & _).
    + reflexivity.
    + vm_compute. reflexivity.
    + apply Hbmo; vm_compute; reflexivity.
Defined.

(** ** The BMO parser raises only when the document layer does *)

Lemma four_digits_int u :
  Matches (times 4 4 (Chr digit)) u ->
  exists y, Text.int_of u = Some y /\ 0 <= y <= 9999.
Proof.
  intros H. apply ReFacts.matches_rep_chr in H. destruct H as (Hall & Hlo & Hhi).
  destruct u as [| a [| b [| c [| d [| x u]]]]]; cbn [length] in Hlo, Hhi; try lia.
  cbn [forallb] in Hall.
  apply andb_prop in Hall. destruct Hall as [Ha Hall].
  apply andb_prop in Hall. destruct Hall as [Hb Hall].
  apply andb_prop in Hall. destruct Hall as [Hc Hall].
  apply andb_prop in Hall. destruct Hall as [Hd _].
  unfold digit in *. unfold Text.int_of.
  assert (Hstrip : Text.strip [a; b; c; d] = [a; b; c; d]).
  { apply TextFacts.strip_solid. apply (TextFacts.solid_ends a [b; c] d).
    - apply TextFacts.plain_props, TextFacts.digit_props. exact Ha.
    - apply TextFacts.plain_props, TextFacts.digit_props. exact Hd. }
  rewrite Hstrip. cbn [forallb]. rewrite Ha, Hb, Hc, Hd. cbn [andb].
  eexists. split; [reflexivity |].
  unfold Text.digits_val. cbn [fold_left].
  pose proof (digit_val_range a Ha). pose proof (digit_val_range b Hb).
  pose proof (digit_val_range c Hc). pose proof (digit_val_range d Hd). lia.
Qed.

Lemma month_of_range abbr : 1 <= month_of abbr <= 12.
Proof.
  unfold month_of, strptime_b.
  destruct (strptime_with directive_b false (firstn 3 abbr)) as [[mo d] |] eqn:H; [| lia].
  apply strptime_range in H. lia.
Qed.

Lemma bmo_my_total (w : world) (p : str) :
  exists sm sy,
    _bmo_my w p = Ok (sm, sy) /\
    ((sm, sy) = now w \/ (1 <= sm <= 12 /\ 0 <= sy <= 9999)).
Proof.
  unfold _bmo_my.
  destruct (re_search _BMO_DATE (path_name p)) as [m |] eqn:Hsearch.
  2:{ destruct (now w) as [sm sy]. exists sm, sy. auto. }
  unfold re_search in Hsearch.
  apply (ReFacts.search_from_inv _ _ _ _ _ (ReFacts.at_pos_start _)) in Hsearch.
  destruct Hsearch as (c0 & c' & g & Hc & Hrun & ->).
  cbv [_BMO_DATE seq lit map L list_ascii_of_string] in Hrun.
  do 5 (apply (AmountFacts.run_seq_next _ _ _ (path_name p) _ _ _ Hc) in Hrun;
        clear Hc; destruct Hrun as (? & ? & Hc & Hrun)).
  apply ReFacts.run_group in Hrun.
  destruct Hrun as (u & c1 & g1 & Hrest & Hpos & Hu & Hacc).
  unfold accept in Hacc. inversion Hacc; subst c' g. clear Hacc.
  destruct (ReFacts.at_pos_step _ _ c1 u Hc Hrest Hpos) as [_ Hslice].
  match goal with
  | |- context [Text.int_of (group ?m 2)] =>
    assert (Hgroup : group m 2 = u) by exact Hslice
  end.
  rewrite Hgroup.
  destruct (four_digits_int u Hu) as (y & -> & Hy).
  eexists. eexists. split; [reflexivity |]. right.
  split; [apply month_of_range | exact Hy].
Qed.

Lemma bmo_date_year (fn : str) (m : rmatch) :
  re_search _BMO_DATE fn = Some m ->
  exists y, Text.int_of (group m 2) = Some y /\ 0 <= y <= 9999.
Proof.
  intros Hsearch. unfold re_search in Hsearch.
  apply (ReFacts.search_from_inv _ _ _ _ _ (ReFacts.at_pos_start _)) in Hsearch.
  destruct Hsearch as (c0 & c' & g & Hc & Hrun & ->).
  cbv [_BMO_DATE seq lit map L list_ascii_of_string] in Hrun.
  do 5 (apply (AmountFacts.run_seq_next _ _ _ fn _ _ _ Hc) in Hrun;
        clear Hc; destruct Hrun as (? & ? & Hc & Hrun)).
  apply ReFacts.run_group in Hrun.
  destruct Hrun as (u & c1 & g1 & Hrest & Hpos & Hu & Hacc).
  unfold accept in Hacc. inversion Hacc; subst c' g. clear Hacc.
  destruct (ReFacts.at_pos_step _ _ c1 u Hc Hrest Hpos) as [_ Hslice].
  match goal with
  | |- context [Text.int_of (group ?m 2)] =>
    assert (Hgroup : group m 2 = u) by exact Hslice
  end.
  rewrite Hgroup. exact (four_digits_int u Hu).
Qed.

Lemma month_of_abbr (mo : Z) (more : str) :
  1 <= mo <= 12 -> month_of (month_abbr mo ++ more) = mo.
Proof.
  intros Hmo.
  assert (Hcases : mo = 1 \/ mo = 2 \/ mo = 3 \/ mo = 4 \/ mo = 5 \/ mo = 6 \/
                   mo = 7 \/ mo = 8 \/ mo = 9 \/ mo = 10 \/ mo = 11 \/ mo = 12) by lia.
  unfold month_of.
  repeat (destruct Hcases as [-> | Hcases]; [reflexivity |]). subst mo. reflexivity.
Qed.

(** [_bmo_my] never raises.  When the file name holds no long date it
    returns the current month and year.  When it holds one, the year is the
    number of the four digits of the date, and the month is the one that
    [strptime] reads in the first three letters of the word before the day,
    between 1 and 12: the month of a word that starts with the month's
    abbreviation, and 1 when [strptime] reads no month. *)
Theorem bmo_my_returns (w : world) (p : str) :
  (re_search _BMO_DATE (path_name p) = None -> _bmo_my w p = Ok (now w)) /\
  (forall m, re_search _BMO_DATE (path_name p) = Some m ->
     exists y,
       Text.int_of (group m 2) = Some y /\ 0 <= y <= 9999 /\
       1 <= month_of (group m 1) <= 12 /\
       _bmo_my w p = Ok (month_of (group m 1), y)) /\
  (forall mo more, 1 <= mo <= 12 -> month_of (month_abbr mo ++ more) = mo) /\
  (forall word, strptime_b (firstn 3 word) = None -> month_of word = 1).
Proof.
  refine (conj _ (conj _ (conj month_of_abbr _))).
  - intros Hnone. unfold _bmo_my. rewrite Hnone. reflexivity.
  - intros m Hm. destruct (bmo_date_year _ m Hm) as (y & Hy & Hrange).
    exists y. refine (conj Hy (conj Hrange (conj (month_of_range _) _))).
    unfold _bmo_my. rewrite Hm, Hy. reflexivity.
  - intros word Hnone. unfold month_of. rewrite Hnone. reflexivity.
Qed.

Lemma bmo_my_returns_witness :
  _bmo_my bmo_zero_fee (L "/in/BMO CAD January 5, 2024.pdf") = Ok (1, 2024) /\
  _bmo_my bmo_zero_fee (L "/in/statement.pdf") = Ok (1, 2024).
Proof.
  split.
  - destruct (re_search _BMO_DATE (path_name (L "/in/BMO CAD January 5, 2024.pdf")))
      as [m |] eqn:Hm; [| vm_compute in Hm; discriminate Hm].
    destruct (proj1 (proj2 (bmo_my_returns bmo_zero_fee
                              (L "/in/BMO CAD January 5, 2024.pdf"))) m Hm)
      as (y & Hy & _ & _ & ->).
    vm_compute in Hm. inversion Hm; subst m. clear Hm.
    vm_compute in Hy. inversion Hy; subst y. vm_compute. reflexivity.
  - apply (proj1 (bmo_my_returns bmo_zero_fee (L "/in/statement.pdf"))).
    vm_compute. reflexivity.
Defined.

(** A line of a BMO page never raises: [float] is given a numeral that it
    can read whenever the line matches the pattern. *)
Lemma bmo_line_returns fmt sm sy line :
  bmo_line fmt sm sy line = Ok (hd_error (bmo_rows_of_line fmt sm sy line)).
Proof.
  unfold bmo_rows_of_line.
  assert (Hok : exists r, bmo_line fmt sm sy line = Ok r).
  { unfold bmo_line.
    destruct (re_match _BMO_TRANS (Text.strip line)) as [m |] eqn:Hm; [| eauto].
    apply AmountFacts.bmo_trans_amount in Hm.
    apply AmountFacts.bmo_amount_text in Hm.
    destruct Hm as (sgn & body & d1 & d2 & sfx & -> & Hs & _ & Hbody & H1 & H2 & Hsfx).
    rewrite (AmountFacts.bmo_amt_numeral sgn body d1 d2 sfx Hs Hbody H1 H2 Hsfx).
    cbn [bind]. eauto. }
  destruct Hok as ([row |] & ->); reflexivity.
Qed.

Lemma for_each_collect {A S} (g : A -> list S) (body : list S -> A -> result (list S)) xs :
  (forall x, In x xs -> forall s, body s x = Ok (s ++ g x)) ->
  forall s, for_each xs body s = Ok (s ++ flat_map g xs).
Proof.
  induction xs as [| x xs IH]; intros Hbody s; cbn [for_each flat_map].
  - rewrite app_nil_r. reflexivity.
  - rewrite (Hbody x (or_introl eq_refl) s). cbn [bind].
    rewrite IH by (intros y Hy; apply Hbody; right; exact Hy).
    rewrite app_assoc. reflexivity.
Qed.


Lemma parse_bmo_on_text (w : world) (p : str) (doc : pdf) (sm sy : Z) :
  _bmo_my w p = Ok (sm, sy) ->
  open w p = Ok doc -> Forall has_text (pages doc) ->
  parse_bmo w p
  = Ok (flat_map (fun pg => flat_map (bmo_rows_of_line (_bmo_fmt w p) sm sy)
                                     (Text.splitlines (page_text pg)))
                 (pages doc)).
Proof.
  intros Hmy Hopen Htext. unfold parse_bmo. rewrite Hmy. cbn [bind].
  rewrite Hopen. cbn [bind].
  rewrite (for_each_collect
             (fun pg => flat_map (bmo_rows_of_line (_bmo_fmt w p) sm sy)
                                 (Text.splitlines (page_text pg)))); [reflexivity |].
  intros pg Hpg rows. rewrite Forall_forall in Htext.
  destruct (Htext pg Hpg) as (t & Ht). unfold page_text. rewrite Ht. cbn [bind].
  apply for_each_collect. intros line _ rows'.
  rewrite bmo_line_returns. cbn [bind]. unfold bmo_rows_of_line.
  destruct (bmo_line (_bmo_fmt w p) sm sy line) as [[row |] | e]; cbn [hd_error];
    rewrite ?app_nil_r; reflexivity.
Qed.



(** ** A document without pages *)

(** For a file that opens as a document without pages the BMO parser
    returns no row and the TD parser raises [IndexError]; so, once
    [detect_account] has returned, [main] fails when the account is
    unresolved or is a TD one, and succeeds with an empty list when the
    account is a BMO one. *)
Theorem pageless_document (w : world) (prog path : str) (more : list str) :
  fs w path = Some (Ok (Pdf [])) ->
  parse_bmo w path = Ok [] /\
  parse_td w path = Raise IndexError /\
  (forall account, detect_account path (hd_error more) = Ok account ->
     (has "BMO" account = true ->
      main w (prog :: path :: more) = success_result account (path_name path) []) /\
     (has "BMO" account = false ->
      main w (prog :: path :: more) = error_result (path_name path) IndexError)).
Proof.
  intros Hfs.
  assert (Hopen : open w path = Ok (Pdf [])) by (unfold open; rewrite Hfs; reflexivity).
  assert (Hbmo : parse_bmo w path = Ok []).
  { unfold parse_bmo. destruct (bmo_my_total w path) as (sm & sy & -> & _).
    cbn [bind]. rewrite Hopen. reflexivity. }
  assert (Htd : parse_td w path = Raise IndexError).
  { unfold parse_td. destruct (_td_my w (path_name path)) as [sm sy].
    unfold _td_type. rewrite Hopen. reflexivity. }
  refine (conj Hbmo (conj Htd _)).
  intros account Hacc. unfold main. rewrite Hfs, Hacc. cbn [bind]. split.
  - intros Hb. rewrite Hb, Hbmo. reflexivity.
  - intros Hb. rewrite Hb.
    destruct (has "TD" account).
    + rewrite Htd. reflexivity.
    + unfold parse_unknown. rewrite Hbmo. cbn [bind]. rewrite Htd. reflexivity.
Qed.

Lemma pageless_document_witness :
  main pageless_statement [program; L "/in/statement.pdf"]
  = error_result (L "statement.pdf") IndexError.
Proof.
  destruct (pageless_document pageless_statement program (L "/in/statement.pdf") [])
    as (_ & _ & Hmain).
  - reflexivity.
  - destruct (Hmain None) as (_ & Hfail); [vm_compute; reflexivity |].
    apply Hfail. reflexivity.
Defined.

(** ** Lines of words *)

Local Open Scope Q_scope.

Lemma insert_by_perm {A} (le : A -> A -> bool) x l :
  Permutation (insert_by le x l) (x :: l).
Proof.
  induction l as [| y l IH]; cbn [insert_by]; [reflexivity |].
  destruct (le x y); [reflexivity |].
  rewrite IH. apply perm_swap.
Qed.

Lemma sorted_by_perm {A} (le : A -> A -> bool) l : Permutation (sorted_by le l) l.
Proof.
  unfold sorted_by. induction l as [| x l IH]; cbn [fold_right]; [reflexivity |].
  rewrite insert_by_perm, IH. reflexivity.
Qed.

Lemma top_x0_le_order a b : top_x0_le a b = true <-> reading_order a b.
Proof.
  unfold top_x0_le, reading_order, Qleb.
  destruct (Qcompare (top a) (top b)) eqn:Hc.
  - apply Qeq_alt in Hc. rewrite Qle_bool_iff. split.
    + intros H. right. auto.
    + intros [H | [_ H]]; [rewrite Hc in H; exfalso; exact (Qlt_irrefl _ H) | exact H].
  - apply Qlt_alt in Hc. split; [auto | reflexivity].
  - apply Qgt_alt in Hc. split; [discriminate |].
    intros [H | [H _]]; exfalso; lra.
Qed.

Lemma top_x0_le_total a b : top_x0_le a b = false -> top_x0_le b a = true.
Proof.
  intros H. apply top_x0_le_order.
  assert (Hn : ~ reading_order a b).
  { intros Hr. apply top_x0_le_order in Hr. congruence. }
  unfold reading_order in *.
  destruct (Qlt_le_dec (top b) (top a)) as [Hlt | Hle]; [left; exact Hlt |].
  right. destruct (Qlt_le_dec (top a) (top b)) as [Hlt' | Hle'].
  - exfalso. apply Hn. left. exact Hlt'.
  - assert (Heq : top a == top b) by (apply Qle_antisym; assumption).
    split; [symmetry; exact Heq |].
    destruct (Qlt_le_dec (x0 a) (x0 b)) as [Hx | Hx]; [| exact Hx].
    exfalso. apply Hn. right. split; [exact Heq | apply Qlt_le_weak; exact Hx].
Qed.

Lemma insert_by_sorted x l :
  Sorted reading_order l -> Sorted reading_order (insert_by top_x0_le x l).
Proof.
  induction l as [| y l IH]; intros Hs; cbn [insert_by].
  - constructor; constructor.
  - destruct (top_x0_le x y) eqn:Hxy.
    + constructor; [exact Hs |]. constructor. apply top_x0_le_order. exact Hxy.
    + inversion Hs as [| ? ? Hl Hhd]; subst.
      constructor; [exact (IH Hl) |].
      destruct l as [| z l]; cbn [insert_by].
      * constructor. apply top_x0_le_order, top_x0_le_total. exact Hxy.
      * destruct (top_x0_le x z).
        -- constructor. apply top_x0_le_order, top_x0_le_total. exact Hxy.
        -- inversion Hhd; subst. constructor. assumption.
Qed.

Lemma sorted_by_sorted l : Sorted reading_order (sorted_by top_x0_le l).
Proof.
  unfold sorted_by. induction l as [| x l IH]; cbn [fold_right]; [constructor |].
  apply insert_by_sorted. exact IH.
Qed.

Lemma concat_close_lines lines cur :
  concat (close_lines lines cur) = concat lines ++ cur.
Proof.
  destruct cur as [| w cur]; cbn [close_lines].
  - rewrite app_nil_r. reflexivity.
  - rewrite concat_app. cbn [concat]. rewrite app_nil_r. reflexivity.
Qed.

Lemma td_lines_go_concat yt ws :
  forall lines cur ct,
    concat (td_lines_go yt ws lines cur ct) = concat lines ++ cur ++ ws.
Proof.
  induction ws as [| w ws IH]; intros lines cur ct; cbn [td_lines_go].
  - rewrite concat_close_lines, app_nil_r. reflexivity.
  - destruct (Qleb _ yt); rewrite IH.
    + rewrite <- app_assoc. reflexivity.
    + rewrite concat_close_lines, <- app_assoc. reflexivity.
Qed.

(** [_td_lines] loses no word and makes none up: its lines, one after the
    other, are the words it was given, in reading order. *)
Theorem td_lines_keeps_words (ws : list word) (yt : Q) :
  Permutation (concat (_td_lines ws yt)) ws /\
  Sorted reading_order (concat (_td_lines ws yt)).
Proof.
  unfold _td_lines. rewrite td_lines_go_concat. cbn [concat app].
  split; [apply sorted_by_perm | apply sorted_by_sorted].
Qed.

Lemma close_lines_within yt lines cur :
  Forall (line_within yt) lines -> (cur = [] \/ line_within yt cur) ->
  Forall (line_within yt) (close_lines lines cur).
Proof.
  intros Hl Hc. destruct cur as [| w cur]; cbn [close_lines]; [exact Hl |].
  apply Forall_app. split; [exact Hl |].
  constructor; [| constructor]. destruct Hc as [Hc | Hc]; [discriminate Hc | exact Hc].
Qed.

Lemma td_lines_go_within yt ws :
  forall lines cur ct,
    Forall (line_within yt) lines ->
    (cur = [] /\ ct = None \/
     exists w0 more, cur = w0 :: more /\ ct = Some (top w0) /\
                     Forall (fun w => Qabs (top w - top w0) <= yt) more) ->
    Forall (line_within yt) (td_lines_go yt ws lines cur ct).
Proof.
  induction ws as [| w ws IH]; intros lines cur ct Hl Hc; cbn [td_lines_go].
  - apply close_lines_within; [exact Hl |].
    destruct Hc as [[-> _] | (w0 & more & -> & _ & Hm)]; [left; reflexivity | right; exact Hm].
  - destruct Hc as [[-> ->] | (w0 & more & -> & -> & Hm)].
    + destruct (Qleb _ yt); apply IH; try exact Hl; right; exists w, []; auto.
    + destruct (Qleb (Qabs (top w - top w0)) yt) eqn:Hw.
      * apply IH; [exact Hl |]. right. exists w0, (more ++ [w]).
        split; [reflexivity |]. split; [reflexivity |].
        apply Forall_app. split; [exact Hm |]. constructor; [| constructor].
        apply Qle_bool_iff. exact Hw.
      * apply IH.
        -- apply close_lines_within; [exact Hl | right; exact Hm].
        -- right. exists w, []. auto.
Qed.

(** No line of [_td_lines] is empty, and in every line each word after the
    first has its top within the tolerance of the top of the first. *)
Theorem td_lines_within_tolerance (ws : list word) (yt : Q) :
  Forall (line_within yt) (_td_lines ws yt).
Proof.
  unfold _td_lines. apply td_lines_go_within; [constructor | left; auto].
Qed.

(** ** Reference numbers *)

Lemma fullmatch_matches r s m : re_fullmatch r s = Some m -> Matches r s.
Proof.
  unfold re_fullmatch.
  destruct (run r accept_end (start_cursor s) []) as [[c' g] |] eqn:Hrun; [| discriminate].
  intros _. apply ReFacts.run_sound in Hrun.
  destruct Hrun as (u & c1 & g1 & Hrest & _ & Hu & Hend).
  unfold accept_end in Hend. destruct (rest c1); [| discriminate Hend].
  cbn [start_cursor rest] in Hrest. rewrite app_nil_r in Hrest. subst u. exact Hu.
Qed.

(** What [_bmo_isref] takes for a reference is, blanks at the ends apart, a
    text of digits and dashes that starts with two digits and has seven
    characters or more; so the clean-up of a legacy description never drops a
    word with a letter in it. *)
Theorem bmo_isref_digits_and_dashes (t : str) :
  _bmo_isref t = true ->
  forallb (fun c => Text.is_digit c || Ascii.eqb c "-") (Text.strip t) = true /\
  (7 <= length (Text.strip t))%nat /\
  exists d1 d2 more,
    Text.strip t = d1 :: d2 :: more /\ Text.is_digit d1 = true /\ Text.is_digit d2 = true.
Proof.
  unfold _bmo_isref. intros H. apply orb_prop in H. destruct H as [H | H].
  - destruct (re_fullmatch _ (Text.strip t)) as [m |] eqn:Hm; [| discriminate H].
    apply fullmatch_matches, ReFacts.matches_rep_chr in Hm.
    destruct Hm as (Hall & Hlen & _). unfold digit in Hall.
    split; [| split].
    + revert Hall. apply TextFacts.forallb_weaken. intros c ->. reflexivity.
    + lia.
    + destruct (Text.strip t) as [| d1 [| d2 more]]; cbn [length] in Hlen; try lia.
      cbn [forallb] in Hall. apply andb_prop in Hall. destruct Hall as [H1 Hall].
      apply andb_prop in Hall. destruct Hall as [H2 _]. eauto 6.
  - destruct (re_fullmatch _ (Text.strip t)) as [m |] eqn:Hm; [| discriminate H].
    apply fullmatch_matches in Hm.
    cbv [seq lit map L list_ascii_of_string] in Hm.
    apply ReFacts.matches_seq in Hm. destruct Hm as (a & u & Heq & Ha & Hu).
    apply ReFacts.matches_seq in Hu. destruct Hu as (dash & b & -> & Hdash & Hb).
    apply AmountFacts.matches_is_char in Hdash. subst dash.
    apply ReFacts.matches_rep_chr in Ha, Hb.
    destruct Ha as (Ha & Hla & _), Hb as (Hb & Hlb & _). unfold digit in Ha.
    rewrite Heq. split; [| split].
    + assert (Ha' : forallb (fun c => Text.is_digit c || Ascii.eqb c "-") a = true)
        by (revert Ha; apply TextFacts.forallb_weaken; intros c ->; reflexivity).
      assert (Hb' : forallb (fun c => Text.is_digit c || Ascii.eqb c "-") b = true)
        by (revert Hb; apply TextFacts.forallb_weaken; intros c Hc; exact Hc).
      rewrite !forallb_app, Ha', Hb'. reflexivity.
    + rewrite !length_app. cbn [length]. lia.
    + destruct a as [| d1 [| d2 more]]; cbn [length] in Hla; try lia.
      cbn [forallb] in Ha. apply andb_prop in Ha. destruct Ha as [H1 Ha].
      apply andb_prop in Ha. destruct Ha as [H2 _].
      exists d1, d2, (more ++ ["-"%char] ++ b). auto.
Qed.

Lemma bmo_isref_digits_and_dashes_witness :
  (7 <= length (Text.strip (L " 12-3456-789 ")))%nat.
Proof.
  apply (bmo_isref_digits_and_dashes (L " 12-3456-789 ")). reflexivity.
Defined.

(** ** The list of entries of the credit-card layout *)

(** The line that stops a page hides all the lines after it: the page gives
    what the lines before the stop give. *)
Theorem cc_stop_ends_page (raw : list RawRow) (pre post : list cc_fields) (f : cc_fields) :
  cc_stops f = true ->
  cc_lines raw (pre ++ f :: post) = cc_lines raw pre.
Proof.
  intros Hstop. revert raw.
  induction pre as [| a pre IH]; intros raw; cbn [app cc_lines].
  - unfold cc_line. rewrite Hstop. reflexivity.
  - destruct (cc_line raw a) as [[| raw1] | e]; cbn [bind]; try reflexivity.
    apply IH.
Qed.

Lemma cc_stop_ends_page_witness :
  cc_lines [uber_entry] [toronto_line; total_line; payment_line]
  = cc_lines [uber_entry] [toronto_line].
Proof.
  apply (cc_stop_ends_page [uber_entry] [toronto_line] [payment_line] total_line).
  reflexivity.
Defined.

Lemma entry_grows_refl t : entry_grows t t.
Proof.
  repeat split. exists []. rewrite app_nil_r. reflexivity.
Qed.

Lemma entry_grows_trans t1 t2 t3 :
  entry_grows t1 t2 -> entry_grows t2 t3 -> entry_grows t1 t3.
Proof.
  intros (Hd & Ha & m & Hm) (Hd' & Ha' & m' & Hm'). repeat split; try congruence.
  exists (m ++ m'). rewrite Hm', Hm, app_assoc. reflexivity.
Qed.

Lemma Forall2_grows_refl raw : Forall2 entry_grows raw raw.
Proof. induction raw; constructor; auto using entry_grows_refl. Qed.

Lemma Forall2_grows_trans l1 :
  forall l2 l3, Forall2 entry_grows l1 l2 -> Forall2 entry_grows l2 l3 ->
                Forall2 entry_grows l1 l3.
Proof.
  induction l1 as [| a l1 IH]; intros l2 l3 H12 H23.
  - inversion H12; subst. inversion H23; subst. constructor.
  - inversion H12; subst. inversion H23; subst.
    constructor; [eapply entry_grows_trans; eassumption | eapply IH; eassumption].
Qed.

Lemma entries_grow_refl raw : entries_grow raw raw.
Proof.
  exists raw, []. rewrite app_nil_r. split; [reflexivity | apply Forall2_grows_refl].
Qed.

Lemma entries_grow_trans r1 r2 r3 :
  entries_grow r1 r2 -> entries_grow r2 r3 -> entries_grow r1 r3.
Proof.
  intros (k & a & -> & Hk) (k' & a' & -> & Hk').
  apply Forall2_app_inv_l in Hk'. destruct Hk' as (k1 & k2 & Hk1 & Hk2 & ->).
  exists k1, (k2 ++ a'). split; [rewrite app_assoc; reflexivity |].
  eapply Forall2_grows_trans; eassumption.
Qed.

Lemma append_to_last_grows raw desc :
  Forall2 entry_grows raw (append_to_last raw desc).
Proof.
  induction raw as [| t raw IH]; cbn [append_to_last]; [constructor |].
  destruct raw as [| t' raw'].
  - constructor; [| constructor]. repeat split. cbn [RawDescription]. eauto.
  - constructor; [apply entry_grows_refl | exact IH].
Qed.

Lemma cc_line_grows raw f raw' :
  cc_line raw f = Ok (Continue raw') -> entries_grow raw raw'.
Proof.
  unfold cc_line.
  destruct (cc_stops f); [discriminate |].
  destruct (cc_skipped f); [intros H; inversion H; subst; apply entries_grow_refl |].
  destruct (_td_amt (f_ar f)) as [an | e]; [| discriminate]. cbn [bind].
  assert (Hcont :
    (if negb (is_empty (f_desc f)) && negb (is_empty raw)
     then Ok (Continue (append_to_last raw (f_desc f)))
     else Ok (Continue raw)) = Ok (Continue raw') ->
    entries_grow raw raw').
  { destruct (negb (is_empty (f_desc f)) && negb (is_empty raw));
      intros H; inversion H; subst; [| apply entries_grow_refl].
    exists (append_to_last raw (f_desc f)), []. rewrite app_nil_r.
    split; [reflexivity | apply append_to_last_grows]. }
  destruct (re_search td_month_day (f_ds f)) as [m |]; [| exact Hcont].
  destruct (Qltb 0 an); [| exact Hcont].
  intros H. inversion H; subst.
  eexists raw, _. split; [reflexivity | apply Forall2_grows_refl].
Qed.

Lemma cc_lines_grow fs :
  forall raw raw', cc_lines raw fs = Ok raw' -> entries_grow raw raw'.
Proof.
  induction fs as [| f fs IH]; intros raw raw' H; cbn [cc_lines] in H.
  - inversion H; subst. apply entries_grow_refl.
  - destruct (cc_line raw f) as [[| raw1] | e] eqn:Hline; cbn [bind] in H;
      try discriminate H.
    + inversion H; subst. apply entries_grow_refl.
    + eapply entries_grow_trans; [exact (cc_line_grows _ _ _ Hline) | exact (IH _ _ H)].
Qed.

(** A page of the credit-card layout never removes an entry, never moves
    one and never changes its date or its amount: the entries found on earlier
    pages stay in their places, a description can only get longer, and new
    entries come after them. *)
Theorem cc_page_keeps_entries (raw raw' : list RawRow) (pg : page) :
  cc_page raw pg = Ok raw' -> entries_grow raw raw'.
Proof.
  unfold cc_page.
  destruct (_td_up pg 1) as [words | e]; [| discriminate]. cbn [bind].
  destruct words as [| w0 words]; [intros H; inversion H; subst; apply entries_grow_refl |].
  destruct (find _ (w0 :: words)) as [hw |];
    [| intros H; inversion H; subst; apply entries_grow_refl].
  apply cc_lines_grow.
Qed.

Lemma cc_page_keeps_entries_witness :
  cc_page [uber_entry] visa_page
  = Ok [MkRaw (L "DEC28") (L "UBER TRIP TORONTO ON") (Qmake (-1234) 100);
        MkRaw (L "JAN02") (L "PAYMENT") (Qmake 10000 100)] /\
  entries_grow [uber_entry]
               [MkRaw (L "DEC28") (L "UBER TRIP TORONTO ON") (Qmake (-1234) 100);
                MkRaw (L "JAN02") (L "PAYMENT") (Qmake 10000 100)].
Proof.
  assert (Hpage : cc_page [uber_entry] visa_page
                  = Ok [MkRaw (L "DEC28") (L "UBER TRIP TORONTO ON") (Qmake (-1234) 100);
                        MkRaw (L "JAN02") (L "PAYMENT") (Qmake 10000 100)])
    by (vm_compute; reflexivity).
  split; [exact Hpage |].
  exact (cc_page_keeps_entries _ _ visa_page Hpage).
Defined.

(** ** Days of the calendar *)

Local Open Scope Z_scope.

(** Every day of the calendar, February up to the 28th, is resolved to the
    ISO date of that month and day: written "Jan 5" or "Jan.5" for
    [_bmo_date], "JAN05" for [_td_date]. *)
Theorem calendar_days_resolve (mo d sm sy : Z) :
  1 <= mo <= 12 -> 1 <= d <= days_in_month_1900 mo ->
  _bmo_date (month_abbr mo ++ L " " ++ Text.of_Z d) sm sy
  = iso_date (roll_year mo sm sy) mo d /\
  _bmo_date (month_abbr mo ++ L "." ++ Text.of_Z d) sm sy
  = iso_date (roll_year mo sm sy) mo d /\
  _td_date (Text.upper (month_abbr mo) ++ Text.pad2 d) sm sy
  = iso_date (roll_year mo sm sy) mo d.
Proof.
  intros Hmo Hd.
  destruct (calendar_tokens_read mo d Hmo Hd) as (H1 & H2 & H3).
  rewrite !bmo_date_reads, td_date_reads, H1, H2, H3. auto.
Qed.

Lemma calendar_days_resolve_witness :
  _bmo_date (L "Feb 28") 3 2024 = L "2024-02-28" /\
  _td_date (L "DEC31") 1 2024 = L "2023-12-31".
Proof.
  assert (Hfeb : 1 <= 2 <= 12 /\ 1 <= 28 <= days_in_month_1900 2)
    by (vm_compute; intuition discriminate).
  assert (Hdec : 1 <= 12 <= 12 /\ 1 <= 31 <= days_in_month_1900 12)
    by (vm_compute; intuition discriminate).
  split.
  - exact (proj1 (calendar_days_resolve 2 28 3 2024 (proj1 Hfeb) (proj2 Hfeb))).
  - exact (proj2 (proj2 (calendar_days_resolve 12 31 1 2024 (proj1 Hdec) (proj2 Hdec)))).
Defined.

(** ** Amounts of the TD layouts *)

Local Open Scope Q_scope.

(** [_td_amt] never raises: it returns zero for a text without a numeral and
    otherwise a whole number of hundredths that is not negative, so that
    [float] always gets a text it can read. *)
Theorem td_amt_never_raises (s : str) :
  exists v n,
    _td_amt s = Ok v /\ (0 <= n)%Z /\ v == Qmake n 100 /\
    (found td_numeral s = false -> v == 0).
Proof.
  destruct (AmountFacts.td_amt_total s) as (n & Hn & [[Hv ->] | Hv]).
  - exists 0, 0%Z. repeat split; try assumption; reflexivity.
  - exists (Qmake n 100), n. repeat split; try assumption; try reflexivity.
    intros Hnone. unfold found in Hnone. unfold _td_amt in Hv.
    destruct (re_search td_numeral s); [discriminate Hnone |].
    inversion Hv.
Qed.

(** ** The exit status *)

Local Open Scope Z_scope.

(** Every object that [main] prints has the key [error]; the exit status is
    0 when its value is [null] and 1 otherwise. *)
Theorem exit_status_tells_error (w : world) (argv : list str) :
  (snd (main w argv) = 0 /\ field (L "error") (fst (main w argv)) = Some JNull) \/
  (snd (main w argv) = 1 /\
   exists msg, field (L "error") (fst (main w argv)) = Some (JStr msg)).
Proof.
  unfold main.
  destruct argv as [| prog [| path more]]; [right; cbn; eauto | right; cbn; eauto |].
  destruct (fs w path); [| right; cbn; eauto].
  match goal with
  | |- context [match ?parsed with Ok _ => _ | Raise _ => _ end] =>
    destruct parsed as [[account transactions] | e]
  end; [left | right]; cbn; eauto.
Qed.

(** ** Descriptions are words joined by single blanks *)

Module Blanks.
Import Text TextFacts.

Local Open Scope nat_scope.

Lemma span_by_length p s : length (snd (span_by p s)) <= length s.
Proof.
  induction s as [| x s IH]; cbn [span_by]; [reflexivity |].
  destruct (p x); [| reflexivity].
  destruct (span_by p s) as [a b]. cbn [snd length] in *. lia.
Qed.

Lemma run_chr p k c g :
  Re.run (Re.Chr p) k c g
  = match Re.rest c with
    | x :: xs => if p x then k (Re.Cur (S (Re.pos c)) (Some x) xs) g else None
    | [] => None
    end.
Proof. reflexivity. Qed.

(** A greedy repetition of one class, followed by nothing that can fail,
    takes the longest run of the class. *)
Lemma rep_class_accept p fuel :
  forall lo c g,
    length (Re.rest c) < fuel ->
    exists c',
      Re.rest c' = snd (span_by p (Re.rest c)) /\
      Re.rep (Re.run (Re.Chr p)) true lo None fuel Re.accept c g
      = if lo <=? length (fst (span_by p (Re.rest c))) then Some (c', g) else None.
Proof.
  induction fuel as [| fuel IH]; intros lo c g Hlen; [lia |].
  destruct c as [ps pv rs]. cbn [Re.rest] in *.
  cbn [Re.rep Re.hi_open Re.hi_pred option_map]. rewrite run_chr.
  cbn [Re.rest Re.pos].
  destruct rs as [| x xs].
  - cbn [span_by fst snd length Re.orelse].
    exists (Re.Cur ps pv []). split; [reflexivity |].
    destruct lo; reflexivity.
  - cbn [span_by]. destruct (p x) eqn:Hp.
    + cbn [Re.rest length].
      replace (length xs <? S (length xs)) with true
        by (symmetry; apply Nat.ltb_lt; lia).
      destruct (IH (Nat.pred lo) (Re.Cur (S ps) (Some x) xs) g) as (c' & Hrest & Hrep).
      { cbn [Re.rest length] in *. lia. }
      cbn [Re.rest] in Hrest, Hrep. rewrite Hrep.
      destruct (span_by p xs) as [a b]. cbn [fst snd length] in *.
      exists c'. split; [exact Hrest |].
      destruct lo as [| lo]; cbn [Nat.pred].
      * reflexivity.
      * cbn [Nat.leb]. destruct (lo <=? length a); reflexivity.
    + cbn [Re.orelse fst snd length].
      exists (Re.Cur ps pv (x :: xs)). split; [reflexivity |].
      destruct lo; reflexivity.
Qed.

Lemma collapse_skip_span s :
  collapse_go true s = collapse_go false (snd (span_by is_space s)).
Proof.
  induction s as [| x s IH]; [reflexivity |].
  cbn [collapse_go span_by]. destruct (is_space x) eqn:Hx.
  - rewrite IH. destruct (span_by is_space s) as [a b]. reflexivity.
  - cbn [snd collapse_go]. rewrite Hx. reflexivity.
Qed.

(** [re.sub(r'\s+', ' ', s)], read off the text. *)
Lemma sub_blanks s fuel :
  forall c,
    length (Re.rest c) <= fuel ->
    Re.sub_from (Re.plus (Re.Chr Re.space)) [Re.Lit (L " ")] s fuel c
    = collapse_go false (Re.rest c).
Proof.
  induction fuel as [| fuel IH]; intros c Hlen.
  - cbn [Re.sub_from]. destruct (Re.rest c); [reflexivity | cbn [length] in Hlen; lia].
  - cbn [Re.sub_from]. destruct (Re.rest c) as [| x xs] eqn:Hrest; [reflexivity |].
    cbn [length] in Hlen.
    change (Re.run (Re.plus (Re.Chr Re.space)) Re.accept c [])
      with (Re.rep (Re.run (Re.Chr Re.space)) true 1 None
                   (S (length (Re.rest c))) Re.accept c []).
    destruct (rep_class_accept Re.space (S (length (Re.rest c))) 1 c []) as (c' & Hc' & Hrep);
      [lia |].
    rewrite Hrep, Hrest. clear Hrep. rewrite Hrest in Hc'.
    cbn [span_by] in Hc' |- *. unfold Re.space in *.
    cbn [collapse_go]. destruct (is_space x) eqn:Hx.
    + pose proof (span_by_length is_space xs) as Hspan.
      destruct (span_by is_space xs) as [a b] eqn:Hab. cbn [fst snd length] in *.
      cbn [Nat.leb]. rewrite Hc'.
      replace (length b <? S (length xs)) with true
        by (symmetry; apply Nat.ltb_lt; lia).
      cbn [Re.expand flat_map app L list_ascii_of_string].
      rewrite IH by (rewrite Hc'; lia).
      rewrite Hc', collapse_skip_span, Hab. reflexivity.
    + cbn [fst length Nat.leb]. rewrite IH by (cbn [Re.rest]; lia). reflexivity.
Qed.

Lemma lstrip_collapse_skip s :
  lstrip_by is_space (collapse_go true s) = collapse_go true s.
Proof.
  induction s as [| x s IH]; [reflexivity |].
  cbn [collapse_go]. destruct (is_space x) eqn:Hx; [exact IH |].
  apply lstrip_by_stop. exact Hx.
Qed.

Lemma lstrip_collapse s :
  lstrip_by is_space (collapse_go false s) = collapse_go true s.
Proof.
  destruct s as [| x s]; [reflexivity |].
  cbn [collapse_go]. destruct (is_space x) eqn:Hx.
  - cbn [lstrip_by]. change (is_space " ") with true. cbv iota.
    apply lstrip_collapse_skip.
  - apply lstrip_by_stop. exact Hx.
Qed.

Lemma lstrip_by_app p a b :
  lstrip_by p (a ++ b)
  = if is_empty (lstrip_by p a) then lstrip_by p b else lstrip_by p a ++ b.
Proof.
  induction a as [| x a IH]; [reflexivity |].
  cbn [app lstrip_by]. destruct (p x); [exact IH | reflexivity].
Qed.

Lemma is_empty_rev {A} (l : list A) : is_empty (rev l) = is_empty l.
Proof.
  destruct l as [| x l]; [reflexivity |]. cbn [rev is_empty].
  destruct (rev l); reflexivity.
Qed.

Lemma rstrip_by_app p a b :
  rstrip_by p (a ++ b)
  = if is_empty (rstrip_by p b) then rstrip_by p a else a ++ rstrip_by p b.
Proof.
  unfold rstrip_by. rewrite rev_app_distr, lstrip_by_app, is_empty_rev.
  destruct (is_empty (lstrip_by p (rev b))); [reflexivity |].
  rewrite rev_app_distr, rev_involutive. reflexivity.
Qed.

Lemma rstrip_blank_then t :
  rstrip_by is_space (" "%char :: t)
  = if is_empty (rstrip_by is_space t) then [] else " "%char :: rstrip_by is_space t.
Proof.
  change (" "%char :: t) with ([" "%char] ++ t). rewrite rstrip_by_app.
  destruct (is_empty (rstrip_by is_space t)); reflexivity.
Qed.

Lemma split_go_words s :
  forall cur, (cur = [] \/ is_word_text (rev cur)) ->
              Forall is_word_text (split_go cur s).
Proof.
  induction s as [| x s IH]; intros cur Hcur; cbn [split_go].
  - destruct cur as [| y cur]; [constructor |].
    destruct Hcur as [Hcur | Hcur]; [discriminate Hcur |]. constructor; [exact Hcur | constructor].
  - destruct (is_space x) eqn:Hx.
    + destruct cur as [| y cur]; [apply IH; left; reflexivity |].
      destruct Hcur as [Hcur | Hcur]; [discriminate Hcur |].
      constructor; [exact Hcur | apply IH; left; reflexivity].
    + apply IH. right. split.
      * cbn [rev]. intros E. apply app_eq_nil in E. destruct E as [_ E]. discriminate E.
      * cbn [rev]. rewrite forallb_app. cbn [forallb]. rewrite Hx. cbn [negb andb].
        rewrite andb_true_r.
        destruct Hcur as [-> | [_ Hcur]]; [reflexivity | exact Hcur].
Qed.

Lemma join_words_not_empty (w : str) (ws : list str) :
  w <> [] -> is_empty (join (L " ") (w :: ws)) = false.
Proof.
  intros Hw. cbn [join]. destruct w as [| x w]; [contradiction |].
  destruct ws; reflexivity.
Qed.

Lemma join_cons (w : str) (ws : list str) :
  join (L " ") (w :: ws)
  = if is_empty ws then w else w ++ " "%char :: join (L " ") ws.
Proof. destruct ws; reflexivity. Qed.

(** The two cases of the scan: inside a word, whose characters so far are
    [cur] in reverse, and between words. *)
Lemma rstrip_collapse_words s :
  (forall y cur, is_space y = false ->
     rstrip_by is_space (rev (y :: cur) ++ collapse_go false s)
     = join (L " ") (split_go (y :: cur) s)) /\
  rstrip_by is_space (collapse_go true s) = join (L " ") (split_go [] s).
Proof.
  induction s as [| x s [IHword IHgap]].
  - split; [| reflexivity].
    intros y cur Hy. cbn [collapse_go split_go join]. rewrite app_nil_r.
    cbn [rev]. apply rstrip_by_keep. exact Hy.
  - split.
    + intros y cur Hy. cbn [collapse_go split_go]. destruct (is_space x) eqn:Hx.
      * rewrite rstrip_by_app, rstrip_blank_then, IHgap, join_cons.
        pose proof (split_go_words s [] (or_introl eq_refl)) as Hwords.
        destruct (split_go [] s) as [| w ws] eqn:Hsplit.
        -- cbn [join is_empty]. cbn [rev]. apply rstrip_by_keep. exact Hy.
        -- inversion Hwords as [| ? ? [Hw _] _]; subst.
           rewrite (join_words_not_empty w ws Hw). cbn [is_empty]. reflexivity.
      * rewrite <- (IHword x (y :: cur) Hx).
        cbn [rev]. rewrite <- !app_assoc. reflexivity.
    + cbn [collapse_go split_go]. destruct (is_space x) eqn:Hx; [exact IHgap |].
      rewrite <- (IHword x [] Hx). reflexivity.
Qed.

Lemma strip_collapse s :
  strip (collapse_go false s) = join (L " ") (split s).
Proof.
  unfold strip, split. rewrite lstrip_collapse.
  apply rstrip_collapse_words.
Qed.

(** Words joined by single blanks are split into the same words. *)
Lemma split_go_word w :
  forallb (fun c => negb (is_space c)) w = true ->
  forall cur s, split_go cur (w ++ s) = split_go (rev w ++ cur) s.
Proof.
  induction w as [| x w IH]; intros Hw cur s; [reflexivity |].
  cbn [forallb] in Hw. apply andb_prop in Hw. destruct Hw as [Hx Hw].
  apply negb_true_iff in Hx. cbn [app split_go]. rewrite Hx.
  rewrite (IH Hw). cbn [rev]. rewrite <- app_assoc. reflexivity.
Qed.

Lemma split_join ws :
  Forall is_word_text ws -> split (join (L " ") ws) = ws.
Proof.
  unfold split. induction ws as [| w ws IH]; intros Hws; [reflexivity |].
  inversion Hws as [| ? ? [Hne Hw] Hws']; subst.
  rewrite join_cons. destruct ws as [| w' ws].
  - cbn [is_empty]. rewrite <- (app_nil_r w) at 1.
    rewrite (split_go_word w Hw), app_nil_r. cbn [split_go].
    destruct (rev w) eqn:E; [| rewrite <- E, rev_involutive; reflexivity].
    apply (f_equal (@rev ascii)) in E. rewrite rev_involutive in E. contradiction.
  - cbn [is_empty]. rewrite (split_go_word w Hw), app_nil_r.
    cbn [split_go]. change (is_space " ") with true. cbv iota.
    destruct (rev w) eqn:E.
    + apply (f_equal (@rev ascii)) in E. rewrite rev_involutive in E. contradiction.
    + rewrite <- E, rev_involutive. f_equal. exact (IH Hws').
Qed.

End Blanks.

(** [re.sub(r'\s+', ' ', d).strip()], the last step of [_bmo_human] and of the
    descriptions of both TD layouts, gives the words of [d] joined by single
    blanks, that is [' '.join(d.split())]; the result has no blank at
    either end, no blank other than the space and no two blanks in a row, and
    applying the step again changes nothing. *)
Theorem description_is_joined_words (d : str) :
  Text.strip (re_sub (plus (Chr space)) [Lit (L " ")] d) = Text.join (L " ") (Text.split d) /\
  normalized (Text.join (L " ") (Text.split d)).
Proof.
  split.
  - unfold re_sub. rewrite Blanks.sub_blanks by (cbn [start_cursor rest]; lia).
    apply Blanks.strip_collapse.
  - unfold normalized. rewrite Blanks.split_join; [reflexivity |].
    apply (Blanks.split_go_words d []). left. reflexivity.
Qed.

Lemma normalized_step d :
  normalized (Text.strip (re_sub (plus (Chr space)) [Lit (L " ")] d)).
Proof.
  unfold re_sub. rewrite Blanks.sub_blanks by (cbn [start_cursor rest]; lia).
  rewrite Blanks.strip_collapse. unfold normalized.
  rewrite Blanks.split_join; [reflexivity |].
  apply (Blanks.split_go_words d []). left. reflexivity.
Qed.

Lemma parse_td_chk_rows_from (Q : Row -> Prop) w p sm sy rows :
  (forall r row, chk_row r sm sy = Ok (Some row) -> Q row) ->
  parse_td_chk w p sm sy = Ok rows -> Forall Q rows.
Proof.
  intros HQ. unfold parse_td_chk. destruct (open w p) as [doc | e]; [| discriminate].
  cbn [bind]. apply for_each_invariant; [| constructor].
  intros s pg s' Hs. unfold chk_page.
  destruct (_td_up pg 2) as [words | e]; [| discriminate]. cbn [bind].
  destruct words as [| w0 words]; [intros H; inversion H; subst; exact Hs |].
  destruct (find _ (w0 :: words)) as [hw |]; [| intros H; inversion H; subst; exact Hs].
  destruct (col_with _) as [cw |]; [| intros H; inversion H; subst; exact Hs].
  destruct (col_dep _) as [cd |]; [| intros H; inversion H; subst; exact Hs].
  apply for_each_invariant; [| exact Hs].
  intros rows0 line rows1 Hrows0.
  destruct (chk_row _ sm sy) as [[row |] | e] eqn:Hrow; cbn [bind]; try discriminate;
    intros H; inversion H; subst; [| exact Hrows0].
  apply Forall_snoc; [exact Hrows0 | exact (HQ _ _ Hrow)].
Qed.

(** Every description that the TD parser returns, in both layouts, and every
    description of a BMO line in the legacy format is made of its words
    joined by single blanks. *)
Theorem descriptions_are_normalized (w : world) (p : str) :
  (forall rows, parse_td w p = Ok rows ->
                Forall (fun row => normalized (Description row)) rows) /\
  (forall sm sy line row, bmo_line legacy sm sy line = Ok (Some row) ->
                          normalized (Description row)).
Proof.
  split.
  - intros rows. unfold parse_td. destruct (_td_my w (path_name p)) as [sm sy].
    destruct (_td_type w p) as [[|] | e]; cbn [bind]; try discriminate.
    + unfold parse_td_cc. destruct (open w p) as [doc | e]; [| discriminate].
      cbn [bind]. destruct (for_each (pages doc) cc_page []) as [raw | e]; [| discriminate].
      cbn [bind]. intros H. inversion H; subst.
      apply Forall_map. apply Forall_forall. intros t _. cbn [Description].
      apply normalized_step.
    + apply parse_td_chk_rows_from. intros r row. unfold chk_row.
      destruct (is_empty _ || existsb _ CHK_SKIP); [discriminate |].
      destruct (re_search td_month_day _) as [dm |]; [| discriminate].
      destruct (chk_amount _ _) as [[a |] | e]; cbn [bind]; try discriminate.
      destruct (Qeq_bool a 0); [discriminate |].
      intros H. inversion H; subst. cbn [Description]. apply normalized_step.
  - intros sm sy line row. unfold bmo_line.
    destruct (re_match _BMO_TRANS (Text.strip line)) as [m |]; [| discriminate].
    destruct (_bmo_amt (group m 4)) as [amt | e]; cbn [bind]; [| discriminate].
    intros H. inversion H; subst. cbn [Description].
    unfold _bmo_human. apply normalized_step.
Qed.

Lemma descriptions_are_normalized_witness :
  normalized (L "AMAZON.CAPURCHASE 123456789").
Proof.
  destruct (descriptions_are_normalized no_files []) as (_ & Hbmo).
  apply (Hbmo 1%Z 2024%Z (L "Jan.5 Jan.6 AMAZON.CAPURCHASE123456789 45.67")
              (MkRow (L "2024-01-05") (L "AMAZON.CAPURCHASE 123456789")
                     (Qopp (Qmake 4567 100)))).
  vm_compute. reflexivity.
Defined.

(** ** The statement anchor of a TD file name *)

Module Groupless.
Import ReFacts.

Local Open Scope nat_scope.

Lemma rep_keeps_caps r body :
  keeps_caps r body ->
  forall fuel gr lo hi, keeps_caps (Rep gr lo hi r) (fun k => rep body gr lo hi fuel k).
Proof.
  intros Hbody fuel.
  induction fuel as [| fuel IH]; intros gr lo hi k c g a H; [discriminate H |].
  cbn [rep] in H.
  assert (Hcase :
    (if Nat.eqb lo 0 then k c g else None) = Some a \/
    (if hi_open hi
     then body (fun c' g' =>
                  if length (rest c') <? length (rest c)
                  then rep body gr (Nat.pred lo) (hi_pred hi) fuel k c' g'
                  else None) c g
     else None) = Some a).
  { destruct gr; apply orelse_some in H; tauto. }
  clear H. destruct Hcase as [H | H].
  - destruct (Nat.eqb lo 0) eqn:Hlo; [| discriminate H].
    apply Nat.eqb_eq in Hlo. subst lo.
    exists [], c. cbn [app length]. rewrite Nat.add_0_r. auto using MRepStop.
  - destruct (hi_open hi) eqn:Hhi; [| discriminate H].
    apply Hbody in H. destruct H as (u1 & c1 & Hrest1 & Hpos1 & Hm1 & Hk1).
    destruct (length (rest c1) <? length (rest c)); [| discriminate Hk1].
    apply IH in Hk1. destruct Hk1 as (u2 & c2 & Hrest2 & Hpos2 & Hm2 & Hk2).
    exists (u1 ++ u2), c2. repeat split.
    + rewrite Hrest1, Hrest2. apply app_assoc.
    + rewrite Hpos2, Hpos1, length_app. lia.
    + apply MRepMore; assumption.
    + assumption.
Qed.

(** A pattern without groups hands the groups on as it found them. *)
Lemma run_keeps_caps r : groupless r = true -> keeps_caps r (run r).
Proof.
  induction r as [| p | r1 IH1 r2 IH2 | r1 IH1 r2 IH2 | gr lo hi r IH | n r IH | | |];
    cbn [groupless]; intros Hg k c g a H; cbn [run] in H.
  - exists [], c. cbn [app length]. rewrite Nat.add_0_r. auto using MEps.
  - destruct c as [ps pv [| x xs]]; cbn [rest pos] in H; [discriminate H |].
    destruct (p x) eqn:Hp; [| discriminate H].
    exists [x], (Cur (S ps) (Some x) xs). cbn [rest pos app length].
    repeat split; auto using MChr. lia.
  - apply andb_prop in Hg. destruct Hg as [Hg1 Hg2].
    apply (IH1 Hg1) in H. destruct H as (u1 & c1 & Hr1 & Hp1 & Hm1 & H).
    apply (IH2 Hg2) in H. destruct H as (u2 & c2 & Hr2 & Hp2 & Hm2 & H).
    exists (u1 ++ u2), c2. repeat split.
    + rewrite Hr1, Hr2. apply app_assoc.
    + rewrite Hp2, Hp1, length_app. lia.
    + apply MSeq; assumption.
    + assumption.
  - apply andb_prop in Hg. destruct Hg as [Hg1 Hg2].
    apply orelse_some in H. destruct H as [H | H].
    + apply (IH1 Hg1) in H. destruct H as (u & c' & ? & ? & ? & ?).
      exists u, c'. auto using MAltL.
    + apply (IH2 Hg2) in H. destruct H as (u & c' & ? & ? & ? & ?).
      exists u, c'. auto using MAltR.
  - exact (rep_keeps_caps r (run r) (IH Hg) (S (length (rest c))) gr lo hi k c g a H).
  - discriminate Hg.
  - destruct (Nat.eqb (pos c) 0); [| discriminate H].
    exists [], c. cbn [app length]. rewrite Nat.add_0_r. auto using MBol.
  - exists [], c. cbn [app length]. rewrite Nat.add_0_r. repeat split; auto using MEol.
    destruct (rest c) as [| x [| y l]]; try assumption; try discriminate H.
    destruct (Ascii.eqb x "010"); [assumption | discriminate H].
  - destruct (xorb _ _); [| discriminate H].
    exists [], c. cbn [app length]. rewrite Nat.add_0_r. auto using MWordB.
Qed.

(** A match of a pattern that ends in: second group, then a part without
    groups.  The second group holds a text of the group's pattern. *)
Lemma second_group_then r tail s c g c' g' :
  groupless tail = true ->
  at_pos s c ->
  run (Seq (Grp 2 r) tail) accept c g = Some (c', g') ->
  exists u, Matches r u /\ forall a b, group (Match s a b g') 2 = u.
Proof.
  intros Htail Hc H. cbn [run] in H. apply run_sound in H.
  destruct H as (u & c1 & g1 & Hrest & Hpos & Hu & Hk).
  apply (run_keeps_caps tail Htail) in Hk.
  destruct Hk as (u2 & c2 & _ & _ & _ & Hacc).
  unfold accept in Hacc. inversion Hacc; subst c' g'. clear Hacc.
  destruct (at_pos_step s c c1 u Hc Hrest Hpos) as [_ Hslice].
  exists u. split; [exact Hu |]. intros a b. exact Hslice.
Qed.

End Groupless.

Local Open Scope Z_scope.

Lemma td_pattern_year (fn : str) (pat : re) (m : rmatch) :
  In pat td_name_patterns ->
  re_search pat fn = Some m ->
  exists y, Text.int_of (group m 2) = Some y /\ 0 <= y <= 9999.
Proof.
  intros Hpat Hsearch. unfold re_search in Hsearch.
  apply (ReFacts.search_from_inv _ _ _ _ _ (ReFacts.at_pos_start _)) in Hsearch.
  destruct Hsearch as (c0 & c' & g & Hc & Hrun & ->).
  assert (Hgroup : exists u, Matches (times 4 4 (Chr digit)) u /\
                             group (Match fn (pos c0) (pos c') g) 2 = u).
  { unfold td_name_patterns in Hpat. cbn [In] in Hpat.
    destruct Hpat as [<- | [<- | []]];
      cbv [seq lit lit_i map L list_ascii_of_string] in Hrun.
    - do 5 (apply (AmountFacts.run_seq_next _ _ _ fn _ _ _ Hc) in Hrun;
            clear Hc; destruct Hrun as (? & ? & Hc & Hrun)).
      pose proof (fun Ht => Groupless.second_group_then _ _ fn _ _ _ _ Ht Hc Hrun) as Hsg.
      destruct (Hsg eq_refl) as (u & Hu & Hg). exists u. auto.
    - do 5 (apply (AmountFacts.run_seq_next _ _ _ fn _ _ _ Hc) in Hrun;
            clear Hc; destruct Hrun as (? & ? & Hc & Hrun)).
      pose proof (fun Ht => Groupless.second_group_then _ _ fn _ _ _ _ Ht Hc Hrun) as Hsg.
      destruct (Hsg eq_refl) as (u & Hu & Hg). exists u. auto. }
  destruct Hgroup as (u & Hu & ->). exact (four_digits_int u Hu).
Qed.

Lemma first_some_skips {A B} (f : A -> option B) (pre : list A) (l : list A) :
  Forall (fun a => f a = None) pre -> first_some f (pre ++ l) = first_some f l.
Proof.
  induction 1 as [| a pre Ha _ IH]; [reflexivity |].
  cbn [app first_some]. rewrite Ha. exact IH.
Qed.

Lemma first_some_ext {A B} (f g : A -> option B) (l : list A) :
  (forall a, In a l -> f a = g a) -> first_some f l = first_some g l.
Proof.
  induction l as [| a l IH]; intros Hfg; [reflexivity |].
  cbn [first_some]. rewrite (Hfg a (or_introl eq_refl)).
  destruct (g a); [reflexivity |]. apply IH. intros b Hb. apply Hfg. right. exact Hb.
Qed.

Lemma td_my_reads (w : world) (fn : str) :
  _td_my w fn
  = match first_some
            (fun pat => match td_anchor_in fn pat with
                        | Some (mo, ytext) =>
                          match Text.int_of ytext with
                          | Some y => Some (mo, y)
                          | None => None
                          end
                        | None => None
                        end) td_name_patterns with
    | Some my => my
    | None => now w
    end.
Proof.
  unfold _td_my.
  match goal with
  | |- match first_some ?f _ with _ => _ end = match first_some ?g _ with _ => _ end =>
    rewrite (first_some_ext f g); [reflexivity |]
  end.
  intros pat _. unfold td_anchor_in.
  destruct (re_search pat fn) as [m |]; [| reflexivity].
  destruct (strptime_b (firstn 3 (group m 1))) as [[mo d] |]; reflexivity.
Qed.

(** [_td_my] reads the statement anchor in the file name.  When neither
    pattern shows a month in the name, it returns the current month and
    year.  Otherwise the first pattern that shows one gives the answer: the
    month that [strptime] reads in its first group, between 1 and 12, and
    the number of the four digits of its second group. *)
Theorem td_my_in_range (w : world) (fn : str) :
  (Forall (fun pat => td_anchor_in fn pat = None) td_name_patterns ->
   _td_my w fn = now w) /\
  (forall pre pat post mo ytext,
     td_name_patterns = pre ++ pat :: post ->
     Forall (fun q => td_anchor_in fn q = None) pre ->
     td_anchor_in fn pat = Some (mo, ytext) ->
     exists y,
       Text.int_of ytext = Some y /\ 0 <= y <= 9999 /\ 1 <= mo <= 12 /\
       _td_my w fn = (mo, y)).
Proof.
  split.
  - intros Hnone. rewrite td_my_reads.
    rewrite <- (app_nil_r td_name_patterns), first_some_skips; [reflexivity |].
    revert Hnone. apply Forall_impl. intros pat ->. reflexivity.
  - intros pre pat post mo ytext Hsplit Hpre Hpat.
    assert (Hin : In pat td_name_patterns) by (rewrite Hsplit; apply in_elt).
    assert (Hread : exists y, Text.int_of ytext = Some y /\ 0 <= y <= 9999 /\ 1 <= mo <= 12).
    { unfold td_anchor_in in Hpat.
      destruct (re_search pat fn) as [m |] eqn:Hm; [| discriminate Hpat].
      destruct (strptime_b (firstn 3 (group m 1))) as [[mo' d] |] eqn:Hmo;
        [| discriminate Hpat].
      inversion Hpat; subst mo' ytext. clear Hpat.
      destruct (td_pattern_year fn pat m Hin Hm) as (y & Hy & Hrange).
      exists y. apply strptime_range in Hmo. repeat split; try assumption; lia. }
    destruct Hread as (y & Hy & Hrange & Hmonth).
    exists y. refine (conj Hy (conj Hrange (conj Hmonth _))).
    rewrite td_my_reads, Hsplit, first_some_skips.
    + cbn [first_some]. rewrite Hpat, Hy. reflexivity.
    + revert Hpre. apply Forall_impl. intros q ->. reflexivity.
Qed.

Lemma td_my_in_range_witness :
  _td_my td_dated (L "TD_Checking_Dec_31_2023.pdf") = (12, 2023) /\
  _td_my td_dated (L "statement.pdf") = (1, 2024).
Proof.
  split.
  - destruct (proj2 (td_my_in_range td_dated (L "TD_Checking_Dec_31_2023.pdf"))
                [] (hd Eps td_name_patterns) (tl td_name_patterns) 12 (L "2023"))
      as (y & Hy & _ & _ & ->).
    + reflexivity.
    + constructor.
    + vm_compute. reflexivity.
    + vm_compute in Hy. inversion Hy. reflexivity.
  - apply (proj1 (td_my_in_range td_dated (L "statement.pdf"))).
    repeat constructor.
Defined.

(** ** A document that can be read is parsed without an error *)

Lemma for_each_total {A S} (body : S -> A -> result S) xs :
  (forall x, In x xs -> forall s, exists s', body s x = Ok s') ->
  forall s, exists s', for_each xs body s = Ok s'.
Proof.
  induction xs as [| x xs IH]; intros Hbody s; cbn [for_each]; [eauto |].
  destruct (Hbody x (or_introl eq_refl) s) as (s1 & ->). cbn [bind].
  apply IH. intros y Hy. apply Hbody. right. exact Hy.
Qed.

Lemma chk_row_total r sm sy : exists row, chk_row r sm sy = Ok row.
Proof.
  unfold chk_row.
  destruct (is_empty _ || existsb _ CHK_SKIP); [eauto |].
  destruct (re_search td_month_day _) as [dm |]; [| eauto].
  unfold chk_amount.
  destruct (negb (is_empty (Text.strip (concat (r_with r))))).
  - destruct (td_amt_value (Text.strip (concat (r_with r)))) as (v & -> & _).
    cbn [bind]. destruct (Qeq_bool _ 0); eauto.
  - destruct (negb (is_empty (Text.strip (concat (r_dep r))))).
    + destruct (td_amt_value (Text.strip (concat (r_dep r)))) as (v & -> & _).
      cbn [bind]. destruct (Qeq_bool _ 0); eauto.
    + cbn [bind]. eauto.
Qed.

Lemma chk_page_total sm sy rows pg :
  has_words pg -> exists rows', chk_page sm sy rows pg = Ok rows'.
Proof.
  intros Hpg. unfold chk_page, _td_up. destruct (Hpg 2%Q) as (ws & ->). cbn [bind].
  destruct (filter upright ws) as [| w0 words]; [eauto |].
  destruct (find _ (w0 :: words)) as [hw |]; [| eauto].
  destruct (col_with _) as [cw |]; [| eauto].
  destruct (col_dep _) as [cd |]; [| eauto].
  apply for_each_total. intros line _ rows0.
  match goal with
  | |- context [chk_row ?r sm sy] => destruct (chk_row_total r sm sy) as (row & ->)
  end.
  cbn [bind]. eauto.
Qed.

Lemma cc_line_total raw f : exists r, cc_line raw f = Ok r.
Proof.
  unfold cc_line.
  destruct (cc_stops f); [eauto |]. destruct (cc_skipped f); [eauto |].
  destruct (td_amt_value (f_ar f)) as (an & -> & _). cbn [bind].
  destruct (re_search td_month_day (f_ds f)); [destruct (Qltb 0 an) |];
    try destruct (negb (is_empty (f_desc f)) && negb (is_empty raw)); eauto.
Qed.

Lemma cc_lines_total fs : forall raw, exists raw', cc_lines raw fs = Ok raw'.
Proof.
  induction fs as [| f fs IH]; intros raw; cbn [cc_lines]; [eauto |].
  destruct (cc_line_total raw f) as ([| raw1] & ->); cbn [bind]; [eauto | apply IH].
Qed.

Lemma cc_page_total raw pg :
  has_words pg -> exists raw', cc_page raw pg = Ok raw'.
Proof.
  intros Hpg. unfold cc_page, _td_up. destruct (Hpg 1%Q) as (ws & ->). cbn [bind].
  destruct (filter upright ws) as [| w0 words]; [eauto |].
  destruct (find _ (w0 :: words)) as [hw |]; [| eauto].
  apply cc_lines_total.
Qed.

Lemma parse_td_on_words w p doc :
  open w p = Ok doc -> pages doc <> [] -> Forall has_words (pages doc) ->
  exists rows, parse_td w p = Ok rows.
Proof.
  intros Hopen Hne Hwords. rewrite Forall_forall in Hwords.
  unfold parse_td. destruct (_td_my w (path_name p)) as [sm sy].
  unfold _td_type. rewrite Hopen. cbn [bind].
  destruct (pages doc) as [| pg pgs] eqn:Hpages; [contradiction |].
  unfold _td_up. destruct (Hwords pg (or_introl eq_refl) 2%Q) as (ws & ->). cbn [bind].
  destruct (existsb _ _ && existsb _ _).
  - unfold parse_td_cc. rewrite Hopen. cbn [bind]. rewrite Hpages.
    destruct (for_each_total cc_page (pg :: pgs)
                (fun x Hx s => cc_page_total s x (Hwords x Hx)) []) as (raw & ->).
    cbn [bind]. eauto.
  - unfold parse_td_chk. rewrite Hopen. cbn [bind]. rewrite Hpages.
    exact (for_each_total (chk_page sm sy) (pg :: pgs)
             (fun x Hx s => chk_page_total sm sy s x (Hwords x Hx)) []).
Qed.

(** The TD parser raises on its own account in one case only, the document
    without pages: for a document that opens, has a page, and whose words can
    be extracted on every page, it returns; and it returns only for a
    document that opens and has a page. *)
Theorem parse_td_returns (w : world) (p : str) :
  (forall doc, open w p = Ok doc -> pages doc <> [] -> Forall has_words (pages doc) ->
               exists rows, parse_td w p = Ok rows) /\
  (forall rows, parse_td w p = Ok rows ->
                exists doc, open w p = Ok doc /\ pages doc <> []).
Proof.
  split; [exact (parse_td_on_words w p) |].
  intros rows. unfold parse_td. destruct (_td_my w (path_name p)) as [sm sy].
  unfold _td_type. destruct (open w p) as [doc | e]; [| discriminate]. cbn [bind].
  destruct (pages doc) as [| pg pgs] eqn:Hpages; [discriminate |].
  intros _. exists doc. split; [reflexivity |]. rewrite Hpages. discriminate.
Qed.

Lemma parse_td_returns_witness :
  exists rows, parse_td td_dated (L "/in/TD_Checking_Dec_31_2023.pdf") = Ok rows.
Proof.
  apply (proj1 (parse_td_returns td_dated (L "/in/TD_Checking_Dec_31_2023.pdf"))
               (Pdf [Page (Ok None) (fun _ => Ok checking_table)])).
  - reflexivity.
  - discriminate.
  - constructor; [| constructor]. intros xt. eexists. reflexivity.
Defined.

(** [main] reports no error for a document that can be read, given a hint
    that [detect_account] gets past: when the file opens, has a page, the
    text and the words of every page can be extracted, and there is no hint,
    an empty hint or a hint that holds a keyword of the table, the exit
    status is 0 and the value of [error] is [null], whichever parser is
    chosen. *)
Theorem readable_document_succeeds (w : world) (prog path : str) (more : list str)
    (doc : pdf) :
  fs w path = Some (Ok doc) ->
  pages doc <> [] ->
  Forall has_text (pages doc) ->
  Forall has_words (pages doc) ->
  readable_hint (hd_error more) = true ->
  snd (main w (prog :: path :: more)) = 0 /\
  field (L "error") (fst (main w (prog :: path :: more))) = Some JNull.
Proof.
  intros Hfs Hne Htext Hwords Hhint.
  destruct (detect_account_cases path (hd_error more))
    as [(_ & account & Hacc & _) | (Hr & _)]; [| congruence].
  assert (Hopen : open w path = Ok doc) by (unfold open; rewrite Hfs; reflexivity).
  destruct (bmo_my_total w path) as (sm & sy & Hmy & _).
  pose proof (parse_bmo_on_text w path doc sm sy Hmy Hopen Htext) as Hbmo.
  destruct (parse_td_on_words w path doc Hopen Hne Hwords) as (tds & Htd).
  unfold main. rewrite Hfs, Hacc. cbn [bind].
  destruct (has "BMO" _); [rewrite Hbmo; auto |].
  destruct (has "TD" _); [rewrite Htd; auto |].
  unfold parse_unknown. rewrite Hbmo. cbn [bind].
  match goal with
  | |- context [match ?rows with [] => _ | _ :: _ => _ end] => destruct rows
  end.
  - rewrite Htd. cbn [bind].
    destruct tds; destruct account; auto.
  - destruct account; auto.
Qed.

Lemma readable_document_succeeds_witness :
  snd (main td_dated [program; L "/in/TD_Checking_Dec_31_2023.pdf"]) = 0.
Proof.
  apply (readable_document_succeeds td_dated program
           (L "/in/TD_Checking_Dec_31_2023.pdf") []
           (Pdf [Page (Ok None) (fun _ => Ok checking_table)])).
  - reflexivity.
  - discriminate.
  - constructor; [| constructor]. eexists. reflexivity.
  - constructor; [| constructor]. intros xt. eexists. reflexivity.
  - reflexivity.
Defined.

(** ** What [_bmo_human] leaves alone *)

Module Human.
Import ReFacts.

Local Open Scope nat_scope.

Lemma run_pair p q c :
  run (Seq (Grp 1 (Chr p)) (Grp 2 (Chr q))) accept c []
  = match rest c with
    | x :: y :: ys =>
      if p x && q y
      then Some (Cur (S (S (pos c))) (Some y) ys,
                 [(2, (S (pos c), S (S (pos c)))); (1, (pos c, S (pos c)))])
      else None
    | _ => None
    end.
Proof.
  destruct c as [ps pv [| x [| y ys]]]; cbn; try reflexivity.
  - destruct (p x); reflexivity.
  - destruct (p x); [destruct (q y) |]; reflexivity.
Qed.

Lemma at_pos_next s c x xs :
  at_pos s c -> rest c = x :: xs ->
  forall pv, at_pos s (Cur (S (pos c)) pv xs) /\ slice s (pos c, S (pos c)) = [x].
Proof.
  intros Hc Hrest pv.
  destruct (at_pos_step s c (Cur (S (pos c)) pv xs) [x] Hc) as [Hnext Hslice].
  - exact Hrest.
  - cbn [pos length]. lia.
  - split; assumption.
Qed.

(** [re.sub] with a pattern of two one-character groups and the template
    of the two groups with a blank between them. *)
Lemma sub_pair p q s fuel :
  forall c,
    at_pos s c -> length (rest c) <= fuel ->
    sub_from (Seq (Grp 1 (Chr p)) (Grp 2 (Chr q))) [Ref 1; Lit (L " "); Ref 2] s fuel c
    = spread p q (rest c).
Proof.
  induction fuel as [| fuel IH]; intros c Hc Hlen.
  - cbn [sub_from]. destruct (rest c); [reflexivity | cbn [length] in Hlen; lia].
  - cbn [sub_from]. rewrite run_pair.
    destruct (rest c) as [| x xs] eqn:Hrest; [reflexivity |].
    cbn [length] in Hlen.
    destruct (at_pos_next s c x xs Hc Hrest (Some x)) as [Hc1 Hx].
    destruct xs as [| y ys].
    + rewrite (IH _ Hc1) by (cbn [rest length]; lia). reflexivity.
    + cbn [spread]. cbn [length] in Hlen. destruct (p x && q y).
      * destruct (at_pos_next s (Cur (S (pos c)) (Some x) (y :: ys)) y ys Hc1 eq_refl (Some y))
          as [Hc2 Hy].
        cbn [pos] in Hc2, Hy.
        cbn [rest length].
        replace (length ys <? S (S (length ys))) with true
          by (symmetry; apply Nat.ltb_lt; lia).
        cbn [expand flat_map span_of Nat.eqb]. rewrite Hx, Hy.
        rewrite (IH _ Hc2) by (cbn [rest length]; lia).
        reflexivity.
      * rewrite (IH _ Hc1) by (cbn [rest length]; lia). reflexivity.
Qed.

Lemma re_sub_pair p q s :
  re_sub (seq [Grp 1 (Chr p); Grp 2 (Chr q)]) [Ref 1; Lit (L " "); Ref 2] s
  = spread p q s.
Proof.
  unfold re_sub. cbn [seq].
  apply (sub_pair p q s (length s) (start_cursor s)); [apply at_pos_start | reflexivity].
Qed.

Lemma spread_two p q x y ys :
  spread p q (x :: y :: ys)
  = if p x && q y then x :: " "%char :: y :: spread p q ys else x :: spread p q (y :: ys).
Proof. reflexivity. Qed.

Lemma inked_spread p q n :
  forall s, length s <= n -> inked (spread p q s) = inked s.
Proof.
  induction n as [| n IH]; intros s Hlen.
  - destruct s; [reflexivity | cbn [length] in Hlen; lia].
  - destruct s as [| x [| y ys]]; try reflexivity.
    cbn [length] in Hlen. rewrite spread_two. destruct (p x && q y).
    + unfold inked in *. cbn [filter]. change (Text.is_space " ") with true.
      cbn [negb]. rewrite (IH ys) by lia. reflexivity.
    + unfold inked in *. cbn [filter].
      rewrite (IH (y :: ys)) by (cbn [length]; lia). reflexivity.
Qed.

Lemma inked_collapse b s : inked (collapse_go b s) = inked s.
Proof.
  revert b. unfold inked.
  induction s as [| x s IH]; intros b; [reflexivity |].
  cbn [collapse_go filter]. destruct (Text.is_space x) eqn:Hx; cbn [negb].
  - destruct b; [apply IH |]. cbn [filter]. change (Text.is_space " ") with true.
    cbn [negb]. apply IH.
  - cbn [filter]. rewrite Hx. cbn [negb]. rewrite IH. reflexivity.
Qed.

Lemma inked_lstrip s : inked (Text.lstrip_by Text.is_space s) = inked s.
Proof.
  unfold inked. induction s as [| x s IH]; [reflexivity |].
  cbn [Text.lstrip_by filter]. destruct (Text.is_space x) eqn:Hx; cbn [negb].
  - exact IH.
  - cbn [filter]. rewrite Hx. reflexivity.
Qed.

Lemma inked_strip s : inked (Text.strip s) = inked s.
Proof.
  unfold Text.strip, Text.rstrip_by.
  unfold inked at 1. rewrite filter_rev. fold (inked (Text.lstrip_by Text.is_space
    (rev (Text.lstrip_by Text.is_space s)))).
  rewrite inked_lstrip. unfold inked at 1. rewrite filter_rev, rev_involutive.
  apply inked_lstrip.
Qed.

Lemma inked_app a b : inked (a ++ b) = inked a ++ inked b.
Proof. apply filter_app. Qed.

Lemma inked_join (ws : list str) :
  inked (Text.join (L " ") ws) = concat (map inked ws).
Proof.
  induction ws as [| w ws IH]; [reflexivity |].
  rewrite Blanks.join_cons. cbn [map concat]. destruct ws as [| w' ws].
  - cbn [is_empty map concat]. rewrite app_nil_r. reflexivity.
  - cbn [is_empty]. rewrite inked_app. f_equal. exact IH.
Qed.

Lemma inked_words d : inked d = concat (map inked (Text.split d)).
Proof.
  rewrite <- inked_join, <- Blanks.strip_collapse, inked_strip, inked_collapse.
  reflexivity.
Qed.

Lemma human_ink d : inked (_bmo_human d) = inked d.
Proof.
  unfold _bmo_human. rewrite !re_sub_pair.
  unfold re_sub at 1. rewrite Blanks.sub_blanks by (cbn [start_cursor rest]; lia).
  cbn [start_cursor rest].
  rewrite inked_strip, inked_collapse.
  rewrite !(inked_spread _ _ _ _ (Nat.le_refl _)). reflexivity.
Qed.

End Human.

(** [_bmo_human] only puts blanks in and takes blanks out: the characters
    other than blanks are those of the description it was given, each one as
    it was (so the letter case stays) and in the same order; and what it
    returns is made of its words joined by single blanks. *)
Theorem bmo_human_keeps_ink (d : str) :
  inked (_bmo_human d) = inked d /\ normalized (_bmo_human d).
Proof.
  split.
  - apply Human.human_ink.
  - unfold _bmo_human. apply normalized_step.
Qed.

(** ** What the legacy format changes *)

(** A line is read in the legacy format as in the modern one, but for the
    description: both give a row or none, with the same date and the same
    amount, and the description of the legacy row has the characters of the
    modern one, blanks apart, without a last word that [_bmo_isref] takes
    for a reference number. *)
Theorem legacy_format_keeps_ink (sm sy : Z) (line : str) (a b : Row) :
  bmo_line legacy sm sy line = Ok (Some a) ->
  bmo_line modern sm sy line = Ok (Some b) ->
  Date a = Date b /\ Amount a = Amount b /\
  exists ref,
    inked (Description b) = inked (Description a) ++ inked ref /\
    (ref = [] \/ _bmo_isref ref = true).
Proof.
  unfold bmo_line.
  destruct (re_match _BMO_TRANS (Text.strip line)) as [m |]; [| discriminate].
  destruct (_bmo_amt (group m 4)) as [amt | e]; cbn [bind]; [| discriminate].
  generalize (Text.strip (group m 3)) (group m 1). intros desc tok [= <-] [= <-].
  cbn [Date Amount Description]. split; [reflexivity |]. split; [reflexivity |].
  rewrite Human.human_ink.
  destruct (Text.split desc) as [| w ws] eqn:Hparts.
  - exists []. rewrite app_nil_r. auto.
  - destruct (_bmo_isref (last (w :: ws) [])) eqn:Href.
    + exists (last (w :: ws) []). split; [| right; exact Href].
      rewrite Human.inked_strip, Human.inked_join.
      rewrite (Human.inked_words desc), Hparts.
      rewrite (app_removelast_last (l := w :: ws) []) at 1 by discriminate.
      rewrite map_app, concat_app. cbn [map concat]. rewrite app_nil_r. reflexivity.
    + exists []. rewrite app_nil_r. auto.
Qed.

Lemma legacy_format_keeps_ink_witness :
  exists a b,
    bmo_line legacy 1 2024 amazon_line = Ok (Some a) /\
    bmo_line modern 1 2024 amazon_line = Ok (Some b) /\
    Description a = L "Amazon CA" /\ Description b = L "AmazonCA 123456789" /\
    Amount a = Amount b.
Proof.
  eexists. eexists. refine (conj _ (conj _ (conj _ (conj _ _)))).
  - vm_compute. reflexivity.
  - vm_compute. reflexivity.
  - reflexivity.
  - reflexivity.
  - refine (proj1 (proj2 (legacy_format_keeps_ink 1 2024 amazon_line _ _ _ _)));
      vm_compute; reflexivity.
Defined.

(** ** The pages of a checking statement are read one by one *)

Lemma for_each_appends {A S} (f : A -> result (option S)) xs :
  (forall x, exists r, f x = Ok r) ->
  exists new, forall s,
    for_each xs (fun s x => r <- f x ;;
                            Ok (match r with
                                | Some y => s ++ [y]
                                | None => s
                                end)) s
    = Ok (s ++ new).
Proof.
  intros Hf. induction xs as [| x xs (new & IH)].
  - exists []. intros s. cbn [for_each]. rewrite app_nil_r. reflexivity.
  - destruct (Hf x) as (r & Hr).
    exists (match r with Some y => y :: new | None => new end).
    intros s. cbn [for_each]. rewrite Hr. cbn [bind].
    destruct r as [y |]; [| apply IH].
    rewrite IH, <- app_assoc. reflexivity.
Qed.

Lemma chk_page_appends sm sy pg :
  has_words pg ->
  forall rows, chk_page sm sy rows pg = Ok (rows ++ chk_page_rows sm sy pg).
Proof.
  intros Hpg rows. unfold chk_page_rows, chk_page, _td_up.
  destruct (Hpg 2%Q) as (ws & ->). cbn [bind].
  destruct (filter upright ws) as [| w0 words]; [rewrite app_nil_r; reflexivity |].
  destruct (find _ (w0 :: words)) as [hw |]; [| rewrite app_nil_r; reflexivity].
  destruct (col_with _) as [cw |]; [| rewrite app_nil_r; reflexivity].
  destruct (col_dep _) as [cd |]; [| rewrite app_nil_r; reflexivity].
  match goal with
  | |- context [chk_bucket ?xde ?xwe ?xdpe ?xdte] =>
    match goal with
    | |- for_each ?lines _ rows = _ =>
      destruct (for_each_appends
                  (fun line => chk_row (fold_left (chk_bucket xde xwe xdpe xdte) line
                                                  (ChkFields [] [] [] [])) sm sy)
                  lines (fun line => chk_row_total _ sm sy)) as (new & Hnew)
    end
  end.
  rewrite (Hnew rows), (Hnew []). reflexivity.
Qed.

(** The checking layout is read page by page: when the document opens and
    the words of every page can be extracted, the rows of the document are
    the rows of its pages one after the other, no page changing what
    another one gives. *)
Theorem parse_td_chk_pagewise (w : world) (p : str) (sm sy : Z) (doc : pdf) :
  open w p = Ok doc ->
  Forall has_words (pages doc) ->
  parse_td_chk w p sm sy = Ok (flat_map (chk_page_rows sm sy) (pages doc)).
Proof.
  intros Hopen Hwords. unfold parse_td_chk. rewrite Hopen. cbn [bind].
  rewrite (for_each_collect (chk_page_rows sm sy)); [reflexivity |].
  intros pg Hpg rows. rewrite Forall_forall in Hwords.
  apply chk_page_appends. exact (Hwords pg Hpg).
Qed.

Lemma parse_td_chk_pagewise_witness :
  parse_td_chk td_dated (L "/in/TD_Checking_Dec_31_2023.pdf") 12 2023
  = Ok (flat_map (chk_page_rows 12 2023)
                 [Page (Ok None) (fun _ => Ok checking_table)]).
Proof.
  apply (parse_td_chk_pagewise td_dated (L "/in/TD_Checking_Dec_31_2023.pdf") 12 2023
           (Pdf [Page (Ok None) (fun _ => Ok checking_table)])).
  - reflexivity.
  - constructor; [| constructor]. intros xt. eexists. reflexivity.
Defined.
